(** * SingleCellFusion: integration of loom files

    A shallow embedding of [singlecellfusion/integration.py]: the
    full-memory engine ([high_mem_integrate]), the streaming engine
    ([low_mem_add_data], [low_mem_integrate]) and the dispatcher
    ([integrate_data]), together with the parts of loompy, pandas, numpy
    and scipy they call.  Definitions come first, theorems follow. *)

From Stdlib Require Import ZArith Lia Ascii String Sorted.
From stdpp Require Import base option list gmap strings.

Open Scope string_scope.
Open Scope Z_scope.
Open Scope nat_scope.
Open Scope list_scope.

(** ** Values and outcomes *)

(** An element of a numpy attribute array or of a pandas index. *)
Inductive scalar :=
  | Str (s : string)
  | Num (z : Z)
  | NoneV.

#[global] Instance scalar_eq_dec : EqDecision scalar.
Proof. solve_decision. Defined.

(** A Python argument that is a [str] or [None]. *)
Definition pyname := option string.

Definition scalar_of (n : pyname) : scalar :=
  match n with Some s => Str s | None => NoneV end.

(** An entry of a dense table: a number, or pandas' missing value. *)
Inductive cell :=
  | Val (z : Z)
  | NaN.

#[global] Instance cell_eq_dec : EqDecision cell.
Proof. solve_decision. Defined.

(** The exceptions the code and its libraries raise.  [Nontermination]
    stands for a loop that never exits. *)
Inductive error :=
  | AttributeNotFoundError (name : string)
  | ParameterShapeError
  | SchemaMismatchError
  | KeyError (labels : list scalar)
  | AttributeError (name : pyname)
  | LayerError (name : pyname)
  | IndexError
  | ValueError (msg : string)
  | InvalidIndexError
  | UnboundLocalError (var : string)
  | OSError
  | TypeError
  | Nontermination.

Inductive result (A : Type) :=
  | Ok (a : A)
  | Err (e : error).
Arguments Ok {A} a.
Arguments Err {A} e.

#[global] Instance result_ret : MRet result := fun A a => Ok a.

#[global] Instance result_bind : MBind result := fun A B k r =>
  match r with
  | Ok a => k a
  | Err e => Err e
  end.

Fixpoint rmapM {A B} (f : A -> result B) (l : list A) : result (list B) :=
  match l with
  | [] => Ok []
  | x :: l' => y ← f x; ys ← rmapM f l'; Ok (y :: ys)
  end.

(** ** Loom files *)

(** A loom file: a features-by-samples matrix per layer (the main matrix
    is the layer named by the empty string), row and column attribute
    arrays, and the path it is opened by. *)
Record loom := {
  path : string;
  shape : nat * nat;
  ra : gmap string (list scalar);
  ca : gmap string (list scalar);
  layers : gmap string (nat -> nat -> Z)
}.

(** Every attribute array is as long as its axis. *)
Definition loom_wf (ds : loom) : Prop :=
  (forall k arr, ra ds !! k = Some arr -> length arr = (shape ds).1) /\
  (forall k arr, ca ds !! k = Some arr -> length arr = (shape ds).2).

(** [ds.ra[name]] and [ds.ca[name]]. *)
Definition attr_get (m : gmap string (list scalar)) (name : pyname)
  : result (list scalar) :=
  match name with
  | Some s => match m !! s with
              | Some arr => Ok arr
              | None => Err (AttributeError name)
              end
  | None => Err (AttributeError name)
  end.

(** [ds.layers[name]]. *)
Definition layer_get (ds : loom) (name : pyname) : result (nat -> nat -> Z) :=
  match name with
  | Some s => match layers ds !! s with
              | Some m => Ok m
              | None => Err (LayerError name)
              end
  | None => Err (LayerError name)
  end.

(** numpy fancy indexing [arr[idx]]. *)
Definition index_array {A} (arr : list A) (idx : list nat) : result (list A) :=
  rmapM (fun i => match arr !! i with
                  | Some x => Ok x
                  | None => Err IndexError
                  end) idx.

(** ** Helpers of [utils] *)

Definition truthy (x : scalar) : bool :=
  match x with
  | Str s => negb (String.eqb s "")
  | Num z => negb (Z.eqb z 0)
  | NoneV => false
  end.

Fixpoint truthy_positions (i : nat) (l : list scalar) : list nat :=
  match l with
  | [] => []
  | x :: l' =>
      if truthy x then i :: truthy_positions (S i) l'
      else truthy_positions (S i) l'
  end.

(** Modelled from the spec: [utils.get_attr_index] is not part of the
    sources at hand.  With no attribute name it returns all positions of
    the axis in their order; with a name, the positions where the
    attribute is truthy, ascending; it fails with
    [AttributeNotFoundError] when the dataset has no such attribute. *)
Definition get_attr_index (loom_file : loom) (attr : pyname) (columns : bool)
  : result (list nat) :=
  match attr with
  | None =>
      Ok (seq 0 (if columns then (shape loom_file).2 else (shape loom_file).1))
  | Some a =>
      match (if columns then ca loom_file else ra loom_file) !! a with
      | Some arr => Ok (truthy_positions 0 arr)
      | None => Err (AttributeNotFoundError a)
      end
  end.

Definition is_digit (c : ascii) : bool :=
  let n := nat_of_ascii c in (48 <=? n) && (n <=? 57).

Fixpoint drop_digits (l : list ascii) : list ascii :=
  match l with
  | c :: l' => if is_digit c then drop_digits l' else l
  | [] => []
  end.

(** Modelled from the spec: [utils.remove_gene_version] is not part of
    the sources at hand.  It strips a trailing version suffix, a dot
    followed by digits, from an identifier. *)
Definition strip_version (s : string) : string :=
  let r := rev (list_ascii_of_string s) in
  match r with
  | c :: _ =>
      if is_digit c then
        match drop_digits r with
        | "."%char :: rest => string_of_list_ascii (rev rest)
        | _ => s
        end
      else s
  | [] => s
  end.

Definition remove_gene_version (ids : list scalar) : list scalar :=
  map (fun x => match x with Str s => Str (strip_version s) | _ => x end) ids.

(** Modelled from the spec: [utils.make_layer_list] is not part of the
    sources at hand; it wraps a layer name into the list [scan] takes. *)
Definition make_layer_list (layer : pyname) : list pyname := [layer].

(** A per-target argument: one value, or a list of values. *)
Inductive param :=
  | PScalar (v : pyname)
  | PList (l : list pyname).

Definition is_none (p : param) : bool :=
  match p with PScalar None => true | _ => false end.

Definition is_list (p : param) : bool :=
  match p with PList _ => true | _ => false end.

Definition is_str (p : param) : bool :=
  match p with PScalar (Some _) => true | _ => false end.

Definition param_len (p : param) : nat :=
  match p with
  | PList l => length l
  | PScalar (Some s) => String.length s
  | PScalar None => 0
  end.

Inductive expected_type := ExpStr | ExpList.

Fixpoint all_equal (l : list nat) : bool :=
  match l with
  | a :: ((b :: _) as l') => (a =? b) && all_equal l'
  | _ => true
  end.

(** Modelled from the spec: [utils.all_same_type_size] is not part of
    the sources at hand.  It fails with [ParameterShapeError] unless
    every parameter has the expected type and, when sizes are to be
    confirmed, all have the same length. *)
Definition all_same_type_size (parameters : list param)
    (expected : expected_type) (confirm_size : bool) : result unit :=
  if forallb (match expected with ExpStr => is_str | ExpList => is_list end)
       parameters
  then
    if confirm_size && negb (all_equal (map param_len parameters))
    then Err ParameterShapeError
    else Ok tt
  else Err ParameterShapeError.

(** Modelled from the spec: [utils.mimic_list] is not part of the
    sources at hand.  A scalar is broadcast to [list_len] copies, a list
    of exactly [list_len] elements is kept, any other list fails with
    [ParameterShapeError]. *)
Definition mimic_one (list_len : nat) (p : param) : result (list pyname) :=
  match p with
  | PScalar v => Ok (replicate list_len v)
  | PList l =>
      if length l =? list_len then Ok l else Err ParameterShapeError
  end.

Definition mimic_list (parameters : list param) (list_len : nat)
  : result (list (list pyname)) :=
  rmapM (mimic_one list_len) parameters.

(** ** scipy: matrices in coordinate form *)

(** A [coo_matrix]: a declared shape and three parallel arrays. *)
Record coo := {
  coo_shape : nat * nat;
  coo_row : list nat;
  coo_col : list nat;
  coo_data : list Z
}.

Definition coo_triples (m : coo) : list (nat * nat * Z) :=
  zip (zip (coo_row m) (coo_col m)) (coo_data m).

Definition enumerate {A} (l : list A) : list (nat * A) :=
  zip (seq 0 (length l)) l.

(** [coo_matrix(values[rows, :][:, cols])]: the entries of the selected
    sub-matrix that are not zero, row by row. *)
Definition dense_entries (values : nat -> nat -> Z) (rows cols : list nat)
  : list (nat * nat * Z) :=
  flat_map (fun ir =>
    flat_map (fun jc =>
      if Z.eqb (values ir.2 jc.2) 0 then []
      else [(ir.1, jc.1, values ir.2 jc.2)])
      (enumerate cols))
    (enumerate rows).

Definition sparse (values : nat -> nat -> Z) (rows cols : list nat) : coo :=
  let es := dense_entries values rows cols in
  {| coo_shape := (length rows, length cols);
     coo_row := map (fun e => e.1.1) es;
     coo_col := map (fun e => e.1.2) es;
     coo_data := map (fun e => e.2) es |}.

(** [m.nonzero()]: the coordinates of the stored entries that are not
    zero. *)
Definition nonzero (m : coo) : list nat * list nat :=
  let keep := filter (fun t => t.2 ≠ 0%Z) (coo_triples m) in
  (map (fun t => t.1.1) keep, map (fun t => t.1.2) keep).

(** [coo_matrix((data, (row, col)), shape)] with the checks scipy makes. *)
Definition coo_matrix (data : list Z) (row col : list nat) (shp : nat * nat)
  : result coo :=
  if negb ((length row =? length data) && (length col =? length data))
  then Err (ValueError "row, column, and data array must all be the same length")
  else if existsb (fun r => shp.1 <=? r) row
  then Err (ValueError "row index exceeds matrix dimensions")
  else if existsb (fun c => shp.2 <=? c) col
  then Err (ValueError "column index exceeds matrix dimensions")
  else Ok {| coo_shape := shp; coo_row := row; coo_col := col;
             coo_data := data |}.

(** The dense value at a coordinate: stored entries at the same
    coordinate add up. *)
Definition coo_at (m : coo) (r c : nat) : Z :=
  foldr Z.add 0%Z
    (map (fun t => t.2)
       (filter (fun t => t.1.1 = r /\ t.1.2 = c) (coo_triples m))).

Definition todense (m : coo) : list (list Z) :=
  map (fun r => map (fun c => coo_at m r c) (seq 0 (coo_shape m).2))
      (seq 0 (coo_shape m).1).

(** ** loompy: scanning a file in batches *)

(** The body of [ds.scan(axis=1, items, batch_size)]: the file's columns
    are cut into windows of [cols_per_chunk] columns; a window yields the
    requested columns that fall in it, and yields nothing when there are
    none.  [fuel] bounds the number of windows. *)
Fixpoint scan_from (fuel ix cols_per_chunk ncols : nat) (items : list nat)
  : result (list (list nat)) :=
  if ix <? ncols then
    match fuel with
    | 0 => Err Nontermination
    | S fuel' =>
        let cpc := Nat.min (ncols - ix) cols_per_chunk in
        let selection := filter (fun x => ix <= x < ix + cpc) items in
        rest ← scan_from fuel' (ix + cpc) cpc ncols items;
        Ok (match selection with
            | [] => rest
            | _ :: _ => selection :: rest
            end)
    end
  else Ok [].

(** A view yielded by [scan]: the file and the columns selected. *)
Record view := {
  view_ds : loom;
  view_cols : list nat
}.

Definition view_shape (v : view) : nat * nat :=
  ((shape (view_ds v)).1, length (view_cols v)).

Definition view_ca (v : view) (name : pyname) : result (list scalar) :=
  arr ← attr_get (ca (view_ds v)) name;
  index_array arr (view_cols v).

(** [view.layers[name]]: the layer restricted to the view's columns. *)
Definition view_layer (v : view) (name : pyname)
  : result (nat -> nat -> Z) :=
  values ← layer_get (view_ds v) name;
  Ok (fun r j => match view_cols v !! j with
                 | Some c => values r c
                 | None => 0%Z
                 end).

Definition scan (ds : loom) (items : list nat) (layers : list pyname)
    (batch_size : nat) : result (list view) :=
  _ ← rmapM (layer_get ds) layers;
  sels ← scan_from (shape ds).2 0 batch_size (shape ds).2 items;
  Ok (map (fun sel => {| view_ds := ds; view_cols := sel |}) sels).

(** ** pandas: tables and label look-up *)

(** A [DataFrame]: row labels, column labels, and the values row by
    row. *)
Record frame := {
  f_index : list scalar;
  f_columns : list scalar;
  f_values : list (list cell)
}.

Definition transpose_values (ncols : nat) (values : list (list cell))
  : list (list cell) :=
  map (fun j => map (fun row => default NaN (row !! j)) values)
      (seq 0 ncols).

(** [df.T] *)
Definition frame_T (f : frame) : frame :=
  {| f_index := f_columns f;
     f_columns := f_index f;
     f_values := transpose_values (length (f_columns f)) (f_values f) |}.

(** The positions of a label in an index. *)
Definition positions_of (x : scalar) (index : list scalar) : list nat :=
  map fst (filter (fun p => p.2 = x) (enumerate index)).

(** [df.loc[labels]] on a table indexed by [index], returning the
    selected row positions: for each requested label in turn, every row
    carrying it.  A requested label the index lacks raises [KeyError]
    listing the labels that are missing. *)
Definition loc (index labels : list scalar) : result (list nat) :=
  match filter (fun x => x ∉ index) labels with
  | [] => Ok (flat_map (fun x => positions_of x index) labels)
  | missing => Err (KeyError missing)
  end.

(** [pd.Series(values, index=keys).to_dict()]: a later pair with the same
    key overrides an earlier one. *)
Definition to_dict (keys values : list nat) : gmap nat nat :=
  foldl (fun m p => <[p.1 := p.2]> m) ∅ (zip keys values).

(** [series.replace(to_replace=d)]: every value that is a key of [d] is
    replaced by what [d] maps it to, the others are kept. *)
Definition replace (d : gmap nat nat) (series : list nat) : list nat :=
  map (fun r => default r (d !! r)) series.

(** The labels of several indexes, each once, in order of first
    appearance. *)
Fixpoint unique_from (seen l : list scalar) : list scalar :=
  match l with
  | [] => []
  | x :: l' =>
      if decide (x ∈ seen) then unique_from seen l'
      else x :: unique_from (x :: seen) l'
  end.

Definition has_dup (l : list scalar) : bool :=
  negb (bool_decide (NoDup l)).

(** [row.reindex(new_columns)]: the row's value under each new label,
    missing where the row has no such label. *)
Definition reindex_row (old_columns new_columns : list scalar)
    (row : list cell) : list cell :=
  map (fun x => match positions_of x old_columns with
                | i :: _ => default NaN (row !! i)
                | [] => NaN
                end) new_columns.

(** [pd.concat(frames, axis=0, sort=False)]: rows are stacked in order;
    columns are joined on their label (outer join).  When the frames do
    not all carry the same column index, each is reindexed to the union
    of the labels in order of first appearance, which needs every frame's
    labels to be distinct. *)
Definition concat (frames : list frame) : result frame :=
  match frames with
  | [] => Err (ValueError "No objects to concatenate")
  | f0 :: rest =>
      if forallb (fun f => bool_decide (f_columns f = f_columns f0)) rest
      then Ok {| f_index := flat_map f_index frames;
                 f_columns := f_columns f0;
                 f_values := flat_map f_values frames |}
      else if existsb (fun f => has_dup (f_columns f)) frames
      then Err InvalidIndexError
      else
        let columns := unique_from [] (flat_map f_columns frames) in
        Ok {| f_index := flat_map f_index frames;
              f_columns := columns;
              f_values :=
                flat_map (fun f =>
                  map (reindex_row (f_columns f) columns) (f_values f))
                  frames |}
  end.

(** [np.repeat(label, n)] *)
Definition np_repeat (label : param) (n : nat) : list scalar :=
  match label with
  | PScalar v => replicate n (scalar_of v)
  | PList l => flat_map (fun v => replicate n (scalar_of v)) l
  end.

(** Where the helpers of [utils] take one attribute name, a list is a
    type error. *)
Definition scalar_arg (p : param) : result pyname :=
  match p with
  | PScalar v => Ok v
  | PList _ => Err TypeError
  end.

(** ** The output file *)

(** The integrated loom file: the matrix, features by samples, and its
    attribute arrays. *)
Record store := {
  st_shape : nat * nat;
  st_matrix : list (list cell);
  st_ra : gmap string (list scalar);
  st_ca : gmap string (list scalar)
}.

(** [loompy.create(filename, matrix, row_attrs, col_attrs)] *)
Definition loompy_create (shp : nat * nat) (matrix : list (list cell))
    (row_attrs col_attrs : gmap string (list scalar)) : store :=
  {| st_shape := shp; st_matrix := matrix;
     st_ra := row_attrs; st_ca := col_attrs |}.

(** A call of [utils.batch_add_sparse]. *)
Record write_call := {
  w_layer : coo;
  w_row_attrs : gmap string (list scalar);
  w_col_attrs : gmap string (list scalar);
  w_append : bool
}.

(** The state the streaming engine works on: the output file, absent
    until it is created, and the calls of the writer so far. *)
Record world := {
  out_loom : option store;
  calls : list write_call
}.

Definition M (A : Type) : Type := world -> world * result A.

#[global] Instance M_ret : MRet M := fun A a w => (w, Ok a).

#[global] Instance M_bind : MBind M := fun A B k c w =>
  match c w with
  | (w', Ok a) => k a w'
  | (w', Err e) => (w', Err e)
  end.

Definition lift {A} (r : result A) : M A := fun w => (w, r).

(** [loompy.connect(out_loom, mode='r')] *)
Definition connect_out : M store := fun w =>
  match out_loom w with
  | Some st => (w, Ok st)
  | None => (w, Err OSError)
  end.

Definition append_columns (st : store) (dat : coo)
    (col_attrs : gmap string (list scalar)) : store :=
  {| st_shape := ((st_shape st).1, (st_shape st).2 + (coo_shape dat).2);
     st_matrix :=
       zip_with (fun old new => old ++ map Val new)
         (st_matrix st) (todense dat);
     st_ra := st_ra st;
     st_ca := union_with (fun old new => Some (old ++ new))
                (st_ca st) col_attrs |}.

(** Modelled from the spec: [utils.batch_add_sparse] is not part of the
    sources at hand.  Without [append] it creates the output file: the
    row attributes are established and the first block of columns is
    written.  With [append] it adds a block of columns to the existing
    file: the block's row count must equal the file's, else it fails with
    [SchemaMismatchError]; the row attributes stay as created and the
    column attribute arrays grow by concatenation. *)
Definition batch_add_sparse (dat : coo)
    (row_attrs col_attrs : gmap string (list scalar)) (append : bool)
  : M unit := fun w =>
  let call := {| w_layer := dat; w_row_attrs := row_attrs;
                 w_col_attrs := col_attrs; w_append := append |} in
  let log := calls w ++ [call] in
  if append then
    match out_loom w with
    | None => ({| out_loom := None; calls := log |}, Err OSError)
    | Some st =>
        if (coo_shape dat).1 =? (st_shape st).1 then
          ({| out_loom := Some (append_columns st dat col_attrs);
              calls := log |}, Ok tt)
        else ({| out_loom := Some st; calls := log |},
              Err SchemaMismatchError)
    end
  else
    ({| out_loom :=
          Some (loompy_create (coo_shape dat) (map (map Val) (todense dat))
                  row_attrs col_attrs);
        calls := log |}, Ok tt).

(** ** Arguments of the integration functions *)

(** [loom_target]: one path or a list of paths. *)
Inductive targets :=
  | TOne (d : loom)
  | TMany (ds : list loom).

Record args := {
  loom_source : loom;
  loom_target : targets;
  layer_source : pyname;
  layer_target : param;
  feat_source : pyname;
  feat_target : param;
  cell_source : pyname;
  cell_target : param;
  label_source : pyname;
  label_target : param;
  valid_ra_source : pyname;
  valid_ra_target : param;
  valid_ca_source : pyname;
  valid_ca_target : param;
  remove_version : bool;
  low_mem : bool;
  batch_size : nat
}.

Definition targets_param (t : targets) : param :=
  match t with
  | TOne d => PScalar (Some (path d))
  | TMany ds => PList (map (fun d => Some (path d)) ds)
  end.

(** What one call for a target is given. *)
Record target_cfg := {
  t_loom : loom;
  t_layer : pyname;
  t_feat : pyname;
  t_cell : pyname;
  t_label : param;
  t_valid_ra : param;
  t_valid_ca : param
}.

Definition item {A} (l : list A) (i : nat) : result A :=
  match l !! i with
  | Some x => Ok x
  | None => Err IndexError
  end.

(** The block headed "Check inputs", the same in both engines, and the
    arguments each target's call then receives. *)
Definition check_inputs (a : args) : result (list target_cfg) :=
  match loom_target a with
  | TMany ds =>
      _ ← all_same_type_size [targets_param (loom_target a); layer_target a]
            ExpList true;
      checked ← mimic_list [feat_target a; cell_target a; valid_ra_target a;
                            valid_ca_target a; label_target a] (length ds);
      feat ← item checked 0;
      cell ← item checked 1;
      valid_ra ← item checked 2;
      valid_ca ← item checked 3;
      label ← item checked 4;
      rmapM (fun i =>
        d ← item ds i;
        ly ← match layer_target a with
             | PList l => item l i
             | PScalar _ => Err TypeError
             end;
        f ← item feat i;
        c ← item cell i;
        lb ← item label i;
        vr ← item valid_ra i;
        vc ← item valid_ca i;
        Ok {| t_loom := d; t_layer := ly; t_feat := f; t_cell := c;
              t_label := PScalar lb; t_valid_ra := PScalar vr;
              t_valid_ca := PScalar vc |})
        (seq 0 (length ds))
  | TOne d =>
      _ ← all_same_type_size [targets_param (loom_target a); layer_target a;
                              cell_target a; feat_target a] ExpStr false;
      ly ← scalar_arg (layer_target a);
      f ← scalar_arg (feat_target a);
      c ← scalar_arg (cell_target a);
      Ok [ {| t_loom := d; t_layer := ly; t_feat := f; t_cell := c;
              t_label := label_target a;
              t_valid_ra := valid_ra_target a;
              t_valid_ca := valid_ca_target a |} ]
  end.

(** ** The full-memory engine *)

Definition valid_index (loom_file : loom) (attr : param) (columns : bool)
  : result (list nat) :=
  name ← scalar_arg attr;
  get_attr_index loom_file name columns.

Definition high_mem_get_data (loom_file : loom)
    (layer feat_attr cell_attr : pyname) (valid_ra valid_ca : param)
    (remove_version : bool) : result frame :=
  row_idx ← valid_index loom_file valid_ra false;
  col_idx ← valid_index loom_file valid_ca true;
  values ← layer_get loom_file layer;
  let dat := todense (sparse values row_idx col_idx) in
  feats ← attr_get (ra loom_file) feat_attr;
  index ← index_array feats row_idx;
  cells ← attr_get (ca loom_file) cell_attr;
  columns ← index_array cells col_idx;
  let index := if remove_version then remove_gene_version index else index in
  Ok (frame_T {| f_index := index; f_columns := columns;
                 f_values := map (map Val) dat |}).

Definition high_mem_repeat_label (loom_file : loom) (valid_ca : param)
    (label : param) : result (list scalar) :=
  col_idx ← valid_index loom_file valid_ca true;
  Ok (np_repeat label (length col_idx)).

(** The three lists the engine fills: the tables, the modality labels
    (unbound unless both labels are given) and the file labels. *)
Record collected := {
  imputed_dat : list frame;
  type_dat : option (list (list scalar));
  file_dat : list (list scalar)
}.

Definition high_mem_add (remove_version is_type : bool) (acc : collected)
    (loom_file : loom) (layer feat_attr cell_attr : pyname)
    (label valid_ra valid_ca : param) : result collected :=
  dat ← high_mem_get_data loom_file layer feat_attr cell_attr
          valid_ra valid_ca remove_version;
  types ← (if is_type then
             labels ← high_mem_repeat_label loom_file valid_ca label;
             Ok (Some (default [] (type_dat acc) ++ [labels]))
           else Ok (type_dat acc));
  files ← high_mem_repeat_label loom_file valid_ca
            (PScalar (Some (path loom_file)));
  Ok {| imputed_dat := imputed_dat acc ++ [dat];
        type_dat := types;
        file_dat := file_dat acc ++ [files] |}.

Fixpoint high_mem_targets (remove_version is_type : bool) (acc : collected)
    (cfgs : list target_cfg) : result collected :=
  match cfgs with
  | [] => Ok acc
  | t :: rest =>
      acc' ← high_mem_add remove_version is_type acc (t_loom t) (t_layer t)
               (t_feat t) (t_cell t) (t_label t) (t_valid_ra t)
               (t_valid_ca t);
      high_mem_targets remove_version is_type acc' rest
  end.

(** [label_source is not None and label_target is not None] *)
Definition is_type_of (a : args) : bool :=
  negb (bool_decide (label_source a = None)) &&
  negb (is_none (label_target a)).

Definition high_mem_collect (a : args) : result collected :=
  let is_type := is_type_of a in
  cfgs ← check_inputs a;
  acc ← high_mem_add (remove_version a) is_type
          {| imputed_dat := []; type_dat := None; file_dat := [] |}
          (loom_source a) (layer_source a) (feat_source a) (cell_source a)
          (PScalar (label_source a)) (PScalar (valid_ra_source a))
          (PScalar (valid_ca_source a));
  high_mem_targets (remove_version a) is_type acc cfgs.

Definition high_mem_integrate (a : args) : result store :=
  let is_type := is_type_of a in
  acc ← high_mem_collect a;
  table ← concat (imputed_dat acc);
  types ← match type_dat acc with
          | Some l => Ok (mjoin l)
          | None => Err (UnboundLocalError "type_dat")
          end;
  let files := mjoin (file_dat acc) in
  let col_attrs :=
    <["OriginalFile" := files]> {["CellID" := f_index table]} in
  let col_attrs :=
    if is_type then <["Modality" := types]> col_attrs else col_attrs in
  let row_attrs := {["Accession" := f_columns table]} in
  Ok (loompy_create (length (f_columns table), length (f_index table))
        (f_values (frame_T table)) row_attrs col_attrs).

(** ** The streaming engine *)

(** The block headed "Re-order if appending": a table of the local
    positions indexed by the local identifiers is looked up at the output
    identifiers, the rows found are numbered anew, and the dictionary
    maps each old position to the new one. *)
Definition feat_idx_of (feat_ids out_ids : list scalar)
  : result (gmap nat nat) :=
  old_idx ← loc feat_ids out_ids;
  let new_idx := seq 0 (length old_idx) in
  Ok (to_dict old_idx new_idx).

(** The update of a block when appending: the row of every entry is
    replaced through the dictionary, columns and values are kept, and
    the matrix is rebuilt with the shape it had. *)
Definition reorder (feat_idx : gmap nat nat) (dat : coo) : result coo :=
  let orig_idx := (nonzero dat).1 in
  let new_idx := replace feat_idx orig_idx in
  coo_matrix (coo_data dat) new_idx (nonzero dat).2
    ((coo_shape dat).1, (coo_shape dat).2).

(** The body of the loop over the batches; [append] is the variable of
    the same name. *)
Fixpoint add_batches (in_loom : loom) (layer cell_attr : pyname)
    (label : param) (row_idx : list nat) (feat_ids out_ids : list scalar)
    (feat_idx : gmap nat nat) (append : bool) (views : list view)
  : M unit :=
  match views with
  | [] => mret tt
  | v :: rest =>
      values ← lift (view_layer v layer);
      let dat := sparse values row_idx (seq 0 (view_shape v).2) in
      dat ← lift (if append then reorder feat_idx dat else Ok dat);
      let add_ids := if append then out_ids else feat_ids in
      cells ← lift (view_ca v cell_attr);
      let col_attrs :=
        <["OriginalFile" :=
            np_repeat (PScalar (Some (path in_loom))) (view_shape v).2]>
          {["CellID" := cells]} in
      let col_attrs :=
        if is_none label then col_attrs
        else <["Modality" := np_repeat label (view_shape v).2]> col_attrs in
      _ ← batch_add_sparse dat {["Accession" := add_ids]} col_attrs append;
      add_batches in_loom layer cell_attr label row_idx feat_ids out_ids
        feat_idx true rest
  end.

Definition low_mem_add_data (in_loom : loom)
    (layer feat_attr cell_attr : pyname) (label valid_ra valid_ca : param)
    (remove_version : bool) (batch_size : nat) (gen_out : bool) : M unit :=
  row_idx ← lift (valid_index in_loom valid_ra false);
  col_idx ← lift (valid_index in_loom valid_ca true);
  let layers := make_layer_list layer in
  let append := negb gen_out in
  out_ids ← (if gen_out then
               lift (acc ← attr_get (ra in_loom) (Some "Accession");
                     index_array acc row_idx)
             else
               ds ← connect_out;
               lift (attr_get (st_ra ds) (Some "Accession")));
  let out_ids :=
    if remove_version then remove_gene_version out_ids else out_ids in
  feat_ids ← lift (arr ← attr_get (ra in_loom) feat_attr;
                   index_array arr row_idx);
  let feat_ids :=
    if remove_version then remove_gene_version feat_ids else feat_ids in
  feat_idx ← lift (feat_idx_of feat_ids out_ids);
  views ← lift (scan in_loom col_idx layers batch_size);
  add_batches in_loom layer cell_attr label row_idx feat_ids out_ids
    feat_idx append views.

Fixpoint low_mem_targets (remove_version : bool) (batch_size : nat)
    (cfgs : list target_cfg) : M unit :=
  match cfgs with
  | [] => mret tt
  | t :: rest =>
      _ ← low_mem_add_data (t_loom t) (t_layer t) (t_feat t) (t_cell t)
            (t_label t) (t_valid_ra t) (t_valid_ca t) remove_version
            batch_size false;
      low_mem_targets remove_version batch_size rest
  end.

Definition low_mem_integrate (a : args) : M unit :=
  cfgs ← lift (check_inputs a);
  _ ← low_mem_add_data (loom_source a) (layer_source a) (feat_source a)
        (cell_source a) (PScalar (label_source a))
        (PScalar (valid_ra_source a)) (PScalar (valid_ca_source a))
        (remove_version a) (batch_size a) true;
  low_mem_targets (remove_version a) (batch_size a) cfgs.

(** ** The dispatcher *)

Definition integrate_data (a : args) : M unit :=
  if low_mem a then low_mem_integrate a
  else fun w =>
    match high_mem_integrate a with
    | Ok st => ({| out_loom := Some st; calls := calls w |}, Ok tt)
    | Err e => (w, Err e)
    end.

(** A run starts with no output file and no call made. *)
Definition fresh : world := {| out_loom := None; calls := [] |}.

(** ** Reading the output *)

(** The entry of a matrix at a feature and a sample. *)
Definition matrix_at (m : list (list cell)) (r c : nat) : option cell :=
  row ← m !! r; row !! c.

(** ** Concrete files used in the examples *)

Definition matrix_of (m : list (list Z)) : nat -> nat -> Z :=
  fun r c => nth c (nth r m []) 0%Z.

Definition example_loom (p : string) (feats cells : list string)
    (m : list (list Z)) : loom :=
  {| path := p;
     shape := (length feats, length cells);
     ra := {["Accession" := map Str feats]};
     ca := {["CellID" := map Str cells]};
     layers := {["" := matrix_of m]} |}.

(** Three features, two samples. *)
Definition ex_source : loom :=
  example_loom "source.loom" ["A"; "B"; "C"] ["s1"; "s2"]
    [[1; 0]; [0; 2]; [3; 4]]%Z.

(** A target with two of the source's features, in another order. *)
Definition ex_target_CA : loom :=
  example_loom "target.loom" ["C"; "A"] ["t1"; "t2"] [[5; 0]; [0; 7]]%Z.

(** A target with the source's features, in another order. *)
Definition ex_target_CAB : loom :=
  example_loom "target.loom" ["C"; "A"; "B"] ["t1"; "t2"]
    [[5; 0]; [0; 7]; [0; 6]]%Z.

(** A target with a feature the source lacks. *)
Definition ex_target_ABCD : loom :=
  example_loom "target.loom" ["A"; "B"; "C"; "D"] ["t1"; "t2"]
    [[0; 7]; [0; 6]; [5; 0]; [9; 0]]%Z.

(** Targets with two features the source lacks, in either order. *)
Definition ex_target_ADE : loom :=
  example_loom "target.loom" ["A"; "D"; "E"] ["t1"] [[1]; [2]; [3]]%Z.

Definition ex_target_AED : loom :=
  example_loom "target.loom" ["A"; "E"; "D"] ["t1"] [[1]; [3]; [2]]%Z.

Definition example_args (src : loom) (tgt : targets) (layer_tgt : param)
    (label_src : pyname) (label_tgt : param) (low : bool) (batch : nat)
  : args :=
  {| loom_source := src;
     loom_target := tgt;
     layer_source := Some "";
     layer_target := layer_tgt;
     feat_source := Some "Accession";
     feat_target := PScalar (Some "Accession");
     cell_source := Some "CellID";
     cell_target := PScalar (Some "CellID");
     label_source := label_src;
     label_target := label_tgt;
     valid_ra_source := None;
     valid_ra_target := PScalar None;
     valid_ca_source := None;
     valid_ca_target := PScalar None;
     remove_version := false;
     low_mem := low;
     batch_size := batch |}.

(** One target, both labels given. *)
Definition labelled_args (src tgt : loom) (low : bool) (batch : nat) : args :=
  example_args src (TOne tgt) (PScalar (Some ""))
    (Some "rna") (PScalar (Some "atac")) low batch.

(** One target, only the source's label given. *)
Definition source_label_args (src tgt : loom) : args :=
  example_args src (TOne tgt) (PScalar (Some ""))
    (Some "rna") (PScalar None) false 1.

(** The output column at which the samples of the [k]-th table start. *)
Definition sample_offset (frames : list frame) (k : nat) : nat :=
  length (flat_map f_index (take k frames)).

(** A table has one row of values per row label. *)
Definition frame_rows_ok (f : frame) : Prop :=
  length (f_values f) = length (f_index f).

(** The value of a successful outcome, [d] otherwise. *)
Definition result_get {A} (d : A) (r : result A) : A :=
  match r with Ok a => a | Err _ => d end.

Definition no_tables : collected :=
  {| imputed_dat := []; type_dat := None; file_dat := [] |}.

Definition no_store : store :=
  {| st_shape := (0, 0); st_matrix := []; st_ra := ∅; st_ca := ∅ |}.

Definition no_frame : frame :=
  {| f_index := []; f_columns := []; f_values := [] |}.

(** The full-memory merge of [ex_source] and [ex_target_CA], both
    labelled. *)
Definition ex_args_CA : args := labelled_args ex_source ex_target_CA false 1.
Definition ex_tables_CA : collected :=
  result_get no_tables (high_mem_collect ex_args_CA).
Definition ex_store_CA : store :=
  result_get no_store (high_mem_integrate ex_args_CA).

(** ** Parameter shapes, in the words of the specification *)

(** A per-target parameter is a scalar, or a list of exactly the length
    of the target list. *)
Definition shape_ok (n : nat) (p : param) : bool :=
  match p with
  | PScalar _ => true
  | PList l => length l =? n
  end.

(** A list of exactly the length of the target list. *)
Definition list_shape_ok (n : nat) (p : param) : bool :=
  match p with
  | PScalar _ => false
  | PList l => length l =? n
  end.

(** The value a per-target parameter has for the [i]-th target: a scalar
    is broadcast, a list is read at [i]. *)
Definition pick (p : param) (i : nat) : option pyname :=
  match p with
  | PScalar v => Some v
  | PList l => l !! i
  end.

(** The shapes the code accepts when the targets are a list of [n]
    files. *)
Definition shapes_accepted (a : args) (n : nat) : bool :=
  list_shape_ok n (layer_target a) &&
  shape_ok n (feat_target a) && shape_ok n (cell_target a) &&
  shape_ok n (valid_ra_target a) && shape_ok n (valid_ca_target a) &&
  shape_ok n (label_target a).

(** Two targets, every per-target parameter a scalar. *)
Definition ex_args_scalar_layer : args :=
  example_args ex_source (TMany [ex_target_CAB; ex_target_CAB])
    (PScalar (Some "")) None (PScalar None) true 1.

(** Two targets, the layers given as a list, the rest as scalars. *)
Definition ex_args_two_targets : args :=
  example_args ex_source (TMany [ex_target_CAB; ex_target_CAB])
    (PList [Some ""; Some ""]) (Some "rna") (PScalar (Some "atac")) true 1.

(** ** Blocks as the streaming engine meets them *)

(** A block as [sparse] builds it: parallel arrays of one length,
    coordinates inside the declared shape, no stored zero. *)
Definition coo_wf (m : coo) : Prop :=
  length (coo_row m) = length (coo_data m) /\
  length (coo_col m) = length (coo_data m) /\
  Forall (fun r => r < (coo_shape m).1) (coo_row m) /\
  Forall (fun c => c < (coo_shape m).2) (coo_col m) /\
  Forall (fun v => v ≠ 0%Z) (coo_data m).

(** Building the dictionary from the identifiers and applying it to a
    block, as one appending pass of the loop does. *)
Definition align_and_reorder (feat_ids out_ids : list scalar) (dat : coo)
  : result coo :=
  feat_idx ← feat_idx_of feat_ids out_ids;
  reorder feat_idx dat.

(** The rewriting of a triple through a dictionary. *)
Definition remap_triple (feat_idx : gmap nat nat) (t : nat * nat * Z)
  : nat * nat * Z :=
  (default t.1.1 (feat_idx !! t.1.1), t.1.2, t.2).

(** The block of [ex_target_CA]: C holds 5 at the first sample, A holds 7
    at the second. *)
Definition ex_block_CA : coo :=
  sparse (matrix_of [[5; 0]; [0; 7]]%Z) [0; 1] [0; 1].

(** The streaming merge of [ex_source] and [ex_target_ABCD]. *)
Definition ex_args_ABCD : args := labelled_args ex_source ex_target_ABCD true 1.

(** The block of [ex_target_CAB]. *)
Definition ex_block_CAB : coo :=
  sparse (matrix_of [[5; 0]; [0; 7]; [0; 6]]%Z) [0; 1; 2] [0; 1].

(** The state after the streaming engine has written [ex_source]. *)
Definition ex_world_source : world :=
  (low_mem_add_data ex_source (Some "") (Some "Accession") (Some "CellID")
     (PScalar (Some "rna")) (PScalar None) (PScalar None) false 1 true
     fresh).1.

(** ** The calls of the writer *)




(** There is at least one target. *)
Definition has_target (a : args) : Prop :=
  match loom_target a with
  | TOne _ => True
  | TMany ds => ds <> []
  end.

(** ** The canonical identifiers, in the words of the claim *)



(** A source whose features are named by the attribute Gene, in another
    order than Accession. *)
Definition ex_source_gene : loom :=
  {| path := "source.loom";
     shape := (3, 2);
     ra := <["Gene" := [Str "C"; Str "A"; Str "B"]]>
             {["Accession" := [Str "A"; Str "B"; Str "C"]]};
     ca := {["CellID" := [Str "s1"; Str "s2"]]};
     layers := {["" := matrix_of [[5; 5]; [7; 7]; [6; 6]]%Z]} |}.

(** ** The datasets of a merge, in the words of the claims *)

(** The source, given like a target. *)
Definition source_cfg (a : args) : target_cfg :=
  {| t_loom := loom_source a;
     t_layer := layer_source a;
     t_feat := feat_source a;
     t_cell := cell_source a;
     t_label := PScalar (label_source a);
     t_valid_ra := PScalar (valid_ra_source a);
     t_valid_ca := PScalar (valid_ca_source a) |}.

(** The validity-selected, version-stripped feature identifiers of a
    dataset. *)
Definition feature_ids (rv : bool) (t : target_cfg) : result (list scalar) :=
  row_idx ← valid_index (t_loom t) (t_valid_ra t) false;
  feats ← attr_get (ra (t_loom t)) (t_feat t);
  ids ← index_array feats row_idx;
  Ok (if rv then remove_gene_version ids else ids).

(** The canonical order: the feature identifiers of the source alone. *)
Definition canonical_order (a : args) : result (list scalar) :=
  feature_ids (remove_version a) (source_cfg a).

(** The output file, if any, carries [ids] as its row attribute. *)
Definition rows_are (ids : list scalar) (w : world) : Prop :=
  forall st, out_loom w = Some st -> st_ra st = {["Accession" := ids]}.

(** Full-memory merges of [ex_source] with a target that has two
    features of its own, in either local order. *)
Definition ex_args_ADE : args := labelled_args ex_source ex_target_ADE false 1.
Definition ex_args_AED : args := labelled_args ex_source ex_target_AED false 1.

(** ** The column attributes, in the words of the claim *)

(** The validity-selected columns of a dataset. *)
Definition column_index (t : target_cfg) : result (list nat) :=
  valid_index (t_loom t) (t_valid_ca t) true.

(** The sample identifiers of a dataset at its selected columns. *)
Definition dataset_cells (t : target_cfg) : result (list scalar) :=
  col_idx ← column_index t;
  cells ← attr_get (ca (t_loom t)) (t_cell t);
  index_array cells col_idx.

(** The arrays one block of [n] samples adds under each attribute name:
    the samples' identifiers, the path of their file, and their label;
    the streaming engine adds no label where none is given. *)
Definition batch_attr (low : bool) (p : string) (label : param) (n : nat)
    (cells : list scalar) (name : string) : list scalar :=
  if decide (name = "Modality") then
    if low && is_none label then [] else np_repeat label n
  else if decide (name = "OriginalFile") then replicate n (Str p)
  else if decide (name = "CellID") then cells
  else [].

(** The array a whole dataset adds under an attribute name. *)
Definition dataset_attr (low : bool) (t : target_cfg) (name : string)
  : list scalar :=
  match column_index t with
  | Ok col_idx =>
      batch_attr low (path (t_loom t)) (t_label t) (length col_idx)
        (result_get [] (dataset_cells t)) name
  | Err _ => []
  end.

(** A column attribute array of the output, empty when absent. *)
Definition column_attr (st : store) (name : string) : list scalar :=
  default [] (st_ca st !! name).

Definition world_ca (w : world) (name : string) : list scalar :=
  match out_loom w with
  | Some st => column_attr st name
  | None => []
  end.

(** A target whose samples carry the identifiers of the source's. *)
Definition ex_target_same_cells : loom :=
  example_loom "target.loom" ["C"; "A"; "B"] ["s1"; "s2"]
    [[5; 0]; [0; 7]; [0; 6]]%Z.

Definition ex_args_same_cells : args :=
  labelled_args ex_source ex_target_same_cells true 1.

(** What the single target of [ex_args_same_cells] is given. *)
Definition ex_cfg_same_cells : target_cfg :=
  {| t_loom := ex_target_same_cells;
     t_layer := Some "";
     t_feat := Some "Accession";
     t_cell := Some "CellID";
     t_label := PScalar (Some "atac");
     t_valid_ra := PScalar None;
     t_valid_ca := PScalar None |}.

Definition ex_store_same_cells : store :=
  default no_store (out_loom (integrate_data ex_args_same_cells fresh).1).

(** ** The output matrix, sample by sample *)

(** What a call reads from a dataset: the selected rows and columns,
    the layer, the feature identifiers (version stripped when asked) and
    the sample identifiers. *)
Record reads := {
  r_row_idx : list nat;
  r_col_idx : list nat;
  r_values : nat -> nat -> Z;
  r_ids : list scalar;
  r_cells : list scalar
}.

Definition read_dataset (rv : bool) (t : target_cfg) : result reads :=
  row_idx ← valid_index (t_loom t) (t_valid_ra t) false;
  col_idx ← valid_index (t_loom t) (t_valid_ca t) true;
  values ← layer_get (t_loom t) (t_layer t);
  feats ← attr_get (ra (t_loom t)) (t_feat t);
  index ← index_array feats row_idx;
  cells ← attr_get (ca (t_loom t)) (t_cell t);
  columns ← index_array cells col_idx;
  Ok {| r_row_idx := row_idx; r_col_idx := col_idx; r_values := values;
        r_ids := if rv then remove_gene_version index else index;
        r_cells := columns |}.

(** The values of one sample (file column [c]) under the canonical
    features: each canonical identifier is looked up among the dataset's
    own, and the value of the row found is taken. *)
Definition sample_column (values : nat -> nat -> Z) (row_idx : list nat)
    (ids canon : list scalar) (c : nat) : list cell :=
  map (fun x => match positions_of x ids with
                | i :: _ => match row_idx !! i with
                            | Some r => Val (values r c)
                            | None => NaN
                            end
                | [] => NaN
                end) canon.

(** The samples of a dataset, in the order of its selected columns. *)
Definition dataset_columns (canon : list scalar) (rd : reads)
  : list (list cell) :=
  map (sample_column (r_values rd) (r_row_idx rd) (r_ids rd) canon)
      (r_col_idx rd).

(** The output file holds the samples [columns] under [n] features named
    [canon]. *)
Definition store_holds (canon : list scalar) (columns : list (list cell))
    (w : world) : Prop :=
  exists st,
    out_loom w = Some st /\
    st_shape st = (length canon, length columns) /\
    st_matrix st = transpose_values (length canon) columns /\
    st_ra st !! "Accession" = Some canon.

(** The layer of a view, as [view_layer] gives it. *)
Definition view_values (values : nat -> nat -> Z) (cols : list nat)
  : nat -> nat -> Z :=
  fun r j => match cols !! j with
             | Some c => values r c
             | None => 0%Z
             end.

(** The table the full-memory engine builds from what it reads of a
    dataset: samples by features. *)
Definition frame_of_reads (rd : reads) : frame :=
  frame_T {| f_index := r_ids rd;
             f_columns := r_cells rd;
             f_values :=
               map (map Val)
                 (todense (sparse (r_values rd) (r_row_idx rd)
                             (r_col_idx rd))) |}.

(** ** A merge on which both engines complete *)

(** The merge of [ex_source] and [ex_target_CAB], both labelled. *)
Definition ex_args_CAB : args := labelled_args ex_source ex_target_CAB false 1.

(** What the single target of [ex_args_CAB] is given. *)
Definition ex_cfg_CAB : target_cfg :=
  {| t_loom := ex_target_CAB;
     t_layer := Some "";
     t_feat := Some "Accession";
     t_cell := Some "CellID";
     t_label := PScalar (Some "atac");
     t_valid_ra := PScalar None;
     t_valid_ca := PScalar None |}.

Definition ex_store_CAB : store :=
  result_get no_store (high_mem_integrate ex_args_CAB).

(** The output column at which the samples of the [k]-th dataset
    start. *)
Definition column_offset (rds : list reads) (k : nat) : nat :=
  length (flat_map r_col_idx (take k rds)).

(** The same merge with another batch size. *)
Definition set_batch_size (a : args) (bs : nat) : args :=
  {| loom_source := loom_source a;
     loom_target := loom_target a;
     layer_source := layer_source a;
     layer_target := layer_target a;
     feat_source := feat_source a;
     feat_target := feat_target a;
     cell_source := cell_source a;
     cell_target := cell_target a;
     label_source := label_source a;
     label_target := label_target a;
     valid_ra_source := valid_ra_source a;
     valid_ra_target := valid_ra_target a;
     valid_ca_source := valid_ca_source a;
     valid_ca_target := valid_ca_target a;
     remove_version := remove_version a;
     low_mem := low_mem a;
     batch_size := bs |}.

Definition no_reads : reads :=
  {| r_row_idx := []; r_col_idx := []; r_values := fun _ _ => 0%Z;
     r_ids := []; r_cells := [] |}.

(** What the engines read of the datasets of [ex_args_CAB]. *)
Definition ex_reads_source : reads :=
  result_get no_reads (read_dataset false (source_cfg ex_args_CAB)).
Definition ex_reads_CAB : reads :=
  result_get no_reads (read_dataset false ex_cfg_CAB).

(** The arguments of one call of [high_mem_get_data], bundled. *)
Definition cfg_of (d : loom) (layer feat_attr cell_attr : pyname)
    (valid_ra valid_ca : param) : target_cfg :=
  {| t_loom := d; t_layer := layer; t_feat := feat_attr;
     t_cell := cell_attr; t_label := PScalar None;
     t_valid_ra := valid_ra; t_valid_ca := valid_ca |}.

Definition ex_frame_CAB : frame :=
  result_get no_frame
    (high_mem_get_data ex_target_CAB (Some "") (Some "Accession")
       (Some "CellID") (PScalar None) (PScalar None) false).

(** What the single target of [ex_args_CA] is given. *)
Definition ex_cfg_CA : target_cfg :=
  {| t_loom := ex_target_CA;
     t_layer := Some "";
     t_feat := Some "Accession";
     t_cell := Some "CellID";
     t_label := PScalar (Some "atac");
     t_valid_ra := PScalar None;
     t_valid_ca := PScalar None |}.

(** ** The shape of what is written *)

(** A block and its column attributes fit: one sample identifier and one
    file name per column of the block. *)
Definition block_ok (dat : coo) (col_attrs : gmap string (list scalar))
  : Prop :=
  length (default [] (col_attrs !! "CellID")) = (coo_shape dat).2 /\
  length (default [] (col_attrs !! "OriginalFile")) = (coo_shape dat).2.

Definition call_ok (c : write_call) : Prop :=
  block_ok (w_layer c) (w_col_attrs c).

(** A file is rectangular, and names every column. *)
Definition store_consistent (st : store) : Prop :=
  length (st_matrix st) = (st_shape st).1 /\
  Forall (fun row => length row = (st_shape st).2) (st_matrix st) /\
  length (column_attr st "CellID") = (st_shape st).2 /\
  length (column_attr st "OriginalFile") = (st_shape st).2.

Definition world_consistent (w : world) : Prop :=
  forall st, out_loom w = Some st -> store_consistent st.

(** [st] holds everything [st0] holds, where [st0] holds it: the same
    rows, and every row and every column attribute of [st0] continued. *)
Definition extends (st0 st : store) : Prop :=
  st_ra st = st_ra st0 /\
  (st_shape st).1 = (st_shape st0).1 /\
  (st_shape st0).2 <= (st_shape st).2 /\
  Forall2 (fun old new => old `prefix_of` new)
    (st_matrix st0) (st_matrix st) /\
  forall name, column_attr st0 name `prefix_of` column_attr st name.

(** The streaming merge of [ex_source] and [ex_target_ABCD] fails on the
    target; this is the file it leaves. *)
Definition ex_store_ABCD : store :=
  default no_store (out_loom (low_mem_integrate ex_args_ABCD fresh).1).

(** A source in which no sample is selected: it has none. *)
Definition ex_source_no_samples : loom :=
  example_loom "source.loom" ["A"; "B"; "C"] [] [[]; []; []].

Definition ex_args_no_samples : args :=
  labelled_args ex_source_no_samples ex_target_CAB true 1.

(** A target that names two of its features alike. *)
Definition ex_target_AAB : loom :=
  example_loom "target.loom" ["A"; "A"; "B"] ["t1"] [[1]; [2]; [3]]%Z.

Definition ex_args_AAB : args := labelled_args ex_source ex_target_AAB false 1.

Definition ex_cfg_AAB : target_cfg :=
  {| t_loom := ex_target_AAB;
     t_layer := Some "";
     t_feat := Some "Accession";
     t_cell := Some "CellID";
     t_label := PScalar (Some "atac");
     t_valid_ra := PScalar None;
     t_valid_ca := PScalar None |}.

(** * Theorems *)

(** ** The full-memory engine needs both labels *)

Lemma high_mem_add_untyped rv acc d ly f c lb vr vc acc' :
  type_dat acc = None ->
  high_mem_add rv false acc d ly f c lb vr vc = Ok acc' ->
  type_dat acc' = None.
Proof.
  intros Hn. unfold high_mem_add.
  destruct (high_mem_get_data d ly f c vr vc rv); simpl; [|discriminate].
  destruct (high_mem_repeat_label d vc (PScalar (Some (path d)))); simpl;
    [|discriminate].
  intros [= <-]. exact Hn.
Qed.

Lemma high_mem_targets_untyped rv cfgs : forall acc acc',
  type_dat acc = None ->
  high_mem_targets rv false acc cfgs = Ok acc' ->
  type_dat acc' = None.
Proof.
  induction cfgs as [|t rest IH]; simpl; intros acc acc' Hn.
  - intros [= <-]. exact Hn.
  - destruct (high_mem_add rv false acc (t_loom t) (t_layer t) (t_feat t)
                (t_cell t) (t_label t) (t_valid_ra t) (t_valid_ca t))
      as [acc1|] eqn:E; simpl; [|discriminate].
    intros H. eapply IH; [|exact H].
    eapply high_mem_add_untyped; eauto.
Qed.

Lemma high_mem_collect_untyped a acc :
  is_type_of a = false ->
  high_mem_collect a = Ok acc ->
  type_dat acc = None.
Proof.
  unfold high_mem_collect. intros ->.
  destruct (check_inputs a) as [cfgs|]; simpl; [|discriminate].
  destruct (high_mem_add (remove_version a) false _ _ _ _ _ _ _ _)
    as [acc1|] eqn:E; simpl; [|discriminate].
  intros H. eapply high_mem_targets_untyped; [|exact H].
  eapply high_mem_add_untyped; [|exact E]. reflexivity.
Qed.

(** Without both labels the full-memory engine never writes an output:
    [type_dat] is read while unbound. *)
Lemma high_mem_unlabelled_fails a :
  is_type_of a = false ->
  forall st, high_mem_integrate a <> Ok st.
Proof.
  intros Ht st. unfold high_mem_integrate.
  destruct (high_mem_collect a) as [acc|] eqn:E; simpl; [|discriminate].
  rewrite (high_mem_collect_untyped a acc Ht E).
  destruct (concat (imputed_dat acc)); simpl; discriminate.
Qed.

(** C9. With the source label given and the target label left out, the
    full-memory engine stops with [UnboundLocalError] on [type_dat] and
    writes nothing. *)
Theorem C9_source_label_only_raises :
  high_mem_integrate (source_label_args ex_source ex_target_CAB)
  = Err (UnboundLocalError "type_dat").
Proof. vm_compute. reflexivity. Qed.

(** ** Tables gathered by the full-memory engine *)

Lemma rmapM_length {A B} (f : A -> result B) l l' :
  rmapM f l = Ok l' -> length l' = length l.
Proof.
  revert l'. induction l as [|x l IH]; simpl; intros l'.
  - intros [= <-]. reflexivity.
  - destruct (f x); simpl; [|discriminate].
    destruct (rmapM f l) as [ys|]; simpl; [|discriminate].
    intros [= <-]. simpl. f_equal. apply IH. reflexivity.
Qed.

Lemma index_array_length {A} (arr : list A) idx l :
  index_array arr idx = Ok l -> length l = length idx.
Proof. apply rmapM_length. Qed.

Lemma transpose_values_length n values :
  length (transpose_values n values) = n.
Proof. unfold transpose_values. rewrite length_map, length_seq. reflexivity. Qed.

Lemma frame_T_rows_ok f : frame_rows_ok (frame_T f).
Proof. unfold frame_rows_ok, frame_T. simpl. apply transpose_values_length. Qed.

Lemma high_mem_get_data_rows_ok d ly f c vr vc rv fr :
  high_mem_get_data d ly f c vr vc rv = Ok fr -> frame_rows_ok fr.
Proof.
  unfold high_mem_get_data.
  destruct (valid_index d vr false); simpl; [|discriminate].
  destruct (valid_index d vc true); simpl; [|discriminate].
  destruct (layer_get d ly); simpl; [|discriminate].
  destruct (attr_get (ra d) f); simpl; [|discriminate].
  destruct (index_array _ _); simpl; [|discriminate].
  destruct (attr_get (ca d) c); simpl; [|discriminate].
  destruct (index_array _ _); simpl; [|discriminate].
  intros [= <-]. apply frame_T_rows_ok.
Qed.

Lemma high_mem_add_rows_ok rv ty acc d ly f c lb vr vc acc' :
  Forall frame_rows_ok (imputed_dat acc) ->
  high_mem_add rv ty acc d ly f c lb vr vc = Ok acc' ->
  Forall frame_rows_ok (imputed_dat acc').
Proof.
  intros Hacc. unfold high_mem_add.
  destruct (high_mem_get_data d ly f c vr vc rv) as [fr|] eqn:E; simpl;
    [|discriminate].
  destruct (if ty then _ else _); simpl; [|discriminate].
  destruct (high_mem_repeat_label d vc (PScalar (Some (path d)))); simpl;
    [|discriminate].
  intros [= <-]. simpl. apply Forall_app. split; [exact Hacc|].
  constructor; [|constructor]. eapply high_mem_get_data_rows_ok; eauto.
Qed.

Lemma high_mem_targets_rows_ok rv ty cfgs : forall acc acc',
  Forall frame_rows_ok (imputed_dat acc) ->
  high_mem_targets rv ty acc cfgs = Ok acc' ->
  Forall frame_rows_ok (imputed_dat acc').
Proof.
  induction cfgs as [|t rest IH]; simpl; intros acc acc' Hacc.
  - intros [= <-]. exact Hacc.
  - destruct (high_mem_add rv ty acc _ _ _ _ _ _ _) as [acc1|] eqn:E; simpl;
      [|discriminate].
    apply IH. eapply high_mem_add_rows_ok; eauto.
Qed.

Lemma high_mem_collect_rows_ok a acc :
  high_mem_collect a = Ok acc -> Forall frame_rows_ok (imputed_dat acc).
Proof.
  unfold high_mem_collect.
  destruct (check_inputs a); simpl; [|discriminate].
  destruct (high_mem_add _ _ _ _ _ _ _ _ _ _) as [acc1|] eqn:E; simpl;
    [|discriminate].
  apply high_mem_targets_rows_ok.
  eapply high_mem_add_rows_ok; [|exact E]. constructor.
Qed.

(** ** Stacking tables *)

Lemma flat_map_lookup_offset {A B C} (F : A -> list B) (G : A -> list C)
    (l : list A) : forall k x j,
  Forall (fun a => length (G a) = length (F a)) l ->
  l !! k = Some x ->
  j < length (G x) ->
  flat_map G l !! (length (flat_map F (take k l)) + j) = G x !! j.
Proof.
  induction l as [|a l IH]; intros k x j Hall Hk Hj.
  - rewrite lookup_nil in Hk. discriminate.
  - inversion Hall as [|? ? Ha Hl]; subst.
    destruct k as [|k]; simpl in *.
    + injection Hk as ->. rewrite lookup_app_l by lia. reflexivity.
    + rewrite length_app, <- Ha.
      rewrite lookup_app_r by lia.
      replace (length (G a) + length (flat_map F (take k l)) + j - length (G a))
        with (length (flat_map F (take k l)) + j) by lia.
      apply IH; assumption.
Qed.

Lemma positions_of_nil x index : x ∉ index -> positions_of x index = [].
Proof.
  intros Hx. unfold positions_of, enumerate.
  generalize 0. induction index as [|y index IH]; intros n; simpl.
  - reflexivity.
  - rewrite filter_cons. simpl.
    destruct (decide (y = x)) as [->|Hne].
    + exfalso. apply Hx. left.
    + apply IH. intros Hin. apply Hx. right. exact Hin.
Qed.

Lemma reindex_row_absent old_columns new_columns row r x :
  new_columns !! r = Some x ->
  x ∉ old_columns ->
  reindex_row old_columns new_columns row !! r = Some NaN.
Proof.
  intros Hr Hx. unfold reindex_row.
  rewrite list_lookup_fmap, Hr. simpl.
  rewrite positions_of_nil by exact Hx. reflexivity.
Qed.

Lemma forallb_lookup {A} (p : A -> bool) l k x :
  forallb p l = true -> l !! k = Some x -> p x = true.
Proof.
  intros H Hk. rewrite forallb_forall in H. apply H.
  apply list_elem_of_In. eapply list_elem_of_lookup_2; eauto.
Qed.

(** The row of a stacked table that comes from row [j] of the [k]-th
    table is missing under every label the [k]-th table lacks. *)
Lemma concat_row_absent frames table k fk j :
  concat frames = Ok table ->
  Forall frame_rows_ok frames ->
  frames !! k = Some fk ->
  j < length (f_index fk) ->
  exists row,
    f_values table !! (sample_offset frames k + j) = Some row /\
    forall r x, f_columns table !! r = Some x -> x ∉ f_columns fk ->
                row !! r = Some NaN.
Proof.
  intros Hc Hok Hk Hj. unfold concat in Hc.
  destruct frames as [|f0 rest]; [discriminate|].
  destruct (forallb _ rest) eqn:Hsame.
  - injection Hc as <-. cbn [f_values f_columns].
    assert (Hlen : j < length (f_values fk)).
    { rewrite Forall_forall in Hok. rewrite (Hok fk); [exact Hj|].
      eapply list_elem_of_lookup_2; eauto. }
    destruct (lookup_lt_is_Some_2 (f_values fk) j Hlen) as [row Hrow].
    exists row. split.
    + unfold sample_offset. rewrite <- Hrow.
      apply (flat_map_lookup_offset f_index f_values (f0 :: rest) k fk j);
        auto.
    + intros r x Hr Hx. exfalso. apply Hx.
      destruct k as [|k]; simpl in Hk.
      * injection Hk as <-. eapply list_elem_of_lookup_2; eauto.
      * pose proof (forallb_lookup _ _ _ _ Hsame Hk) as Heq.
        apply bool_decide_eq_true in Heq. rewrite Heq.
        eapply list_elem_of_lookup_2; eauto.
  - destruct (existsb _ (f0 :: rest)); [discriminate|].
    injection Hc as <-. cbn [f_values f_columns].
    set (columns := unique_from [] (flat_map f_columns (f0 :: rest))).
    set (G := fun f => map (reindex_row (f_columns f) columns) (f_values f)).
    assert (HG : Forall (fun a => length (G a) = length (f_index a))
                   (f0 :: rest)).
    { eapply Forall_impl; [exact Hok|]. intros f Hf. unfold G.
      rewrite length_map. exact Hf. }
    assert (Hlen : j < length (G fk)).
    { rewrite Forall_forall in HG. rewrite (HG fk); [exact Hj|].
      eapply list_elem_of_lookup_2; eauto. }
    destruct (lookup_lt_is_Some_2 (G fk) j Hlen) as [row Hrow].
    exists row. split.
    + unfold sample_offset. rewrite <- Hrow.
      apply (flat_map_lookup_offset f_index G (f0 :: rest) k fk j); auto.
    + intros r x Hr Hx. unfold G in Hrow.
      rewrite list_lookup_fmap in Hrow.
      destruct (f_values fk !! j) as [orig|]; [|discriminate].
      injection Hrow as <-. apply (reindex_row_absent _ _ _ r x); assumption.
Qed.

Lemma transpose_values_at n values r c row :
  r < n ->
  values !! c = Some row ->
  matrix_at (transpose_values n values) r c = Some (default NaN (row !! r)).
Proof.
  intros Hr Hc. unfold matrix_at, transpose_values.
  rewrite list_lookup_fmap, lookup_seq_lt by exact Hr. simpl.
  rewrite list_lookup_fmap, Hc. reflexivity.
Qed.

(** C1 (as amended). In the output of the full-memory engine, the entry
    of a feature at a sample whose dataset lacks that feature is the
    missing value [NaN]. *)
Theorem C1_absent_feature_is_NaN a acc st k fk j r ids x :
  high_mem_collect a = Ok acc ->
  high_mem_integrate a = Ok st ->
  imputed_dat acc !! k = Some fk ->
  j < length (f_index fk) ->
  st_ra st !! "Accession" = Some ids ->
  ids !! r = Some x ->
  x ∉ f_columns fk ->
  matrix_at (st_matrix st) r (sample_offset (imputed_dat acc) k + j)
  = Some NaN.
Proof.
  intros Hcol Hint Hk Hj Hids Hr Hx.
  unfold high_mem_integrate in Hint. rewrite Hcol in Hint. simpl in Hint.
  destruct (concat (imputed_dat acc)) as [table|] eqn:Hc; simpl in Hint;
    [|discriminate].
  destruct (type_dat acc); simpl in Hint; [|discriminate].
  injection Hint as <-. simpl in *.
  rewrite lookup_singleton_eq in Hids. injection Hids as <-.
  destruct (concat_row_absent _ _ _ _ _ Hc
              (high_mem_collect_rows_ok _ _ Hcol) Hk Hj)
    as (row & Hrow & Habs).
  rewrite (transpose_values_at _ _ _ _ row); auto.
  - rewrite (Habs r x Hr Hx). reflexivity.
  - eapply lookup_lt_Some; eauto.
Qed.

Lemma C1_absent_feature_is_NaN_witness :
  matrix_at (st_matrix ex_store_CA) 1
    (sample_offset (imputed_dat ex_tables_CA) 1 + 0) = Some NaN.
Proof.
  apply (C1_absent_feature_is_NaN ex_args_CA ex_tables_CA ex_store_CA 1
           (default no_frame (imputed_dat ex_tables_CA !! 1)) 0 1
           [Str "A"; Str "B"; Str "C"] (Str "B")).
  - vm_compute. reflexivity.
  - vm_compute. reflexivity.
  - vm_compute. reflexivity.
  - vm_compute. lia.
  - vm_compute. reflexivity.
  - reflexivity.
  - intros H. apply list_elem_of_In in H. vm_compute in H.
    destruct H as [H|[H|[]]]; discriminate H.
Defined.

(** C1 fails as stated: feature B is absent from the target, and the
    entries of B at the target's samples are [NaN], not zero. *)
Lemma C1_counterexample :
  exists st,
    high_mem_integrate ex_args_CA = Ok st /\
    st_ra st !! "Accession" = Some [Str "A"; Str "B"; Str "C"] /\
    ra ex_target_CA !! "Accession" = Some [Str "C"; Str "A"] /\
    matrix_at (st_matrix st) 1 2 = Some NaN /\
    matrix_at (st_matrix st) 1 3 = Some NaN /\
    NaN <> Val 0.
Proof.
  exists ex_store_CA.
  repeat split; try (vm_compute; reflexivity). discriminate.
Qed.

(** ** Checking the shapes of the per-target parameters *)

Lemma mimic_one_ok n p :
  shape_ok n p = true ->
  exists l, mimic_one n p = Ok l /\ length l = n /\
            forall i, i < n -> l !! i = pick p i.
Proof.
  destruct p as [v|l]; simpl; intros H.
  - exists (replicate n v). split; [reflexivity|]. split.
    + apply length_replicate.
    + intros i Hi. apply lookup_replicate_2. exact Hi.
  - rewrite H. exists l. split; [reflexivity|]. split.
    + apply Nat.eqb_eq. exact H.
    + reflexivity.
Qed.

Lemma mimic_one_err n p :
  shape_ok n p = false -> mimic_one n p = Err ParameterShapeError.
Proof.
  destruct p as [v|l]; simpl; intros H; [discriminate|].
  rewrite H. reflexivity.
Qed.

Lemma mimic_one_cases n p :
  (exists l, mimic_one n p = Ok l) \/ mimic_one n p = Err ParameterShapeError.
Proof.
  destruct p as [v|l]; simpl; [left; eauto|].
  destruct (length l =? n); [left; eauto|right; reflexivity].
Qed.

Lemma mimic_list_err n ps :
  forallb (shape_ok n) ps = false ->
  mimic_list ps n = Err ParameterShapeError.
Proof.
  unfold mimic_list. induction ps as [|p ps IH]; simpl; [discriminate|].
  destruct (shape_ok n p) eqn:Hp; simpl; intros H.
  - destruct (mimic_one_ok n p Hp) as (l & -> & _). simpl.
    rewrite (IH H). reflexivity.
  - rewrite (mimic_one_err n p Hp). reflexivity.
Qed.

Lemma rmapM_seq_ok {B} (f : nat -> result B) n : forall s,
  (forall i, i < n -> exists y, f (s + i) = Ok y) ->
  exists l, rmapM f (seq s n) = Ok l /\ length l = n /\
            forall i y, l !! i = Some y -> f (s + i) = Ok y.
Proof.
  induction n as [|n IH]; intros s H; simpl.
  - exists []. split; [reflexivity|]. split; [reflexivity|].
    intros i y Hi. rewrite lookup_nil in Hi. discriminate.
  - destruct (H 0 ltac:(lia)) as [y0 Hy0]. rewrite Nat.add_0_r in Hy0.
    rewrite Hy0. simpl.
    destruct (IH (S s)) as (l & Hl & Hlen & Hat).
    { intros i Hi. destruct (H (S i) ltac:(lia)) as [y Hy].
      exists y. rewrite <- Hy. f_equal. lia. }
    rewrite Hl. simpl. exists (y0 :: l). split; [reflexivity|].
    split; [simpl; lia|].
    intros [|i] y; simpl.
    + intros [= <-]. rewrite Nat.add_0_r. exact Hy0.
    + intros Hi. rewrite <- (Hat i y Hi). f_equal. lia.
Qed.

Lemma item_lookup {A} (l : list A) i x : l !! i = Some x -> item l i = Ok x.
Proof. unfold item. intros ->. reflexivity. Qed.

Lemma item_ok {A} (l : list A) i x : item l i = Ok x -> l !! i = Some x.
Proof. unfold item. destruct (l !! i); [intros [= ->]; reflexivity|discriminate]. Qed.

Lemma shapes_rejected a ds :
  loom_target a = TMany ds ->
  shapes_accepted a (length ds) = false ->
  check_inputs a = Err ParameterShapeError.
Proof.
  intros Ht Hbad. unfold check_inputs. rewrite Ht.
  unfold shapes_accepted in Hbad. unfold all_same_type_size. simpl.
  destruct (layer_target a) as [v|l] eqn:Hl; simpl in *; [reflexivity|].
  rewrite length_map, andb_true_r.
  destruct (length ds =? length l) eqn:Hn; simpl; [|reflexivity].
  apply Nat.eqb_eq in Hn.
  rewrite (proj2 (Nat.eqb_eq (length l) (length ds)) (eq_sym Hn)) in Hbad.
  simpl in Hbad. rewrite mimic_list_err; [reflexivity|].
  simpl. rewrite andb_true_r, !andb_assoc. exact Hbad.
Qed.

Lemma shapes_accepted_ok a ds :
  loom_target a = TMany ds ->
  shapes_accepted a (length ds) = true ->
  exists cfgs,
    check_inputs a = Ok cfgs /\ length cfgs = length ds /\
    forall i t, cfgs !! i = Some t ->
      ds !! i = Some (t_loom t) /\
      pick (layer_target a) i = Some (t_layer t) /\
      pick (feat_target a) i = Some (t_feat t) /\
      pick (cell_target a) i = Some (t_cell t) /\
      PScalar <$> pick (valid_ra_target a) i = Some (t_valid_ra t) /\
      PScalar <$> pick (valid_ca_target a) i = Some (t_valid_ca t) /\
      PScalar <$> pick (label_target a) i = Some (t_label t).
Proof.
  intros Ht Hok. unfold shapes_accepted in Hok.
  repeat (apply andb_prop in Hok; destruct Hok as [Hok ?]).
  destruct (layer_target a) as [v|ly] eqn:Hly; simpl in Hok; [discriminate|].
  apply Nat.eqb_eq in Hok.
  destruct (mimic_one_ok _ _ H3) as (feat & Hfeat & Lfeat & Pfeat).
  destruct (mimic_one_ok _ _ H2) as (cell & Hcell & Lcell & Pcell).
  destruct (mimic_one_ok _ _ H1) as (vra & Hvra & Lvra & Pvra).
  destruct (mimic_one_ok _ _ H0) as (vca & Hvca & Lvca & Pvca).
  destruct (mimic_one_ok _ _ H) as (lab & Hlab & Llab & Plab).
  set (f := fun i : nat =>
      d ← item ds i;
      ly0 ← item ly i;
      f0 ← item feat i;
      c ← item cell i;
      lb ← item lab i;
      vr ← item vra i;
      vc ← item vca i;
      Ok {| t_loom := d; t_layer := ly0; t_feat := f0; t_cell := c;
            t_label := PScalar lb; t_valid_ra := PScalar vr;
            t_valid_ca := PScalar vc |}).
  destruct (rmapM_seq_ok f (length ds) 0) as (cfgs & Hcfgs & Hlen & Hat).
  { intros i Hi. unfold f. simpl.
    destruct (lookup_lt_is_Some_2 ds i ltac:(lia)) as [d Hd].
    destruct (lookup_lt_is_Some_2 ly i ltac:(lia)) as [x1 Hx1].
    destruct (lookup_lt_is_Some_2 feat i ltac:(lia)) as [x2 Hx2].
    destruct (lookup_lt_is_Some_2 cell i ltac:(lia)) as [x3 Hx3].
    destruct (lookup_lt_is_Some_2 lab i ltac:(lia)) as [x4 Hx4].
    destruct (lookup_lt_is_Some_2 vra i ltac:(lia)) as [x5 Hx5].
    destruct (lookup_lt_is_Some_2 vca i ltac:(lia)) as [x6 Hx6].
    rewrite (item_lookup _ _ _ Hd), (item_lookup _ _ _ Hx1),
      (item_lookup _ _ _ Hx2), (item_lookup _ _ _ Hx3),
      (item_lookup _ _ _ Hx4), (item_lookup _ _ _ Hx5),
      (item_lookup _ _ _ Hx6). simpl. eauto. }
  exists cfgs. split; [|split; [exact Hlen|]].
  - unfold check_inputs. rewrite Ht, Hly. unfold all_same_type_size. simpl.
    rewrite length_map, Hok, Nat.eqb_refl. simpl.
    unfold mimic_list. simpl.
    rewrite Hfeat, Hcell, Hvra, Hvca, Hlab. simpl. exact Hcfgs.
  - intros i t Hi. pose proof (Hat i t Hi) as Hf.
    assert (Hlt : i < length ds).
    { rewrite <- Hlen. eapply lookup_lt_Some; eauto. }
    unfold f in Hf. simpl in Hf.
    destruct (item ds i) as [d|] eqn:E0; simpl in Hf; [|discriminate].
    destruct (item ly i) as [x1|] eqn:E1; simpl in Hf; [|discriminate].
    destruct (item feat i) as [x2|] eqn:E2; simpl in Hf; [|discriminate].
    destruct (item cell i) as [x3|] eqn:E3; simpl in Hf; [|discriminate].
    destruct (item lab i) as [x4|] eqn:E4; simpl in Hf; [|discriminate].
    destruct (item vra i) as [x5|] eqn:E5; simpl in Hf; [|discriminate].
    destruct (item vca i) as [x6|] eqn:E6; simpl in Hf; [|discriminate].
    injection Hf as <-. simpl.
    apply item_ok in E0, E1, E2, E3, E4, E5, E6.
    rewrite <- Pfeat, <- Pcell, <- Pvra, <- Pvca, <- Plab by lia.
    rewrite E2, E3, E4, E5, E6. simpl. repeat split; assumption.
Qed.

(** C7 (as amended). With a list of targets, the layers must be a list of
    the targets' length, and each of feature attribute, cell attribute,
    row and column validity attribute and label is a scalar, broadcast to
    every target, or a list of the targets' length.  Any other shape
    stops both engines with [ParameterShapeError] before a dataset is
    read or the output is written. *)
Theorem C7_parameter_shapes a ds :
  loom_target a = TMany ds ->
  (shapes_accepted a (length ds) = true ->
   exists cfgs,
     check_inputs a = Ok cfgs /\ length cfgs = length ds /\
     forall i t, cfgs !! i = Some t ->
       ds !! i = Some (t_loom t) /\
       pick (layer_target a) i = Some (t_layer t) /\
       pick (feat_target a) i = Some (t_feat t) /\
       pick (cell_target a) i = Some (t_cell t) /\
       PScalar <$> pick (valid_ra_target a) i = Some (t_valid_ra t) /\
       PScalar <$> pick (valid_ca_target a) i = Some (t_valid_ca t) /\
       PScalar <$> pick (label_target a) i = Some (t_label t)) /\
  (shapes_accepted a (length ds) = false ->
   high_mem_integrate a = Err ParameterShapeError /\
   forall w, low_mem_integrate a w = (w, Err ParameterShapeError)).
Proof.
  intros Ht. split.
  - apply shapes_accepted_ok. exact Ht.
  - intros Hbad. pose proof (shapes_rejected a ds Ht Hbad) as Hc. split.
    + unfold high_mem_integrate, high_mem_collect. rewrite Hc. reflexivity.
    + intros w. unfold low_mem_integrate, lift. unfold mbind, M_bind.
      rewrite Hc. reflexivity.
Qed.

Lemma C7_parameter_shapes_witness :
  (shapes_accepted ex_args_two_targets 2 = true ->
   exists cfgs,
     check_inputs ex_args_two_targets = Ok cfgs /\ length cfgs = 2 /\
     forall i t, cfgs !! i = Some t ->
       [ex_target_CAB; ex_target_CAB] !! i = Some (t_loom t) /\
       pick (layer_target ex_args_two_targets) i = Some (t_layer t) /\
       pick (feat_target ex_args_two_targets) i = Some (t_feat t) /\
       pick (cell_target ex_args_two_targets) i = Some (t_cell t) /\
       PScalar <$> pick (valid_ra_target ex_args_two_targets) i
         = Some (t_valid_ra t) /\
       PScalar <$> pick (valid_ca_target ex_args_two_targets) i
         = Some (t_valid_ca t) /\
       PScalar <$> pick (label_target ex_args_two_targets) i
         = Some (t_label t)) /\
  (shapes_accepted ex_args_two_targets 2 = false ->
   high_mem_integrate ex_args_two_targets = Err ParameterShapeError /\
   forall w,
     low_mem_integrate ex_args_two_targets w = (w, Err ParameterShapeError)).
Proof.
  apply (C7_parameter_shapes ex_args_two_targets
           [ex_target_CAB; ex_target_CAB]).
  reflexivity.
Defined.

(** C7 fails as stated: with two targets and a scalar layer, which the
    claim accepts and broadcasts, both engines stop with
    [ParameterShapeError]. *)
Lemma C7_counterexample :
  loom_target ex_args_scalar_layer = TMany [ex_target_CAB; ex_target_CAB] /\
  layer_target ex_args_scalar_layer = PScalar (Some "") /\
  shape_ok 2 (layer_target ex_args_scalar_layer) = true /\
  shape_ok 2 (feat_target ex_args_scalar_layer) = true /\
  shape_ok 2 (cell_target ex_args_scalar_layer) = true /\
  shape_ok 2 (valid_ra_target ex_args_scalar_layer) = true /\
  shape_ok 2 (valid_ca_target ex_args_scalar_layer) = true /\
  shape_ok 2 (label_target ex_args_scalar_layer) = true /\
  check_inputs ex_args_scalar_layer = Err ParameterShapeError /\
  high_mem_integrate ex_args_scalar_layer = Err ParameterShapeError /\
  low_mem_integrate ex_args_scalar_layer fresh
  = (fresh, Err ParameterShapeError).
Proof. repeat split; vm_compute; reflexivity. Qed.

(** ** Looking labels up *)

Lemma positions_from_notin s x l :
  x ∉ l ->
  map fst (filter (fun p : nat * scalar => p.2 = x) (zip (seq s (length l)) l))
  = [].
Proof.
  revert s. induction l as [|y l IH]; intros s Hx; simpl; [reflexivity|].
  rewrite filter_cons. simpl.
  destruct (decide (y = x)) as [->|Hne].
  - exfalso. apply Hx. left.
  - apply IH. intros Hin. apply Hx. right. exact Hin.
Qed.

Lemma positions_from_NoDup s x l i :
  NoDup l -> l !! i = Some x ->
  map fst (filter (fun p : nat * scalar => p.2 = x) (zip (seq s (length l)) l))
  = [s + i].
Proof.
  revert s i. induction l as [|y l IH]; intros s i Hnd Hi.
  - rewrite lookup_nil in Hi. discriminate.
  - apply NoDup_cons in Hnd as [Hy Hnd]. simpl.
    rewrite filter_cons. simpl.
    destruct (decide (y = x)) as [->|Hne].
    + destruct i as [|i]; simpl in Hi.
      * simpl. rewrite positions_from_notin by exact Hy.
        rewrite Nat.add_0_r. reflexivity.
      * exfalso. apply Hy. eapply list_elem_of_lookup_2; eauto.
    + destruct i as [|i]; simpl in Hi; [congruence|].
      rewrite (IH (S s) i Hnd Hi). f_equal. lia.
Qed.

Lemma positions_from_elem s x l j :
  j ∈ map fst (filter (fun p : nat * scalar => p.2 = x)
                 (zip (seq s (length l)) l)) ->
  exists i, j = s + i /\ l !! i = Some x.
Proof.
  revert s. induction l as [|y l IH]; intros s; simpl.
  - intros H. apply elem_of_nil in H. destruct H.
  - rewrite filter_cons. simpl.
    destruct (decide (y = x)) as [->|Hne]; simpl.
    + intros H. apply elem_of_cons in H as [->|H].
      * exists 0. split; [lia|reflexivity].
      * destruct (IH _ H) as (i & -> & Hi). exists (S i).
        split; [lia|exact Hi].
    + intros H. destruct (IH _ H) as (i & -> & Hi). exists (S i).
      split; [lia|exact Hi].
Qed.

Lemma positions_of_NoDup x index i :
  NoDup index -> index !! i = Some x -> positions_of x index = [i].
Proof. apply (positions_from_NoDup 0). Qed.

Lemma positions_of_elem x index j :
  j ∈ positions_of x index -> index !! j = Some x.
Proof.
  intros H. destruct (positions_from_elem 0 x index j H) as (i & -> & Hi).
  exact Hi.
Qed.

Lemma filter_absent_nil (index labels : list scalar) :
  filter (fun x => x ∉ index) labels = [] <-> Forall (fun x => x ∈ index) labels.
Proof.
  induction labels as [|x labels IH]; simpl.
  - split; [constructor|reflexivity].
  - rewrite filter_cons. destruct (decide (x ∉ index)) as [Hx|Hx].
    + split; [discriminate|]. intros H. inversion H; subst. contradiction.
    + rewrite IH. split.
      * intros H. constructor; [|exact H].
        destruct (decide (x ∈ index)); [assumption|contradiction].
      * intros H. inversion H; subst. assumption.
Qed.

Lemma loc_present index labels :
  Forall (fun x => x ∈ index) labels ->
  loc index labels = Ok (flat_map (fun x => positions_of x index) labels).
Proof.
  intros H. unfold loc. apply filter_absent_nil in H. rewrite H. reflexivity.
Qed.

Lemma loc_missing index labels :
  filter (fun x => x ∉ index) labels <> [] ->
  loc index labels = Err (KeyError (filter (fun x => x ∉ index) labels)).
Proof.
  intros H. unfold loc.
  destruct (filter (fun x => x ∉ index) labels); [contradiction|reflexivity].
Qed.

(** With distinct labels in the index, the look-up returns one position
    per requested label. *)
Lemma flat_positions_NoDup index labels :
  NoDup index ->
  Forall (fun x => x ∈ index) labels ->
  Forall2 (fun x i => index !! i = Some x) labels
    (flat_map (fun x => positions_of x index) labels).
Proof.
  intros Hnd. induction 1 as [|x labels Hx _ IH]; simpl; [constructor|].
  apply list_elem_of_lookup_1 in Hx as [i Hi].
  rewrite (positions_of_NoDup x index i Hnd Hi). simpl.
  constructor; assumption.
Qed.

Lemma flat_positions_elem index labels r :
  r ∈ flat_map (fun x => positions_of x index) labels ->
  exists x, x ∈ labels /\ index !! r = Some x.
Proof.
  induction labels as [|y labels IH]; simpl.
  - intros H. apply elem_of_nil in H. destruct H.
  - intros H. apply elem_of_app in H as [H|H].
    + exists y. split; [left|]. apply positions_of_elem. exact H.
    + destruct (IH H) as (x & Hx & Hr). exists x. split; [right|]; assumption.
Qed.

(** ** The dictionary *)

Lemma foldl_insert_notin (keys vals : list nat) : forall (m : gmap nat nat) k,
  k ∉ keys ->
  foldl (fun m p => <[p.1 := p.2]> m) m (zip keys vals) !! k = m !! k.
Proof.
  revert vals. induction keys as [|a keys IH]; intros vals m k Hk; simpl.
  - reflexivity.
  - destruct vals as [|v vals]; simpl; [reflexivity|].
    rewrite IH.
    + apply lookup_insert_ne. intros ->. apply Hk. left.
    + intros Hin. apply Hk. right. exact Hin.
Qed.

Lemma foldl_insert_in (keys vals : list nat) :
  forall (m : gmap nat nat) j k v,
  NoDup keys ->
  keys !! j = Some k -> vals !! j = Some v ->
  foldl (fun m p => <[p.1 := p.2]> m) m (zip keys vals) !! k = Some v.
Proof.
  revert vals. induction keys as [|a keys IH]; intros vals m j k v Hnd Hk Hv.
  - rewrite lookup_nil in Hk. discriminate.
  - apply NoDup_cons in Hnd as [Ha Hnd].
    destruct vals as [|v0 vals]; [rewrite lookup_nil in Hv; discriminate|].
    destruct j as [|j]; simpl in *.
    + injection Hk as ->. injection Hv as ->.
      rewrite foldl_insert_notin by exact Ha. apply lookup_insert_eq.
    + eapply IH; eauto.
Qed.

Lemma to_dict_notin keys vals k : k ∉ keys -> to_dict keys vals !! k = None.
Proof.
  intros Hk. unfold to_dict. rewrite foldl_insert_notin by exact Hk.
  apply lookup_empty.
Qed.

Lemma to_dict_in keys vals j k v :
  NoDup keys -> keys !! j = Some k -> vals !! j = Some v ->
  to_dict keys vals !! k = Some v.
Proof. intros. unfold to_dict. eapply foldl_insert_in; eauto. Qed.

Lemma Forall2_NoDup_positions (index labels : list scalar) old :
  NoDup labels ->
  Forall2 (fun x i => index !! i = Some x) labels old ->
  NoDup old.
Proof.
  intros Hnd HF. apply NoDup_alt. intros i j r Hi Hj.
  destruct (Forall2_lookup_r _ _ _ _ _ HF Hi) as (x & Hx & Hxr).
  destruct (Forall2_lookup_r _ _ _ _ _ HF Hj) as (y & Hy & Hyr).
  assert (x = y) by congruence. subst y.
  eapply NoDup_lookup; eauto.
Qed.

(** A target identifier that is not among the output identifiers gets no
    entry in the dictionary. *)
Lemma feat_idx_of_absent feat_ids out_ids feat_idx r x :
  feat_idx_of feat_ids out_ids = Ok feat_idx ->
  feat_ids !! r = Some x ->
  x ∉ out_ids ->
  feat_idx !! r = None.
Proof.
  unfold feat_idx_of. intros H Hr Hx.
  destruct (loc feat_ids out_ids) as [old|] eqn:Hloc; simpl in H;
    [|discriminate].
  injection H as <-. apply to_dict_notin. intros Hin.
  unfold loc in Hloc.
  destruct (filter _ out_ids); [|discriminate]. injection Hloc as <-.
  apply flat_positions_elem in Hin as (y & Hy & Hry).
  assert (x = y) by congruence. subst y. contradiction.
Qed.

(** With distinct identifiers on both sides and the same identifiers, the
    dictionary sends every local position to the position of its
    identifier among the output identifiers. *)
Lemma feat_idx_of_aligned feat_ids out_ids :
  NoDup feat_ids -> feat_ids ≡ₚ out_ids ->
  exists feat_idx,
    feat_idx_of feat_ids out_ids = Ok feat_idx /\
    forall r x, feat_ids !! r = Some x ->
      exists r', feat_idx !! r = Some r' /\ out_ids !! r' = Some x.
Proof.
  intros Hnd Hperm.
  assert (Hnd' : NoDup out_ids) by (rewrite <- Hperm; exact Hnd).
  assert (Hall : Forall (fun x => x ∈ feat_ids) out_ids).
  { apply Forall_forall. intros x Hx. rewrite Hperm. exact Hx. }
  pose proof (flat_positions_NoDup feat_ids out_ids Hnd Hall) as HF.
  set (old := flat_map (fun x => positions_of x feat_ids) out_ids) in *.
  exists (to_dict old (seq 0 (length old))). split.
  - unfold feat_idx_of. rewrite (loc_present _ _ Hall). reflexivity.
  - intros r x Hr.
    assert (Hx : x ∈ out_ids).
    { rewrite <- Hperm. eapply list_elem_of_lookup_2; eauto. }
    apply list_elem_of_lookup_1 in Hx as [j Hj].
    destruct (Forall2_lookup_l _ _ _ _ _ HF Hj) as (r0 & Hr0 & Hx0).
    assert (r0 = r) by exact (NoDup_lookup feat_ids r0 r x Hnd Hx0 Hr). subst r0.
    exists j. split; [|exact Hj].
    eapply to_dict_in; eauto.
    + eapply Forall2_NoDup_positions; eauto.
    + apply lookup_seq_lt. eapply lookup_lt_Some; eauto.
Qed.

(** ** Rebuilding a block *)

Lemma filter_length_eq {A} (P : A -> Prop) `{!forall x, Decision (P x)}
    (l : list A) :
  length (filter P l) = length l -> filter P l = l.
Proof.
  induction l as [|x l IH]; [reflexivity|].
  rewrite filter_cons. destruct (decide (P x)); simpl; intros Hlen.
  - f_equal. apply IH. lia.
  - pose proof (length_filter P l). lia.
Qed.

Lemma filter_Forall_id {A} (P : A -> Prop) `{!forall x, Decision (P x)}
    (l : list A) :
  Forall P l -> filter P l = l.
Proof.
  induction 1 as [|x l Hx _ IH]; [reflexivity|].
  rewrite filter_cons_True by exact Hx. f_equal. exact IH.
Qed.

Lemma zip3_map {A B C D} (a : A -> B) (b : A -> C) (c : A -> D) (l : list A) :
  zip (zip (map a l) (map b l)) (map c l) = map (fun t => (a t, b t, c t)) l.
Proof. induction l as [|x l IH]; simpl; [reflexivity|]. f_equal. exact IH. Qed.

Lemma existsb_le_false n (l : list nat) :
  Forall (fun r => r < n) l -> existsb (fun r => n <=? r) l = false.
Proof.
  induction 1 as [|x l Hx _ IH]; simpl; [reflexivity|].
  rewrite IH, orb_false_r. apply Nat.leb_gt. exact Hx.
Qed.

Lemma coo_triples_length_data m :
  length (coo_triples m) = length (coo_data m) ->
  map (fun t : nat * nat * Z => t.2) (coo_triples m) = coo_data m.
Proof.
  unfold coo_triples. intros H. apply snd_zip.
  rewrite length_zip in H. lia.
Qed.

(** Whenever the rebuilt block is accepted, its triples are the input's,
    in the same order, with the row sent through the dictionary; the
    declared shape is the input's. *)
Lemma reorder_triples feat_idx dat dat' :
  reorder feat_idx dat = Ok dat' ->
  coo_triples dat' = map (remap_triple feat_idx) (coo_triples dat) /\
  coo_shape dat' = coo_shape dat.
Proof.
  unfold reorder, coo_matrix, nonzero, replace. simpl.
  set (keep := filter (fun t : nat * nat * Z => t.2 ≠ 0%Z) (coo_triples dat)).
  rewrite !length_map.
  destruct (length keep =? length (coo_data dat)) eqn:Hlen; simpl;
    [|discriminate].
  apply Nat.eqb_eq in Hlen.
  destruct (existsb _ _); [discriminate|].
  destruct (existsb _ _); [discriminate|].
  intros [= <-]. unfold coo_triples at 1. simpl.
  assert (Hzip : length (coo_triples dat) <= length (coo_data dat)).
  { unfold coo_triples. rewrite length_zip. lia. }
  pose proof (length_filter (fun t : nat * nat * Z => t.2 ≠ 0%Z)
                (coo_triples dat)) as Hf. fold keep in Hf.
  assert (Hkeep : keep = coo_triples dat).
  { apply filter_length_eq. fold keep. lia. }
  rewrite Hkeep.
  rewrite <- (coo_triples_length_data dat) at 1 by lia.
  rewrite map_map. split.
  - rewrite (zip3_map (fun t : nat * nat * Z =>
                         default t.1.1 (feat_idx !! t.1.1))
               (fun t => t.1.2) (fun t => t.2)).
    reflexivity.
  - destruct (coo_shape dat). reflexivity.
Qed.

Lemma zip3_rows (row col : list nat) (data : list Z) :
  length row = length data -> length col = length data ->
  map (fun t : nat * nat * Z => t.1.1) (zip (zip row col) data) = row.
Proof.
  revert col data. induction row as [|r row IH]; intros [|c col] [|v data];
    simpl; intros H1 H2; try discriminate; [reflexivity|].
  f_equal. apply IH; lia.
Qed.

Lemma zip3_cols (row col : list nat) (data : list Z) :
  length row = length data -> length col = length data ->
  map (fun t : nat * nat * Z => t.1.2) (zip (zip row col) data) = col.
Proof.
  revert col data. induction row as [|r row IH]; intros [|c col] [|v data];
    simpl; intros H1 H2; try discriminate; [reflexivity|].
  f_equal. apply IH; lia.
Qed.

Lemma nonzero_wf dat : coo_wf dat -> nonzero dat = (coo_row dat, coo_col dat).
Proof.
  intros (Hr & Hc & _ & _ & Hnz). unfold nonzero.
  rewrite filter_Forall_id.
  - unfold coo_triples. rewrite zip3_rows, zip3_cols by assumption.
    reflexivity.
  - apply Forall_forall. intros [[r c] v] Hin. simpl.
    unfold coo_triples in Hin. apply elem_of_zip_r in Hin.
    rewrite Forall_forall in Hnz. apply Hnz. exact Hin.
Qed.

Lemma reorder_ok feat_idx dat :
  coo_wf dat ->
  Forall (fun r => default r (feat_idx !! r) < (coo_shape dat).1)
    (coo_row dat) ->
  exists dat', reorder feat_idx dat = Ok dat'.
Proof.
  intros Hwf Hrows. unfold reorder. rewrite (nonzero_wf dat Hwf). simpl.
  destruct Hwf as (Hr & Hc & _ & Hcols & _).
  unfold coo_matrix, replace. rewrite length_map, Hr, Hc, Nat.eqb_refl.
  simpl. rewrite existsb_le_false.
  - rewrite existsb_le_false by exact Hcols. eauto.
  - apply Forall_fmap. exact Hrows.
Qed.

(** C2 (as amended). When the local identifiers are distinct and are the
    canonical identifiers in some order, the remap step sends every
    triple (row, col, value) of a block to (alignment[row], col, value),
    in the same order, where alignment[row] is the canonical position of
    the row's identifier; the declared shape is the block's own, whose
    row count then equals the canonical feature count. *)
Theorem C2_reorder_aligned feat_ids out_ids dat :
  NoDup feat_ids ->
  feat_ids ≡ₚ out_ids ->
  coo_wf dat ->
  (coo_shape dat).1 = length feat_ids ->
  exists feat_idx dat',
    feat_idx_of feat_ids out_ids = Ok feat_idx /\
    (forall r x, feat_ids !! r = Some x ->
       exists r', feat_idx !! r = Some r' /\ out_ids !! r' = Some x) /\
    align_and_reorder feat_ids out_ids dat = Ok dat' /\
    coo_triples dat' = map (remap_triple feat_idx) (coo_triples dat) /\
    coo_shape dat' = (length out_ids, (coo_shape dat).2).
Proof.
  intros Hnd Hperm Hwf Hshape.
  destruct (feat_idx_of_aligned feat_ids out_ids Hnd Hperm)
    as (feat_idx & Hidx & Halign).
  destruct (reorder_ok feat_idx dat Hwf) as [dat' Hdat'].
  { destruct Hwf as (_ & _ & Hrows & _). eapply Forall_impl; [exact Hrows|].
    intros r Hr. simpl in Hr. rewrite Hshape in Hr.
    destruct (lookup_lt_is_Some_2 feat_ids r Hr) as [x Hx].
    destruct (Halign r x Hx) as (r' & -> & Hr'). simpl.
    rewrite Hshape, (Permutation_length Hperm).
    eapply lookup_lt_Some; eauto. }
  exists feat_idx, dat'. split; [exact Hidx|]. split; [exact Halign|].
  split.
  - unfold align_and_reorder. rewrite Hidx. exact Hdat'.
  - destruct (reorder_triples _ _ _ Hdat') as [Ht Hs]. split; [exact Ht|].
    rewrite Hs, <- (Permutation_length Hperm), <- Hshape.
    destruct (coo_shape dat). reflexivity.
Qed.

Lemma enumerate_elem {A} (l : list A) i x :
  (i, x) ∈ enumerate l -> i < length l /\ l !! i = Some x.
Proof.
  unfold enumerate. intros H.
  apply list_elem_of_lookup_1 in H as [k Hk].
  apply lookup_zip_with_Some in Hk as (a & b & Heq & Ha & Hb).
  injection Heq as -> ->.
  apply lookup_seq in Ha as [-> Hlt]. simpl. split; [exact Hlt|exact Hb].
Qed.

Lemma dense_entries_elem values rows cols e :
  e ∈ dense_entries values rows cols ->
  e.1.1 < length rows /\ e.1.2 < length cols /\ e.2 ≠ 0%Z /\
  exists r c, rows !! e.1.1 = Some r /\ cols !! e.1.2 = Some c /\
              e.2 = values r c.
Proof.
  unfold dense_entries. intros H.
  apply list_elem_of_In, in_flat_map in H as ([i r] & Hir & H).
  apply in_flat_map in H as ([j c] & Hjc & H).
  apply list_elem_of_In, enumerate_elem in Hir as [Hi Hr].
  apply list_elem_of_In, enumerate_elem in Hjc as [Hj Hc].
  simpl in H. destruct (Z.eqb_spec (values r c) 0) as [|Hnz]; [destruct H|].
  destruct H as [<-|[]]. simpl. eauto 10.
Qed.

(** What [sparse] builds is a well-formed block. *)
Lemma sparse_wf values rows cols : coo_wf (sparse values rows cols).
Proof.
  unfold coo_wf, sparse. simpl. rewrite !length_map.
  split; [reflexivity|]. split; [reflexivity|].
  repeat split; apply Forall_fmap, Forall_forall; intros e He;
    apply dense_entries_elem in He as (H1 & H2 & H3 & _); assumption.
Qed.

Lemma C2_reorder_aligned_witness :
  exists feat_idx dat',
    feat_idx_of [Str "C"; Str "A"; Str "B"] [Str "A"; Str "B"; Str "C"]
    = Ok feat_idx /\
    (forall r x, [Str "C"; Str "A"; Str "B"] !! r = Some x ->
       exists r', feat_idx !! r = Some r' /\
                  [Str "A"; Str "B"; Str "C"] !! r' = Some x) /\
    align_and_reorder [Str "C"; Str "A"; Str "B"]
      [Str "A"; Str "B"; Str "C"] ex_block_CAB = Ok dat' /\
    coo_triples dat' = map (remap_triple feat_idx) (coo_triples ex_block_CAB) /\
    coo_shape dat' = (length [Str "A"; Str "B"; Str "C"],
                      (coo_shape ex_block_CAB).2).
Proof.
  apply (C2_reorder_aligned [Str "C"; Str "A"; Str "B"]
           [Str "A"; Str "B"; Str "C"] ex_block_CAB).
  - apply (bool_decide_unpack _). vm_compute. exact I.
  - etrans; [apply perm_swap|]. apply perm_skip, perm_swap.
  - apply sparse_wf.
  - reflexivity.
Defined.

(** C2 fails as stated, on the scenario of the specification: the local
    identifiers C, A all occur in the canonical order A, B, C, yet the
    remap step produces no block, since B is looked up and not found;
    and whatever the dictionary, a rebuilt block declares the two rows
    of its input, not the three of the canonical order. *)
Lemma C2_counterexample :
  Forall (fun x => x ∈ [Str "A"; Str "B"; Str "C"]) [Str "C"; Str "A"] /\
  coo_triples ex_block_CA = [(0, 0, 5%Z); (1, 1, 7%Z)] /\
  coo_shape ex_block_CA = (2, 2) /\
  align_and_reorder [Str "C"; Str "A"] [Str "A"; Str "B"; Str "C"]
    ex_block_CA = Err (KeyError [Str "B"]) /\
  (forall feat_idx dat',
     reorder feat_idx ex_block_CA = Ok dat' -> coo_shape dat' = (2, 2)).
Proof.
  split.
  { repeat constructor. }
  split; [vm_compute; reflexivity|].
  split; [reflexivity|].
  split; [vm_compute; reflexivity|].
  intros feat_idx dat' H. apply reorder_triples in H as [_ ->]. reflexivity.
Qed.

(** ** Steps of the streaming engine *)

Lemma bind_lift_ok {A B} (r : result A) (a : A) (k : A -> M B) w :
  r = Ok a -> (lift r ≫= k) w = k a w.
Proof. intros ->. reflexivity. Qed.

Lemma bind_lift_err {A B} (r : result A) e (k : A -> M B) w :
  r = Err e -> (lift r ≫= k) w = (w, Err e).
Proof. intros ->. reflexivity. Qed.

Lemma bind_connect_out {B} (k : store -> M B) w st :
  out_loom w = Some st -> (connect_out ≫= k) w = k st w.
Proof.
  intros H. unfold mbind, M_bind, connect_out. rewrite H. reflexivity.
Qed.

Lemma attr_get_Some m name arr :
  m !! name = Some arr -> attr_get m (Some name) = Ok arr.
Proof. intros H. unfold attr_get. rewrite H. reflexivity. Qed.

(** C3 (as amended). A target that lacks an identifier of the canonical
    order stops its streaming call with [KeyError] listing the canonical
    identifiers that are missing, before any call of the writer for that
    dataset.  A target identifier absent from the canonical order raises
    no alignment error: it gets no entry in the dictionary, and the
    entries of its row keep their local row index in the rebuilt
    block. *)
Theorem C3_target_mismatch in_loom layer feat_attr cell_attr label
    valid_ra valid_ca (rv : bool) bs w st row_idx col_idx
    (acc ids : list scalar) :
  valid_index in_loom valid_ra false = Ok row_idx ->
  valid_index in_loom valid_ca true = Ok col_idx ->
  out_loom w = Some st ->
  st_ra st !! "Accession" = Some acc ->
  (arr ← attr_get (ra in_loom) feat_attr; index_array arr row_idx) = Ok ids ->
  let out_ids := if rv then remove_gene_version acc else acc in
  let feat_ids := if rv then remove_gene_version ids else ids in
  (filter (fun x => x ∉ feat_ids) out_ids <> [] ->
   low_mem_add_data in_loom layer feat_attr cell_attr label valid_ra
     valid_ca rv bs false w
   = (w, Err (KeyError (filter (fun x => x ∉ feat_ids) out_ids)))) /\
  (filter (fun x => x ∉ feat_ids) out_ids = [] ->
   exists feat_idx,
     feat_idx_of feat_ids out_ids = Ok feat_idx /\
     forall r x, feat_ids !! r = Some x -> x ∉ out_ids ->
       feat_idx !! r = None /\
       forall dat dat' c v,
         reorder feat_idx dat = Ok dat' ->
         (r, c, v) ∈ coo_triples dat ->
         (r, c, v) ∈ coo_triples dat' /\ coo_shape dat' = coo_shape dat).
Proof.
  intros Hrow Hcol Hout Hacc Hids out_ids feat_ids. split.
  - intros Hmiss. unfold low_mem_add_data.
    rewrite (bind_lift_ok _ _ _ _ Hrow), (bind_lift_ok _ _ _ _ Hcol).
    simpl negb. cbv iota.
    unfold mbind at 1. unfold M_bind at 1.
    rewrite (bind_connect_out _ w st Hout).
    rewrite (attr_get_Some _ _ _ Hacc). unfold lift at 1.
    rewrite (bind_lift_ok _ _ _ _ Hids).
    apply bind_lift_err. unfold feat_idx_of.
    fold out_ids feat_ids. rewrite (loc_missing _ _ Hmiss). reflexivity.
  - intros Hnone. apply filter_absent_nil in Hnone.
    exists (to_dict (flat_map (fun x => positions_of x feat_ids) out_ids)
              (seq 0 (length (flat_map (fun x => positions_of x feat_ids)
                                out_ids)))).
    assert (Hidx : feat_idx_of feat_ids out_ids = Ok
      (to_dict (flat_map (fun x => positions_of x feat_ids) out_ids)
         (seq 0 (length (flat_map (fun x => positions_of x feat_ids)
                           out_ids))))).
    { unfold feat_idx_of. rewrite (loc_present _ _ Hnone). reflexivity. }
    split; [exact Hidx|].
    intros r x Hr Hx.
    pose proof (feat_idx_of_absent _ _ _ r x Hidx Hr Hx) as Hnot.
    split; [exact Hnot|].
    intros dat dat' c v Hre Hin.
    apply reorder_triples in Hre as [-> ->]. split; [|reflexivity].
    apply list_elem_of_fmap. exists (r, c, v). split; [|exact Hin].
    unfold remap_triple. simpl. rewrite Hnot. reflexivity.
Qed.

Lemma C3_target_mismatch_witness :
  let out_ids := [Str "A"; Str "B"; Str "C"] in
  let feat_ids := [Str "A"; Str "B"; Str "C"; Str "D"] in
  (filter (fun x => x ∉ feat_ids) out_ids <> [] ->
   low_mem_add_data ex_target_ABCD (Some "") (Some "Accession")
     (Some "CellID") (PScalar (Some "atac")) (PScalar None) (PScalar None)
     false 1 false ex_world_source
   = (ex_world_source,
      Err (KeyError (filter (fun x => x ∉ feat_ids) out_ids)))) /\
  (filter (fun x => x ∉ feat_ids) out_ids = [] ->
   exists feat_idx,
     feat_idx_of feat_ids out_ids = Ok feat_idx /\
     forall r x, feat_ids !! r = Some x -> x ∉ out_ids ->
       feat_idx !! r = None /\
       forall dat dat' c v,
         reorder feat_idx dat = Ok dat' ->
         (r, c, v) ∈ coo_triples dat ->
         (r, c, v) ∈ coo_triples dat' /\ coo_shape dat' = coo_shape dat).
Proof.
  apply (C3_target_mismatch ex_target_ABCD (Some "") (Some "Accession")
           (Some "CellID") (PScalar (Some "atac")) (PScalar None)
           (PScalar None) false 1 ex_world_source
           (default no_store (out_loom ex_world_source))
           [0; 1; 2; 3] [0; 1]
           [Str "A"; Str "B"; Str "C"]
           [Str "A"; Str "B"; Str "C"; Str "D"]).
  - vm_compute. reflexivity.
  - vm_compute. reflexivity.
  - vm_compute. reflexivity.
  - vm_compute. reflexivity.
  - vm_compute. reflexivity.
Defined.

(** C3 fails as stated: the target carries D, which the canonical order
    A, B, C lacks.  No alignment error is raised; the dictionary has no
    entry for D's row 3, and the writer is called for the target with a
    block of four rows in which D's entry still sits at row 3.  The run
    then stops in the writer, on the row count. *)
Lemma C3_counterexample :
  ra ex_source !! "Accession" = Some [Str "A"; Str "B"; Str "C"] /\
  ra ex_target_ABCD !! "Accession"
  = Some [Str "A"; Str "B"; Str "C"; Str "D"] /\
  (exists feat_idx,
     feat_idx_of [Str "A"; Str "B"; Str "C"; Str "D"]
       [Str "A"; Str "B"; Str "C"] = Ok feat_idx /\
     feat_idx !! 3 = None) /\
  (exists call,
     call ∈ calls (low_mem_integrate ex_args_ABCD fresh).1 /\
     w_col_attrs call !! "OriginalFile" = Some [Str "target.loom"] /\
     coo_shape (w_layer call) = (4, 1) /\
     (3, 0, 9%Z) ∈ coo_triples (w_layer call)) /\
  (low_mem_integrate ex_args_ABCD fresh).2 = Err SchemaMismatchError.
Proof.
  split; [vm_compute; reflexivity|].
  split; [vm_compute; reflexivity|].
  split.
  { eexists. split; [reflexivity|]. vm_compute. reflexivity. }
  split; [|vm_compute; reflexivity].
  exists (default {| w_layer := ex_block_CA; w_row_attrs := ∅;
                     w_col_attrs := ∅; w_append := true |}
            (calls (low_mem_integrate ex_args_ABCD fresh).1 !! 2)).
  split.
  { apply list_elem_of_In. vm_compute.
    repeat (first [left; reflexivity | right]). }
  split; [vm_compute; reflexivity|].
  split; [vm_compute; reflexivity|].
  apply list_elem_of_In. vm_compute.
  repeat (first [left; reflexivity | right]).
Qed.

(** ** The calls the streaming engine makes *)

Lemma M_bind_unfold {A B} (c : M A) (k : A -> M B) w :
  (c ≫= k) w = match c w with
               | (w', Ok a) => k a w'
               | (w', Err e) => (w', Err e)
               end.
Proof. reflexivity. Qed.

Lemma batch_add_sparse_calls dat row_attrs col_attrs append w :
  calls (batch_add_sparse dat row_attrs col_attrs append w).1
  = calls w ++ [ {| w_layer := dat; w_row_attrs := row_attrs;
                    w_col_attrs := col_attrs; w_append := append |} ].
Proof.
  unfold batch_add_sparse. destruct append; [|reflexivity].
  destruct (out_loom w); [|reflexivity].
  destruct (_ =? _); reflexivity.
Qed.






Lemma check_inputs_has_target a cfgs :
  has_target a -> check_inputs a = Ok cfgs -> cfgs <> [].
Proof.
  unfold has_target, check_inputs. destruct (loom_target a) as [d|ds].
  - intros _. destruct (all_same_type_size _ _ _); simpl; [|discriminate].
    destruct (scalar_arg (layer_target a)); simpl; [|discriminate].
    destruct (scalar_arg (feat_target a)); simpl; [|discriminate].
    destruct (scalar_arg (cell_target a)); simpl; [|discriminate].
    intros [= <-]. discriminate.
  - intros Hds. destruct (all_same_type_size _ _ _); simpl; [|discriminate].
    destruct (mimic_list _ _) as [checked|]; simpl; [|discriminate].
    destruct (item checked 0); simpl; [|discriminate].
    destruct (item checked 1); simpl; [|discriminate].
    destruct (item checked 2); simpl; [|discriminate].
    destruct (item checked 3); simpl; [|discriminate].
    destruct (item checked 4); simpl; [|discriminate].
    intros H. apply rmapM_length in H. rewrite length_seq in H.
    intros ->. destruct ds; [contradiction|discriminate].
Qed.


Example C8_example_calls :
  map w_append (calls (low_mem_integrate ex_args_two_targets fresh).1)
  = [false; true; true; true; true; true] /\
  (low_mem_integrate ex_args_two_targets fresh).2 = Ok tt.
Proof. split; vm_compute; reflexivity. Qed.

(** ** Where the canonical identifiers come from *)




(** On [ex_source_gene], read by its attribute Gene: the creating write
    carries the Gene identifiers and the rows as stored; the appending
    write carries the Accession identifiers, and its rows are sent to
    the positions the Gene identifiers have among them. *)
Example C10_example_gene :
  map (fun c => (w_append c, w_row_attrs c !! "Accession",
                 coo_triples (w_layer c)))
    (calls (low_mem_add_data ex_source_gene (Some "") (Some "Gene")
              (Some "CellID") (PScalar None) (PScalar None) (PScalar None)
              false 1 true fresh).1)
  = [(false, Some [Str "C"; Str "A"; Str "B"],
      [(0, 0, 5%Z); (1, 0, 7%Z); (2, 0, 6%Z)]);
     (true, Some [Str "A"; Str "B"; Str "C"],
      [(2, 0, 5%Z); (0, 0, 7%Z); (1, 0, 6%Z)])].
Proof. vm_compute. reflexivity. Qed.

(** ** The row order of the output *)

Lemma unique_from_covered seen l :
  (forall x, x ∈ l -> x ∈ seen) -> unique_from seen l = [].
Proof.
  induction l as [|x l IH]; simpl; intros H; [reflexivity|].
  destruct (decide (x ∈ seen)) as [_|Hx].
  - apply IH. intros y Hy. apply H. right. exact Hy.
  - exfalso. apply Hx, H. left.
Qed.

Lemma unique_from_prefix l0 : forall seen l1,
  NoDup l0 ->
  (forall x, x ∈ l0 -> x ∉ seen) ->
  (forall x, x ∈ l1 -> x ∈ l0 \/ x ∈ seen) ->
  unique_from seen (l0 ++ l1) = l0.
Proof.
  induction l0 as [|x l0 IH]; intros seen l1 Hnd Hnew Hcov; simpl.
  - apply unique_from_covered. intros y Hy.
    destruct (Hcov y Hy) as [H|H]; [|exact H].
    apply elem_of_nil in H. destruct H.
  - apply NoDup_cons in Hnd as [Hx Hnd].
    destruct (decide (x ∈ seen)) as [Hin|_].
    + exfalso. apply (Hnew x); [left|exact Hin].
    + f_equal. apply IH; [exact Hnd| |].
      * intros y Hy Hin. apply elem_of_cons in Hin as [->|Hin].
        -- contradiction.
        -- apply (Hnew y); [right; exact Hy|exact Hin].
      * intros y Hy. destruct (Hcov y Hy) as [H|H].
        -- apply elem_of_cons in H as [->|H]; [right; left|left; exact H].
        -- right. right. exact H.
Qed.

Lemma has_dup_false l : has_dup l = false -> NoDup l.
Proof.
  unfold has_dup. intros H. apply negb_false_iff, bool_decide_eq_true in H.
  exact H.
Qed.

Lemma elem_of_flat_map_columns (frames : list frame) x :
  x ∈ flat_map f_columns frames ->
  exists f, f ∈ frames /\ x ∈ f_columns f.
Proof.
  intros H. apply list_elem_of_In, in_flat_map in H as (f & Hf & Hx).
  exists f. split; apply list_elem_of_In; assumption.
Qed.

(** When the labels of the later tables are among those of the first,
    the stacked table carries the first table's column labels. *)
Lemma concat_columns_first f0 rest table :
  concat (f0 :: rest) = Ok table ->
  (forall f x, f ∈ rest -> x ∈ f_columns f -> x ∈ f_columns f0) ->
  f_columns table = f_columns f0.
Proof.
  unfold concat. intros H Hsub.
  destruct (forallb _ rest); [injection H as <-; reflexivity|].
  destruct (existsb _ (f0 :: rest)) eqn:Hdup; [discriminate|].
  injection H as <-. cbn [f_columns].
  simpl in Hdup. apply orb_false_elim in Hdup as [Hdup0 _].
  simpl. apply unique_from_prefix.
  - apply has_dup_false. exact Hdup0.
  - intros x _ Hin. apply elem_of_nil in Hin. destruct Hin.
  - intros x Hx. left.
    apply elem_of_flat_map_columns in Hx as (f & Hf & Hx). eauto.
Qed.

Lemma high_mem_get_data_columns t rv fr :
  high_mem_get_data (t_loom t) (t_layer t) (t_feat t) (t_cell t)
    (t_valid_ra t) (t_valid_ca t) rv = Ok fr ->
  feature_ids rv t = Ok (f_columns fr).
Proof.
  unfold high_mem_get_data, feature_ids.
  destruct (valid_index (t_loom t) (t_valid_ra t) false); simpl;
    [|discriminate].
  destruct (valid_index (t_loom t) (t_valid_ca t) true); simpl;
    [|discriminate].
  destruct (layer_get _ _); simpl; [|discriminate].
  destruct (attr_get (ra _) _); simpl; [|discriminate].
  destruct (index_array _ _); simpl; [|discriminate].
  destruct (attr_get (ca _) _); simpl; [|discriminate].
  destruct (index_array _ _); simpl; [|discriminate].
  intros [= <-]. reflexivity.
Qed.

Lemma high_mem_add_frame rv ty acc t acc' :
  high_mem_add rv ty acc (t_loom t) (t_layer t) (t_feat t) (t_cell t)
    (t_label t) (t_valid_ra t) (t_valid_ca t) = Ok acc' ->
  exists fr,
    high_mem_get_data (t_loom t) (t_layer t) (t_feat t) (t_cell t)
      (t_valid_ra t) (t_valid_ca t) rv = Ok fr /\
    imputed_dat acc' = imputed_dat acc ++ [fr].
Proof.
  unfold high_mem_add.
  destruct (high_mem_get_data _ _ _ _ _ _ _) as [fr|]; simpl; [|discriminate].
  destruct (if ty then _ else _); simpl; [|discriminate].
  destruct (high_mem_repeat_label _ _ _); simpl; [|discriminate].
  intros [= <-]. exists fr. auto.
Qed.

Lemma high_mem_targets_frames rv ty cfgs : forall acc acc',
  high_mem_targets rv ty acc cfgs = Ok acc' ->
  exists frs,
    imputed_dat acc' = imputed_dat acc ++ frs /\
    Forall2 (fun t fr =>
      high_mem_get_data (t_loom t) (t_layer t) (t_feat t) (t_cell t)
        (t_valid_ra t) (t_valid_ca t) rv = Ok fr) cfgs frs.
Proof.
  induction cfgs as [|t rest IH]; intros acc acc'; simpl.
  - intros [= <-]. exists []. rewrite app_nil_r. auto.
  - destruct (high_mem_add rv ty acc _ _ _ _ _ _ _) as [acc1|] eqn:E; simpl;
      [|discriminate].
    intros H. destruct (IH _ _ H) as (frs & Hfrs & Hall).
    destruct (high_mem_add_frame _ _ _ _ _ E) as (fr & Hfr & Hacc1).
    exists (fr :: frs). split.
    + rewrite Hfrs, Hacc1, <- app_assoc. reflexivity.
    + constructor; assumption.
Qed.

(** The tables gathered are those of the source and of the targets, in
    that order. *)
Lemma high_mem_collect_frames a acc cfgs :
  high_mem_collect a = Ok acc ->
  check_inputs a = Ok cfgs ->
  Forall2 (fun t fr =>
    high_mem_get_data (t_loom t) (t_layer t) (t_feat t) (t_cell t)
      (t_valid_ra t) (t_valid_ca t) (remove_version a) = Ok fr)
    (source_cfg a :: cfgs) (imputed_dat acc).
Proof.
  unfold high_mem_collect. intros H Hc. rewrite Hc in H. simpl in H.
  destruct (high_mem_add _ _ _ _ _ _ _ _ _ _) as [acc1|] eqn:E; simpl in H;
    [|discriminate].
  destruct (high_mem_add_frame _ _ _ (source_cfg a) _ E) as (fr & Hfr & Hacc1).
  destruct (high_mem_targets_frames _ _ _ _ _ H) as (frs & Hfrs & Hall).
  rewrite Hfrs, Hacc1. simpl. constructor; assumption.
Qed.

Lemma high_mem_integrate_inv a st :
  high_mem_integrate a = Ok st ->
  exists acc table types,
    high_mem_collect a = Ok acc /\
    concat (imputed_dat acc) = Ok table /\
    type_dat acc = Some types /\
    is_type_of a = true /\
    st = loompy_create (length (f_columns table), length (f_index table))
           (f_values (frame_T table)) {["Accession" := f_columns table]}
           (<["Modality" := mjoin types]>
              (<["OriginalFile" := mjoin (file_dat acc)]>
                 {["CellID" := f_index table]})).
Proof.
  intros H.
  destruct (is_type_of a) eqn:Hty.
  2:{ exfalso. exact (high_mem_unlabelled_fails a Hty st H). }
  unfold high_mem_integrate in H. rewrite Hty in H.
  destruct (high_mem_collect a) as [acc|] eqn:Hacc; simpl in H;
    [|discriminate].
  destruct (concat (imputed_dat acc)) as [table|] eqn:Htable; simpl in H;
    [|discriminate].
  destruct (type_dat acc) as [types|] eqn:Htypes; simpl in H; [|discriminate].
  injection H as <-. exists acc, table, types.
  split; [reflexivity|]. split; [exact Htable|]. split; [exact Htypes|].
  split; reflexivity.
Qed.

Lemma batch_add_sparse_rows_append ids dat row_attrs col_attrs w :
  rows_are ids w ->
  rows_are ids (batch_add_sparse dat row_attrs col_attrs true w).1.
Proof.
  intros Hw st. unfold batch_add_sparse.
  destruct (out_loom w) as [st0|] eqn:Hst0; simpl; [|discriminate].
  destruct (_ =? _); simpl; intros [= <-]; simpl; exact (Hw st0 Hst0).
Qed.

Lemma batch_add_sparse_rows_create ids dat col_attrs w :
  rows_are ids
    (batch_add_sparse dat {["Accession" := ids]} col_attrs false w).1.
Proof. intros st. simpl. intros [= <-]. reflexivity. Qed.

Lemma rows_are_none ids w : out_loom w = None -> rows_are ids w.
Proof. intros H st Hst. rewrite H in Hst. discriminate. Qed.

Lemma add_batches_rows_keep ids in_loom layer cell_attr label row_idx
    feat_ids out_ids feat_idx views : forall w,
  rows_are ids w ->
  rows_are ids
    (add_batches in_loom layer cell_attr label row_idx feat_ids out_ids
       feat_idx true views w).1.
Proof.
  induction views as [|v rest IH]; intros w Hw; simpl; [exact Hw|].
  rewrite M_bind_unfold. unfold lift at 1.
  destruct (view_layer v layer) as [values|e]; cbv beta iota zeta;
    [|exact Hw].
  rewrite M_bind_unfold. unfold lift at 1.
  destruct (reorder feat_idx _) as [dat|e]; cbv beta iota zeta; [|exact Hw].
  rewrite M_bind_unfold. unfold lift at 1.
  destruct (view_ca v cell_attr) as [cells|e]; cbv beta iota zeta;
    [|exact Hw].
  rewrite M_bind_unfold.
  match goal with
  | |- context [batch_add_sparse dat ?ra ?ca true w] =>
      pose proof (batch_add_sparse_rows_append ids dat ra ca w Hw) as Hw1;
      destruct (batch_add_sparse dat ra ca true w) as [w1 [[]|e]]
  end; simpl in Hw1; [apply IH; exact Hw1|exact Hw1].
Qed.

Lemma add_batches_rows_create in_loom layer cell_attr label row_idx
    feat_ids out_ids feat_idx views w :
  out_loom w = None ->
  rows_are feat_ids
    (add_batches in_loom layer cell_attr label row_idx feat_ids out_ids
       feat_idx false views w).1.
Proof.
  intros Hnone. pose proof (rows_are_none feat_ids w Hnone) as Hw.
  destruct views as [|v rest]; simpl; [exact Hw|].
  rewrite M_bind_unfold. unfold lift at 1.
  destruct (view_layer v layer) as [values|e]; cbv beta iota zeta;
    [|exact Hw].
  rewrite M_bind_unfold. unfold lift at 1. cbv beta iota zeta.
  rewrite M_bind_unfold. unfold lift at 1.
  destruct (view_ca v cell_attr) as [cells|e]; cbv beta iota zeta;
    [|exact Hw].
  rewrite M_bind_unfold.
  match goal with
  | |- context [batch_add_sparse ?dat ?ra ?ca false w] =>
      pose proof (batch_add_sparse_rows_create feat_ids dat ca w) as Hw1;
      destruct (batch_add_sparse dat ra ca false w) as [w1 [[]|e]]
  end; simpl in Hw1; [|exact Hw1].
  apply add_batches_rows_keep. exact Hw1.
Qed.

Lemma low_mem_add_data_rows_keep ids t rv bs w :
  rows_are ids w ->
  rows_are ids
    (low_mem_add_data (t_loom t) (t_layer t) (t_feat t) (t_cell t)
       (t_label t) (t_valid_ra t) (t_valid_ca t) rv bs false w).1.
Proof.
  intros Hw. unfold low_mem_add_data.
  rewrite M_bind_unfold. unfold lift at 1.
  destruct (valid_index (t_loom t) (t_valid_ra t) false) as [row_idx|e];
    cbv beta iota zeta; [|exact Hw].
  rewrite M_bind_unfold. unfold lift at 1.
  destruct (valid_index (t_loom t) (t_valid_ca t) true) as [col_idx|e];
    cbv beta iota zeta; [|exact Hw].
  simpl negb. cbv iota.
  rewrite !M_bind_unfold. unfold connect_out.
  destruct (out_loom w) as [st|]; [|exact Hw].
  unfold lift at 1.
  destruct (attr_get (st_ra st) (Some "Accession")) as [acc|e]; [|exact Hw].
  rewrite M_bind_unfold. unfold lift at 1.
  destruct (arr ← attr_get (ra (t_loom t)) (t_feat t);
            index_array arr row_idx) as [ids0|e]; [|exact Hw].
  rewrite M_bind_unfold. unfold lift at 1.
  destruct (feat_idx_of _ _) as [feat_idx|e]; [|exact Hw].
  rewrite M_bind_unfold. unfold lift at 1.
  destruct (scan _ col_idx _ bs) as [views|e]; [|exact Hw].
  apply add_batches_rows_keep. exact Hw.
Qed.

Lemma feature_ids_read (rv : bool) t row_idx ids :
  valid_index (t_loom t) (t_valid_ra t) false = Ok row_idx ->
  (arr ← attr_get (ra (t_loom t)) (t_feat t); index_array arr row_idx)
  = Ok ids ->
  feature_ids rv t = Ok (if rv then remove_gene_version ids else ids).
Proof.
  intros Hrow Hids. unfold feature_ids. rewrite Hrow. simpl.
  destruct (attr_get (ra (t_loom t)) (t_feat t)) as [feats|]; simpl in *;
    [|discriminate].
  rewrite Hids. reflexivity.
Qed.

Lemma low_mem_add_data_rows_create t rv bs w st :
  out_loom w = None ->
  out_loom (low_mem_add_data (t_loom t) (t_layer t) (t_feat t) (t_cell t)
              (t_label t) (t_valid_ra t) (t_valid_ca t) rv bs true w).1
  = Some st ->
  exists ids, feature_ids rv t = Ok ids /\ st_ra st = {["Accession" := ids]}.
Proof.
  intros Hnone. unfold low_mem_add_data.
  rewrite M_bind_unfold. unfold lift at 1.
  destruct (valid_index (t_loom t) (t_valid_ra t) false) as [row_idx|e]
    eqn:Hrow; cbv beta iota zeta; [|simpl; congruence].
  rewrite M_bind_unfold. unfold lift at 1.
  destruct (valid_index (t_loom t) (t_valid_ca t) true) as [col_idx|e];
    cbv beta iota zeta; [|simpl; congruence].
  simpl negb. cbv iota.
  rewrite M_bind_unfold. unfold lift at 1.
  destruct (acc ← attr_get (ra (t_loom t)) (Some "Accession");
            index_array acc row_idx) as [acc|e]; [|simpl; congruence].
  rewrite M_bind_unfold. unfold lift at 1.
  destruct (arr ← attr_get (ra (t_loom t)) (t_feat t);
            index_array arr row_idx) as [ids0|e] eqn:Hids;
    [|simpl; congruence].
  rewrite M_bind_unfold. unfold lift at 1.
  destruct (feat_idx_of _ _) as [feat_idx|e]; [|simpl; congruence].
  rewrite M_bind_unfold. unfold lift at 1.
  destruct (scan _ col_idx _ bs) as [views|e]; [|simpl; congruence].
  intros Hst. eexists. split; [exact (feature_ids_read rv t _ _ Hrow Hids)|].
  eapply add_batches_rows_create; eauto.
Qed.

Lemma low_mem_targets_rows ids rv bs cfgs : forall w,
  rows_are ids w -> rows_are ids (low_mem_targets rv bs cfgs w).1.
Proof.
  induction cfgs as [|t rest IH]; intros w Hw; simpl; [exact Hw|].
  rewrite M_bind_unfold.
  pose proof (low_mem_add_data_rows_keep ids t rv bs w Hw) as Hw1.
  destruct (low_mem_add_data _ _ _ _ _ _ _ _ _ false w) as [w1 [[]|e]];
    simpl in Hw1; [apply IH; exact Hw1|exact Hw1].
Qed.

(** Whatever the targets, an output the streaming engine leaves behind
    carries the canonical order as its rows. *)
Lemma low_mem_integrate_rows a st :
  out_loom (low_mem_integrate a fresh).1 = Some st ->
  exists canon,
    canonical_order a = Ok canon /\ st_ra st = {["Accession" := canon]}.
Proof.
  unfold low_mem_integrate. rewrite M_bind_unfold. unfold lift.
  destruct (check_inputs a) as [cfgs|e]; [|discriminate].
  cbv beta iota zeta. rewrite M_bind_unfold. intros Hst.
  pose proof (low_mem_add_data_rows_create (source_cfg a) (remove_version a)
                (batch_size a) fresh) as Hcreate.
  simpl in Hcreate.
  remember (low_mem_add_data (loom_source a) (layer_source a) (feat_source a)
              (cell_source a) (PScalar (label_source a))
              (PScalar (valid_ra_source a)) (PScalar (valid_ca_source a))
              (remove_version a) (batch_size a) true fresh) as res eqn:Hres.
  clear Hres. destruct res as [w1 [[]|e]]; simpl in Hst, Hcreate.
  - destruct (out_loom w1) as [st1|] eqn:Hst1.
    + destruct (Hcreate st1 eq_refl eq_refl) as (ids & Hids & Hra).
      exists ids. split; [exact Hids|].
      assert (Hrows : rows_are ids w1).
      { intros st' Hst'. rewrite Hst1 in Hst'. injection Hst' as <-.
        exact Hra. }
      exact (low_mem_targets_rows ids _ _ cfgs w1 Hrows st Hst).
    + exfalso.
      pose proof (rows_are_none [] w1 Hst1) as Hrows.
      pose proof (low_mem_targets_rows [] (remove_version a) (batch_size a)
                    cfgs w1 Hrows st Hst) as Hra1.
      pose proof (rows_are_none [NoneV] w1 Hst1) as Hrows2.
      pose proof (low_mem_targets_rows [NoneV] (remove_version a)
                    (batch_size a) cfgs w1 Hrows2 st Hst) as Hra2.
      rewrite Hra1 in Hra2.
      apply (f_equal (fun m => m !! "Accession")) in Hra2.
      rewrite !lookup_singleton_eq in Hra2. discriminate.
  - exact (Hcreate st eq_refl Hst).
Qed.

Lemma Forall2_elem_r {A B} (P : A -> B -> Prop) l k y :
  Forall2 P l k -> y ∈ k -> exists x, x ∈ l /\ P x y.
Proof.
  intros HF Hy. apply list_elem_of_lookup_1 in Hy as [i Hi].
  destruct (Forall2_lookup_r _ _ _ _ _ HF Hi) as (x & Hx & HP).
  exists x. split; [eapply list_elem_of_lookup_2; eauto|exact HP].
Qed.

(** When the identifiers of every target are among the source's, the
    output of the full-memory engine carries the canonical order as its
    rows. *)
Lemma high_mem_integrate_rows a st cfgs :
  high_mem_integrate a = Ok st ->
  check_inputs a = Ok cfgs ->
  (forall t ids x, t ∈ cfgs -> feature_ids (remove_version a) t = Ok ids ->
     x ∈ ids ->
     exists canon, canonical_order a = Ok canon /\ x ∈ canon) ->
  exists canon,
    canonical_order a = Ok canon /\ st_ra st = {["Accession" := canon]}.
Proof.
  intros Hint Hcheck Hsub.
  destruct (high_mem_integrate_inv a st Hint)
    as (acc & table & types & Hacc & Htable & _ & _ & ->).
  pose proof (high_mem_collect_frames a acc cfgs Hacc Hcheck) as HF.
  inversion HF as [|t0 f0 ts rest Hf0 Hrest Ht0 Hfr]; subst.
  apply high_mem_get_data_columns in Hf0.
  exists (f_columns f0). split; [exact Hf0|]. simpl. f_equal.
  rewrite <- Hfr in Htable. apply (concat_columns_first f0 rest table Htable).
  intros f x Hf Hx.
  destruct (Forall2_elem_r _ _ _ _ Hrest Hf) as (t & Ht & Hget).
  apply high_mem_get_data_columns in Hget.
  destruct (Hsub t _ x Ht Hget Hx) as (canon & Hcanon & Hin).
  unfold canonical_order in Hcanon. rewrite Hf0 in Hcanon.
  injection Hcanon as <-. exact Hin.
Qed.

(** C5 (as amended). The row order of the output is the canonical
    order, which is read from the source alone: for the streaming
    engine on every merge it completes, and for the full-memory engine
    on every merge it completes in which the feature identifiers of each
    target are among the source's. *)
Theorem C5_row_order a w st cfgs :
  integrate_data a fresh = (w, Ok tt) ->
  out_loom w = Some st ->
  check_inputs a = Ok cfgs ->
  (low_mem a = false ->
   forall t ids x, t ∈ cfgs -> feature_ids (remove_version a) t = Ok ids ->
     x ∈ ids ->
     exists canon, canonical_order a = Ok canon /\ x ∈ canon) ->
  exists canon,
    canonical_order a = Ok canon /\
    st_ra st !! "Accession" = Some canon.
Proof.
  intros Hrun Hst Hcheck Hsub. unfold integrate_data in Hrun.
  destruct (low_mem a).
  - destruct (low_mem_integrate_rows a st) as (canon & Hcanon & Hra).
    { rewrite Hrun. exact Hst. }
    exists canon. split; [exact Hcanon|]. rewrite Hra.
    apply lookup_singleton_eq.
  - destruct (high_mem_integrate a) as [st'|e] eqn:Hint; [|discriminate].
    injection Hrun as <-. simpl in Hst. injection Hst as ->.
    destruct (high_mem_integrate_rows a st cfgs Hint Hcheck (Hsub eq_refl))
      as (canon & Hcanon & Hra).
    exists canon. split; [exact Hcanon|]. rewrite Hra.
    apply lookup_singleton_eq.
Qed.

Lemma C5_row_order_witness :
  exists canon,
    canonical_order ex_args_CA = Ok canon /\
    st_ra ex_store_CA !! "Accession" = Some canon.
Proof.
  apply (C5_row_order ex_args_CA (integrate_data ex_args_CA fresh).1
           ex_store_CA (result_get [] (check_inputs ex_args_CA))).
  - vm_compute. reflexivity.
  - vm_compute. reflexivity.
  - vm_compute. reflexivity.
  - intros _ t ids x Ht Hids Hx.
    exists [Str "A"; Str "B"; Str "C"]. split; [vm_compute; reflexivity|].
    apply list_elem_of_In in Ht. vm_compute in Ht.
    destruct Ht as [<-|[]]. vm_compute in Hids. injection Hids as <-.
    apply list_elem_of_In in Hx. apply list_elem_of_In.
    destruct Hx as [<-|[<-|[]]]; simpl; auto.
Defined.

(** C5 fails as stated: the target of both merges has the features D
    and E of its own, stored in either order.  The full-memory engine
    puts them after the source's features in the target's local order,
    so the rows are neither the canonical order A, B, C nor independent
    of the target's ordering. *)
Lemma C5_counterexample :
  canonical_order ex_args_ADE = Ok [Str "A"; Str "B"; Str "C"] /\
  canonical_order ex_args_AED = Ok [Str "A"; Str "B"; Str "C"] /\
  (exists st,
     high_mem_integrate ex_args_ADE = Ok st /\
     st_ra st !! "Accession"
     = Some [Str "A"; Str "B"; Str "C"; Str "D"; Str "E"]) /\
  (exists st,
     high_mem_integrate ex_args_AED = Ok st /\
     st_ra st !! "Accession"
     = Some [Str "A"; Str "B"; Str "C"; Str "E"; Str "D"]).
Proof.
  split; [vm_compute; reflexivity|].
  split; [vm_compute; reflexivity|].
  split.
  - exists (result_get no_store (high_mem_integrate ex_args_ADE)).
    split; vm_compute; reflexivity.
  - exists (result_get no_store (high_mem_integrate ex_args_AED)).
    split; vm_compute; reflexivity.
Qed.

(** ** Batches cover the selected columns *)

Lemma filter_split_sorted (l : list nat) a t :
  StronglySorted lt l -> a <= t ->
  filter (fun x => a <= x) l
  = filter (fun x => a <= x < t) l ++ filter (fun x => t <= x) l.
Proof.
  intros Hs Hat. induction Hs as [|x l Hs IH Hx]; [reflexivity|].
  rewrite !filter_cons.
  destruct (decide (a <= x)) as [Hax|Hax];
    destruct (decide (a <= x < t)) as [Hm|Hm];
    destruct (decide (t <= x)) as [Htx|Htx]; try lia.
  - simpl. f_equal. exact IH.
  - assert (Hnil : filter (fun y => a <= y < t) l = []).
    { clear IH Hs. induction Hx as [|y l Hy _ IH]; [reflexivity|].
      rewrite filter_cons. destruct (decide (a <= y < t)); [lia|exact IH]. }
    rewrite Hnil in *. simpl in *. f_equal. exact IH.
  - exact IH.
Qed.

Lemma filter_ge_all (l : list nat) n a :
  Forall (fun x => x < n) l -> n <= a -> filter (fun x => a <= x) l = [].
Proof.
  intros Hl Hn. induction Hl as [|x l Hx _ IH]; [reflexivity|].
  rewrite filter_cons. destruct (decide (a <= x)); [lia|exact IH].
Qed.

Lemma scan_from_concat ncols items fuel : forall ix cpc sels,
  StronglySorted lt items ->
  Forall (fun x => x < ncols) items ->
  scan_from fuel ix cpc ncols items = Ok sels ->
  mjoin sels = filter (fun x => ix <= x) items.
Proof.
  induction fuel as [|fuel IH]; intros ix cpc sels Hs Hb; simpl.
  - destruct (ix <? ncols) eqn:Hix; [discriminate|].
    intros [= <-]. apply Nat.ltb_ge in Hix.
    rewrite (filter_ge_all items ncols ix Hb Hix). reflexivity.
  - destruct (ix <? ncols) eqn:Hix.
    + destruct (scan_from fuel _ _ ncols items) as [rest|] eqn:Hrest;
        simpl; [|discriminate].
      intros [= <-]. apply IH in Hrest; [|assumption..].
      rewrite (filter_split_sorted items ix
                 (ix + Nat.min (ncols - ix) cpc) Hs ltac:(lia)).
      rewrite <- Hrest.
      match goal with
      | |- mjoin (match ?f with [] => _ | _ :: _ => _ end) = _ =>
          destruct f; reflexivity
      end.
    + intros [= <-]. apply Nat.ltb_ge in Hix.
      rewrite (filter_ge_all items ncols ix Hb Hix). reflexivity.
Qed.

Lemma filter_ge_zero (l : list nat) : filter (fun x => 0 <= x) l = l.
Proof. apply filter_Forall_id, Forall_forall. intros; lia. Qed.

(** The views a scan yields cover the requested columns, in order. *)
Lemma scan_covers ds items layers bs views :
  StronglySorted lt items ->
  Forall (fun x => x < (shape ds).2) items ->
  scan ds items layers bs = Ok views ->
  flat_map view_cols views = items /\
  Forall (fun v => view_ds v = ds) views.
Proof.
  intros Hs Hb. unfold scan.
  destruct (rmapM (layer_get ds) layers); simpl; [|discriminate].
  destruct (scan_from _ 0 bs _ items) as [sels|] eqn:Hsels; simpl;
    [|discriminate].
  intros [= <-]. apply scan_from_concat in Hsels; [|assumption..].
  rewrite filter_ge_zero in Hsels. split.
  - rewrite <- Hsels. clear. induction sels as [|s sels IH]; simpl;
      [reflexivity|]. f_equal. exact IH.
  - apply Forall_forall. intros v Hv.
    apply list_elem_of_fmap in Hv as (s & -> & _). reflexivity.
Qed.

Lemma truthy_positions_bounds l : forall i,
  Forall (fun x => i <= x < i + length l) (truthy_positions i l).
Proof.
  induction l as [|y l IH]; intros i; simpl; [constructor|].
  assert (H : Forall (fun x => i <= x < i + S (length l))
                (truthy_positions (S i) l)).
  { eapply Forall_impl; [apply IH|]. intros x Hx. simpl in Hx. lia. }
  destruct (truthy y); [constructor; [lia|exact H]|exact H].
Qed.

Lemma truthy_positions_sorted l : forall i,
  StronglySorted lt (truthy_positions i l).
Proof.
  induction l as [|y l IH]; intros i; simpl; [constructor|].
  destruct (truthy y); [|apply IH]. constructor; [apply IH|].
  eapply Forall_impl; [apply truthy_positions_bounds|].
  intros x Hx. simpl in Hx. lia.
Qed.

Lemma seq_sorted n : forall s, StronglySorted lt (seq s n).
Proof.
  induction n as [|n IH]; intros s; simpl; constructor; [apply IH|].
  apply Forall_forall. intros x Hx. apply elem_of_seq in Hx. lia.
Qed.

(** The selected columns of a well-formed file ascend and lie inside
    it. *)
Lemma valid_index_columns d attr col_idx :
  loom_wf d ->
  valid_index d attr true = Ok col_idx ->
  StronglySorted lt col_idx /\ Forall (fun x => x < (shape d).2) col_idx.
Proof.
  intros [_ Hca]. unfold valid_index, get_attr_index.
  destruct attr as [[a|]|l]; simpl; [| |discriminate].
  - destruct (ca d !! a) as [arr|] eqn:Harr; [|discriminate].
    intros [= <-]. split; [apply truthy_positions_sorted|].
    eapply Forall_impl; [apply truthy_positions_bounds|].
    intros x Hx. simpl in Hx. rewrite (Hca a arr Harr) in Hx. lia.
  - intros [= <-]. split; [apply seq_sorted|].
    apply Forall_forall. intros x Hx. apply elem_of_seq in Hx. lia.
Qed.

(** ** The column attributes the streaming engine writes *)

(** One step of a computation that reads without touching the state:
    in a run that succeeds, the read succeeded. *)
Ltac lift_step H x Hx :=
  rewrite M_bind_unfold in H; unfold lift at 1 in H;
  lazymatch type of H with
  | context [match ?c with Ok _ => _ | Err _ => _ end] =>
      destruct c as [x|?] eqn:Hx; cbv beta iota zeta in H;
      [|discriminate H]
  end.

Lemma default_union_app (m1 m2 : gmap string (list scalar)) k :
  default [] (union_with (fun old new => Some (old ++ new)) m1 m2 !! k)
  = default [] (m1 !! k) ++ default [] (m2 !! k).
Proof.
  rewrite lookup_union_with.
  destruct (m1 !! k), (m2 !! k); simpl; rewrite ?app_nil_r; reflexivity.
Qed.

Lemma batch_add_sparse_ca dat row_attrs col_attrs append w w' :
  batch_add_sparse dat row_attrs col_attrs append w = (w', Ok tt) ->
  append = true \/ out_loom w = None ->
  forall k, world_ca w' k = world_ca w k ++ default [] (col_attrs !! k).
Proof.
  unfold batch_add_sparse, world_ca. intros H Hcase k.
  destruct append.
  - destruct (out_loom w) as [st|]; [|discriminate].
    destruct (_ =? _); [|discriminate]. injection H as <-. simpl.
    apply default_union_app.
  - destruct Hcase as [|Hnone]; [discriminate|]. rewrite Hnone.
    injection H as <-. reflexivity.
Qed.

Lemma col_attrs_lookup p (label : param) n cells k :
  default []
    ((if is_none label
      then <["OriginalFile" := np_repeat (PScalar (Some p)) n]>
             ({["CellID" := cells]} : gmap string (list scalar))
      else <["Modality" := np_repeat label n]>
             (<["OriginalFile" := np_repeat (PScalar (Some p)) n]>
                ({["CellID" := cells]} : gmap string (list scalar)))) !! k)
  = batch_attr true p label n cells k.
Proof.
  unfold batch_attr. simpl.
  destruct (decide (k = "Modality")) as [->|Hm].
  - destruct (is_none label).
    + rewrite lookup_insert_ne by discriminate.
      rewrite lookup_singleton_ne by discriminate. reflexivity.
    + rewrite lookup_insert_eq. reflexivity.
  - assert (Hrest : default []
      ((<["OriginalFile" := replicate n (Str p)]>
          ({["CellID" := cells]} : gmap string (list scalar))) !! k)
      = if decide (k = "OriginalFile") then replicate n (Str p)
        else if decide (k = "CellID") then cells else []).
    { destruct (decide (k = "OriginalFile")) as [->|Hf].
      - rewrite lookup_insert_eq. reflexivity.
      - rewrite lookup_insert_ne by congruence.
        destruct (decide (k = "CellID")) as [->|Hc].
        + rewrite lookup_singleton_eq. reflexivity.
        + rewrite lookup_singleton_ne by congruence. reflexivity. }
    destruct (is_none label); [exact Hrest|].
    rewrite lookup_insert_ne by congruence. exact Hrest.
Qed.

(** In a pass that succeeds, every view gave its sample identifiers, and
    each attribute array of the output grew by what the views added, in
    order. *)
Lemma add_batches_ca in_loom layer cell_attr label row_idx feat_ids out_ids
    feat_idx views : forall append w w',
  add_batches in_loom layer cell_attr label row_idx feat_ids out_ids
    feat_idx append views w = (w', Ok tt) ->
  append = true \/ out_loom w = None ->
  exists parts,
    Forall2 (fun v cells => view_ca v cell_attr = Ok cells) views parts /\
    forall k,
      world_ca w' k
      = world_ca w k ++
        mjoin (zip_with (fun v cells =>
                 batch_attr true (path in_loom) label (length (view_cols v))
                   cells k) views parts).
Proof.
  induction views as [|v rest IH]; intros append w w' H Hcase.
  - simpl in H. injection H as <-. exists []. split; [constructor|].
    intros k. simpl. rewrite app_nil_r. reflexivity.
  - simpl in H. lift_step H values Hvalues. lift_step H dat Hdat.
    lift_step H cells Hcells. rewrite M_bind_unfold in H.
    match type of H with
    | context [batch_add_sparse dat ?ra ?ca append w] =>
        pose proof (batch_add_sparse_ca dat ra ca append w) as Hca;
        destruct (batch_add_sparse dat ra ca append w) as [w1 [[]|e]]
    end; [|discriminate H].
    specialize (Hca w1 eq_refl Hcase).
    destruct (IH true w1 w' H (or_introl eq_refl)) as (parts & Hparts & Hk).
    exists (cells :: parts). split; [constructor; assumption|].
    intros k. rewrite Hk, Hca. simpl. rewrite <- app_assoc. f_equal.
    f_equal. apply col_attrs_lookup.
Qed.

Lemma np_repeat_app label n1 n2 :
  is_list label = false ->
  np_repeat label (n1 + n2) = np_repeat label n1 ++ np_repeat label n2.
Proof.
  destruct label as [v|l]; [|discriminate]. intros _. simpl.
  apply replicate_add.
Qed.

Lemma np_repeat_zero label : is_list label = false -> np_repeat label 0 = [].
Proof. destruct label; [reflexivity|discriminate]. Qed.

Lemma batch_attr_app low p label n1 n2 c1 c2 k :
  is_list label = false ->
  batch_attr low p label (n1 + n2) (c1 ++ c2) k
  = batch_attr low p label n1 c1 k ++ batch_attr low p label n2 c2 k.
Proof.
  intros Hl. unfold batch_attr.
  destruct (decide (k = "Modality")).
  - destruct (low && is_none label); [reflexivity|].
    apply np_repeat_app. exact Hl.
  - destruct (decide (k = "OriginalFile")); [apply replicate_add|].
    destruct (decide (k = "CellID")); reflexivity.
Qed.

Lemma batch_attr_zero low p label k :
  is_list label = false -> batch_attr low p label 0 [] k = [].
Proof.
  intros Hl. unfold batch_attr.
  destruct (decide (k = "Modality")).
  - destruct (low && is_none label); [reflexivity|].
    apply np_repeat_zero. exact Hl.
  - destruct (decide (k = "OriginalFile")); [reflexivity|].
    destruct (decide (k = "CellID")); reflexivity.
Qed.

(** What the views of a dataset add, block by block, is what the
    dataset adds as a whole. *)
Lemma batch_attr_views low p label k (views : list view)
    (parts : list (list scalar)) :
  is_list label = false ->
  length views = length parts ->
  mjoin (zip_with (fun v cells =>
           batch_attr low p label (length (view_cols v)) cells k)
           views parts)
  = batch_attr low p label (length (flat_map view_cols views))
      (mjoin parts) k.
Proof.
  intros Hl. revert parts.
  induction views as [|v views IH]; intros [|c parts] Hlen;
    try discriminate; simpl.
  - symmetry. apply batch_attr_zero. exact Hl.
  - rewrite length_app, batch_attr_app by exact Hl. f_equal.
    apply IH. simpl in Hlen. lia.
Qed.

Lemma rmapM_app {A B} (f : A -> result B) l1 l2 r1 r2 :
  rmapM f l1 = Ok r1 -> rmapM f l2 = Ok r2 ->
  rmapM f (l1 ++ l2) = Ok (r1 ++ r2).
Proof.
  revert r1. induction l1 as [|x l1 IH]; simpl; intros r1.
  - intros [= <-]. auto.
  - destruct (f x); simpl; [|discriminate].
    destruct (rmapM f l1) as [ys|]; simpl; [|discriminate].
    intros [= <-] H2. rewrite (IH ys eq_refl H2). reflexivity.
Qed.

Lemma index_array_views {A} (arr : list A) (views : list view) parts :
  Forall2 (fun v cells => index_array arr (view_cols v) = Ok cells)
    views parts ->
  index_array arr (flat_map view_cols views) = Ok (mjoin parts).
Proof.
  induction 1 as [|v cells views parts Hv _ IH]; simpl; [reflexivity|].
  apply rmapM_app; assumption.
Qed.

(** The sample identifiers the views gave are those of the dataset at
    its selected columns. *)
Lemma view_cells_dataset t col_idx views parts :
  column_index t = Ok col_idx ->
  flat_map view_cols views = col_idx ->
  Forall (fun v => view_ds v = t_loom t) views ->
  Forall2 (fun v cells => view_ca v (t_cell t) = Ok cells) views parts ->
  mjoin parts = result_get [] (dataset_cells t).
Proof.
  intros Hcol Hcover Hds Hparts. unfold dataset_cells. rewrite Hcol. simpl.
  destruct (attr_get (ca (t_loom t)) (t_cell t)) as [arr|e] eqn:Harr; simpl.
  - rewrite <- Hcover.
    rewrite (index_array_views arr views parts); [reflexivity|].
    clear Hcover. induction Hparts as [|v cells views parts Hv _ IH];
      [constructor|].
    inversion Hds as [|? ? Hv0 Hds']; subst.
    constructor; [|apply IH; exact Hds'].
    unfold view_ca in Hv. rewrite Hv0, Harr in Hv. exact Hv.
  - destruct Hparts as [|v cells views parts Hv _]; [reflexivity|].
    inversion Hds as [|? ? Hv0 _]; subst.
    unfold view_ca in Hv. rewrite Hv0, Harr in Hv. discriminate.
Qed.

Lemma low_mem_add_data_ca t rv bs gen_out w w' :
  low_mem_add_data (t_loom t) (t_layer t) (t_feat t) (t_cell t) (t_label t)
    (t_valid_ra t) (t_valid_ca t) rv bs gen_out w = (w', Ok tt) ->
  gen_out = false \/ out_loom w = None ->
  loom_wf (t_loom t) ->
  is_list (t_label t) = false ->
  forall k, world_ca w' k = world_ca w k ++ dataset_attr true t k.
Proof.
  intros H Hcase Hwf Hlabel k. unfold low_mem_add_data in H.
  lift_step H row_idx Hrow. lift_step H col_idx Hcol.
  rewrite M_bind_unfold in H.
  match type of H with
  | context [match ?c w with _ => _ end] =>
      assert (Hout : exists r, c w = (w, r))
  end.
  { destruct gen_out; [unfold lift; eauto|].
    rewrite M_bind_unfold. unfold connect_out, lift.
    destruct (out_loom w); eauto. }
  destruct Hout as [r Hr]. rewrite Hr in H.
  destruct r as [acc|e]; [|discriminate H].
  lift_step H ids Hids. lift_step H feat_idx Hidx. lift_step H views Hviews.
  destruct (valid_index_columns _ _ _ Hwf Hcol) as [Hsorted Hbound].
  destruct (scan_covers _ _ _ _ _ Hsorted Hbound Hviews) as [Hcover Hds].
  apply add_batches_ca in H as (parts & Hparts & Hk).
  2:{ destruct Hcase as [->|Hnone]; [left; reflexivity|right; exact Hnone]. }
  rewrite Hk. f_equal.
  rewrite batch_attr_views by
    (try exact Hlabel; eapply Forall2_length; eauto).
  unfold dataset_attr, column_index. rewrite Hcol, Hcover. f_equal.
  eapply view_cells_dataset; eauto.
Qed.

Lemma low_mem_targets_ca rv bs cfgs : forall w w',
  low_mem_targets rv bs cfgs w = (w', Ok tt) ->
  Forall (fun t => loom_wf (t_loom t)) cfgs ->
  Forall (fun t => is_list (t_label t) = false) cfgs ->
  forall k,
    world_ca w' k = world_ca w k ++ flat_map (fun t => dataset_attr true t k) cfgs.
Proof.
  induction cfgs as [|t rest IH]; intros w w' H Hwf Hlab k; simpl in *.
  - injection H as <-. rewrite app_nil_r. reflexivity.
  - rewrite M_bind_unfold in H.
    inversion Hwf as [|? ? Hwf0 Hwf']; subst.
    inversion Hlab as [|? ? Hlab0 Hlab']; subst.
    pose proof (low_mem_add_data_ca t rv bs false w) as Hstep.
    destruct (low_mem_add_data _ _ _ _ _ _ _ _ _ false w) as [w1 [[]|e]];
      [|discriminate H].
    rewrite (IH w1 w' H Hwf' Hlab' k).
    rewrite (Hstep w1 eq_refl (or_introl eq_refl) Hwf0 Hlab0 k).
    rewrite <- app_assoc. reflexivity.
Qed.

(** The column attributes of an output the streaming engine completes
    are, name by name, what the source and then each target add. *)
Lemma low_mem_integrate_ca a w cfgs :
  low_mem_integrate a fresh = (w, Ok tt) ->
  check_inputs a = Ok cfgs ->
  Forall (fun t => loom_wf (t_loom t)) (source_cfg a :: cfgs) ->
  Forall (fun t => is_list (t_label t) = false) cfgs ->
  forall k,
    world_ca w k
    = flat_map (fun t => dataset_attr true t k) (source_cfg a :: cfgs).
Proof.
  intros H Hcheck Hwf Hlab k. unfold low_mem_integrate in H.
  rewrite M_bind_unfold in H. unfold lift in H. rewrite Hcheck in H.
  cbv beta iota zeta in H. rewrite M_bind_unfold in H.
  inversion Hwf as [|? ? Hwf0 Hwf']; subst.
  pose proof (low_mem_add_data_ca (source_cfg a) (remove_version a)
                (batch_size a) true fresh) as Hstep.
  simpl in Hstep.
  remember (low_mem_add_data (loom_source a) (layer_source a) (feat_source a)
              (cell_source a) (PScalar (label_source a))
              (PScalar (valid_ra_source a)) (PScalar (valid_ca_source a))
              (remove_version a) (batch_size a) true fresh) as res eqn:Hres.
  clear Hres. destruct res as [w1 [[]|e]]; [|discriminate H].
  rewrite (low_mem_targets_ca _ _ cfgs w1 w H Hwf' Hlab k).
  rewrite (Hstep w1 eq_refl (or_intror eq_refl) Hwf0 eq_refl k).
  reflexivity.
Qed.

(** ** The column attributes the full-memory engine writes *)

Lemma concat_index frames table :
  concat frames = Ok table -> f_index table = flat_map f_index frames.
Proof.
  unfold concat. destruct frames as [|f0 rest]; [discriminate|].
  destruct (forallb _ rest); [intros [= <-]; reflexivity|].
  destruct (existsb _ _); [discriminate|]. intros [= <-]. reflexivity.
Qed.

Lemma high_mem_get_data_cells t rv fr :
  high_mem_get_data (t_loom t) (t_layer t) (t_feat t) (t_cell t)
    (t_valid_ra t) (t_valid_ca t) rv = Ok fr ->
  dataset_cells t = Ok (f_index fr).
Proof.
  unfold high_mem_get_data, dataset_cells, column_index.
  destruct (valid_index (t_loom t) (t_valid_ra t) false); simpl;
    [|discriminate].
  destruct (valid_index (t_loom t) (t_valid_ca t) true); simpl;
    [|discriminate].
  destruct (layer_get _ _); simpl; [|discriminate].
  destruct (attr_get (ra _) _); simpl; [|discriminate].
  destruct (index_array _ _); simpl; [|discriminate].
  destruct (attr_get (ca _) _); simpl; [|discriminate].
  destruct (index_array _ _); simpl; [|discriminate].
  intros [= <-]. reflexivity.
Qed.

(** What one dataset adds to the three lists. *)
Lemma high_mem_add_attrs rv ty acc t acc' :
  high_mem_add rv ty acc (t_loom t) (t_layer t) (t_feat t) (t_cell t)
    (t_label t) (t_valid_ra t) (t_valid_ca t) = Ok acc' ->
  exists fr,
    imputed_dat acc' = imputed_dat acc ++ [fr] /\
    f_index fr = dataset_attr false t "CellID" /\
    file_dat acc' = file_dat acc ++ [dataset_attr false t "OriginalFile"] /\
    (ty = true ->
     type_dat acc'
     = Some (default [] (type_dat acc) ++ [dataset_attr false t "Modality"])).
Proof.
  unfold high_mem_add.
  destruct (high_mem_get_data _ _ _ _ _ _ _) as [fr|] eqn:Hfr; simpl;
    [|discriminate].
  pose proof (high_mem_get_data_cells t rv fr Hfr) as Hcells.
  unfold high_mem_repeat_label, dataset_attr, column_index.
  rewrite Hcells.
  destruct (valid_index (t_loom t) (t_valid_ca t) true) as [col_idx|];
    simpl.
  2:{ destruct ty; discriminate. }
  destruct ty; simpl; intros [= <-]; exists fr; simpl;
    (split; [reflexivity|]); (split; [reflexivity|]);
    (split; [reflexivity|]); [reflexivity|discriminate].
Qed.

Lemma high_mem_targets_attrs rv cfgs : forall acc acc',
  high_mem_targets rv true acc cfgs = Ok acc' ->
  is_Some (type_dat acc) ->
  flat_map f_index (imputed_dat acc')
  = flat_map f_index (imputed_dat acc)
    ++ flat_map (fun t => dataset_attr false t "CellID") cfgs /\
  mjoin (file_dat acc')
  = mjoin (file_dat acc)
    ++ flat_map (fun t => dataset_attr false t "OriginalFile") cfgs /\
  exists types,
    type_dat acc' = Some types /\
    mjoin types
    = mjoin (default [] (type_dat acc))
      ++ flat_map (fun t => dataset_attr false t "Modality") cfgs.
Proof.
  induction cfgs as [|t rest IH]; intros acc acc' H [types Htypes]; simpl in H.
  - injection H as <-. simpl. rewrite !app_nil_r. rewrite Htypes.
    split; [reflexivity|]. split; [reflexivity|]. eauto.
  - destruct (high_mem_add rv true acc _ _ _ _ _ _ _) as [acc1|] eqn:E;
      simpl in H; [|discriminate].
    destruct (high_mem_add_attrs _ _ _ _ _ E) as (fr & Hi & Hc & Hf & Ht).
    specialize (Ht eq_refl).
    destruct (IH acc1 acc' H) as (Hi' & Hf' & types' & Ht' & Hm');
      [rewrite Ht; eauto|].
    rewrite Ht in Hm'. simpl in Hm'.
    rewrite Hi', Hf', Hi, Hf. simpl.
    rewrite !flat_map_app, !join_app. simpl. rewrite !app_nil_r, Hc.
    rewrite <- !app_assoc.
    split; [reflexivity|]. split; [reflexivity|].
    exists types'. split; [exact Ht'|].
    rewrite Hm', join_app. simpl. rewrite app_nil_r, <- app_assoc.
    reflexivity.
Qed.

Lemma high_mem_collect_attrs a acc cfgs :
  high_mem_collect a = Ok acc ->
  check_inputs a = Ok cfgs ->
  is_type_of a = true ->
  flat_map f_index (imputed_dat acc)
  = flat_map (fun t => dataset_attr false t "CellID") (source_cfg a :: cfgs) /\
  mjoin (file_dat acc)
  = flat_map (fun t => dataset_attr false t "OriginalFile")
      (source_cfg a :: cfgs) /\
  exists types,
    type_dat acc = Some types /\
    mjoin types
    = flat_map (fun t => dataset_attr false t "Modality")
        (source_cfg a :: cfgs).
Proof.
  unfold high_mem_collect. intros H Hc Hty. rewrite Hc, Hty in H.
  simpl in H.
  destruct (high_mem_add _ true _ _ _ _ _ _ _ _) as [acc1|] eqn:E;
    simpl in H; [|discriminate].
  destruct (high_mem_add_attrs _ _ _ (source_cfg a) _ E)
    as (fr & Hi & Hcells & Hf & Ht).
  specialize (Ht eq_refl). simpl in Hi, Hf, Ht.
  destruct (high_mem_targets_attrs _ _ _ _ H) as (Hi' & Hf' & types & Ht' & Hm');
    [rewrite Ht; eauto|].
  rewrite Ht in Hm'. simpl in Hm'. rewrite app_nil_r in Hm'.
  rewrite Hi', Hf', Hi, Hf. simpl. rewrite !app_nil_r, Hcells.
  split; [reflexivity|]. split; [reflexivity|]. eauto.
Qed.

Lemma dataset_attr_other low t k :
  k <> "Modality" -> k <> "OriginalFile" -> k <> "CellID" ->
  dataset_attr low t k = [].
Proof.
  intros H1 H2 H3. unfold dataset_attr, batch_attr.
  destruct (column_index t); [|reflexivity].
  destruct (decide (k = "Modality")); [contradiction|].
  destruct (decide (k = "OriginalFile")); [contradiction|].
  destruct (decide (k = "CellID")); [contradiction|reflexivity].
Qed.

Lemma flat_map_nil {A B} (f : A -> list B) (l : list A) :
  (forall x, f x = []) -> flat_map f l = [].
Proof.
  intros H. induction l as [|x l IH]; simpl; [reflexivity|].
  rewrite H, IH. reflexivity.
Qed.

(** The column attributes of the output of the full-memory engine are,
    name by name, what the source and then each target add. *)
Lemma high_mem_integrate_ca a st cfgs :
  high_mem_integrate a = Ok st ->
  check_inputs a = Ok cfgs ->
  forall k,
    column_attr st k
    = flat_map (fun t => dataset_attr false t k) (source_cfg a :: cfgs).
Proof.
  intros Hint Hcheck k.
  destruct (high_mem_integrate_inv a st Hint)
    as (acc & table & types & Hacc & Htable & Htypes & Hty & ->).
  destruct (high_mem_collect_attrs a acc cfgs Hacc Hcheck Hty)
    as (Hcells & Hfiles & types' & Htypes' & Hmod).
  rewrite Htypes in Htypes'. injection Htypes' as <-.
  unfold column_attr, loompy_create. cbn [st_ca].
  destruct (decide (k = "Modality")) as [->|Hm].
  { rewrite lookup_insert_eq. exact Hmod. }
  rewrite lookup_insert_ne by congruence.
  destruct (decide (k = "OriginalFile")) as [->|Hf].
  { rewrite lookup_insert_eq. exact Hfiles. }
  rewrite lookup_insert_ne by congruence.
  destruct (decide (k = "CellID")) as [->|Hc].
  { rewrite lookup_singleton_eq, (concat_index _ _ Htable). exact Hcells. }
  rewrite lookup_singleton_ne by congruence. symmetry.
  apply flat_map_nil. intros t. apply dataset_attr_other; assumption.
Qed.

(** C6. The column attribute arrays of the output (sample identifier,
    originating file, modality) are, name by name, the concatenation of
    the arrays of the datasets in arrival order, the source first and
    then each target; nothing is reordered, merged or dropped, so sample
    identifiers that occur in several datasets stay as they are. *)
Theorem C6_column_attributes a w st cfgs :
  integrate_data a fresh = (w, Ok tt) ->
  out_loom w = Some st ->
  check_inputs a = Ok cfgs ->
  (low_mem a = true ->
   Forall (fun t => loom_wf (t_loom t)) (source_cfg a :: cfgs) /\
   Forall (fun t => is_list (t_label t) = false) cfgs) ->
  forall name,
    column_attr st name
    = flat_map (fun t => dataset_attr (low_mem a) t name)
        (source_cfg a :: cfgs).
Proof.
  intros Hrun Hst Hcheck Hlow name. unfold integrate_data in Hrun.
  destruct (low_mem a).
  - destruct (Hlow eq_refl) as [Hwf Hlab].
    pose proof (low_mem_integrate_ca a w cfgs Hrun Hcheck Hwf Hlab name)
      as Hca.
    unfold world_ca in Hca. rewrite Hst in Hca. exact Hca.
  - destruct (high_mem_integrate a) as [st'|e] eqn:Hint; [|discriminate].
    injection Hrun as <-. simpl in Hst. injection Hst as ->.
    apply high_mem_integrate_ca; assumption.
Qed.

Lemma example_loom_wf p feats cells m : loom_wf (example_loom p feats cells m).
Proof.
  split; intros k arr H; simpl in *;
    apply lookup_singleton_Some in H as [_ <-];
    apply length_map.
Qed.

Lemma C6_column_attributes_witness :
  column_attr ex_store_same_cells "CellID"
  = flat_map (fun t => dataset_attr (low_mem ex_args_same_cells) t "CellID")
      (source_cfg ex_args_same_cells :: [ex_cfg_same_cells]).
Proof.
  refine (C6_column_attributes ex_args_same_cells
            (integrate_data ex_args_same_cells fresh).1
            ex_store_same_cells [ex_cfg_same_cells] _ _ _ _ "CellID").
  - vm_compute. reflexivity.
  - vm_compute. reflexivity.
  - vm_compute. reflexivity.
  - intros _. split.
    + repeat constructor; apply example_loom_wf.
    + repeat constructor.
Defined.

(** The source and the target of this merge both name their samples s1
    and s2; the output keeps all four, in arrival order. *)
Example C6_example_duplicates :
  column_attr ex_store_same_cells "CellID"
  = [Str "s1"; Str "s2"; Str "s1"; Str "s2"] /\
  column_attr ex_store_same_cells "OriginalFile"
  = [Str "source.loom"; Str "source.loom";
     Str "target.loom"; Str "target.loom"] /\
  column_attr ex_store_same_cells "Modality"
  = [Str "rna"; Str "rna"; Str "atac"; Str "atac"].
Proof. repeat split; vm_compute; reflexivity. Qed.

(** ** Dense values of blocks *)

Lemma sum_filter_app (P : nat * nat * Z -> Prop)
    `{!forall t, Decision (P t)} (l1 l2 : list (nat * nat * Z)) :
  foldr Z.add 0%Z (map (fun t => t.2) (filter P (l1 ++ l2)))
  = (foldr Z.add 0%Z (map (fun t => t.2) (filter P l1))
     + foldr Z.add 0%Z (map (fun t => t.2) (filter P l2)))%Z.
Proof.
  rewrite filter_app, map_app.
  induction (map (fun t : nat * nat * Z => t.2) (filter P l1)) as [|z l IH];
    simpl; [reflexivity|]. rewrite IH. lia.
Qed.

Lemma sum_filter_flat_map {A} (P : nat * nat * Z -> Prop)
    `{!forall t, Decision (P t)} (g : A -> list (nat * nat * Z)) (l : list A) :
  foldr Z.add 0%Z (map (fun t => t.2) (filter P (flat_map g l)))
  = foldr (fun x acc =>
             (foldr Z.add 0%Z (map (fun t => t.2) (filter P (g x))) + acc)%Z)
      0%Z l.
Proof.
  induction l as [|x l IH]; simpl; [reflexivity|].
  rewrite sum_filter_app, IH. reflexivity.
Qed.

Lemma sum_enumerate_zero {A} (h : nat * A -> Z) (l : list A) : forall s,
  (forall i' x, s <= i' -> h (i', x) = 0%Z) ->
  foldr (fun p acc => (h p + acc)%Z) 0%Z (zip (seq s (length l)) l) = 0%Z.
Proof.
  induction l as [|y l IH]; intros s Hz; simpl; [reflexivity|].
  rewrite (Hz s y) by lia. rewrite IH; [reflexivity|].
  intros i' x Hle. apply Hz. lia.
Qed.

Lemma sum_enumerate_single {A} (h : nat * A -> Z) (l : list A) :
  forall s i xi,
  l !! i = Some xi ->
  (forall i' x, i' <> s + i -> h (i', x) = 0%Z) ->
  foldr (fun p acc => (h p + acc)%Z) 0%Z (zip (seq s (length l)) l)
  = h (s + i, xi).
Proof.
  induction l as [|y l IH]; intros s i xi Hi Hz.
  - rewrite lookup_nil in Hi. discriminate.
  - simpl. destruct i as [|i]; simpl in Hi.
    + injection Hi as ->. rewrite Nat.add_0_r.
      rewrite sum_enumerate_zero; [apply Z.add_0_r|].
      intros i' x Hle. apply Hz. lia.
    + rewrite (Hz s y) by lia.
      rewrite (IH (S s) i xi Hi).
      * rewrite Z.add_0_l. replace (S s + i) with (s + S i) by lia.
        reflexivity.
      * intros i' x Hne. apply Hz. lia.
Qed.

Lemma filter_none {A} (P : A -> Prop) `{!forall x, Decision (P x)}
    (l : list A) :
  (forall x, x ∈ l -> ~ P x) -> filter P l = [].
Proof.
  induction l as [|x l IH]; intros Hn; [reflexivity|].
  rewrite filter_cons_False by (apply Hn; left).
  apply IH. intros y Hy. apply Hn. right. exact Hy.
Qed.

(** The dense value of what [sparse] builds is the value of the layer at
    the selected row and column. *)
Lemma coo_at_sparse values rows cols i j ri cj :
  rows !! i = Some ri -> cols !! j = Some cj ->
  coo_at (sparse values rows cols) i j = values ri cj.
Proof.
  intros Hi Hj. unfold coo_at.
  assert (Htriples : coo_triples (sparse values rows cols)
                     = dense_entries values rows cols).
  { unfold coo_triples, sparse. simpl.
    induction (dense_entries values rows cols) as [|[[a b] c] l IH];
      simpl; [reflexivity|]. f_equal. exact IH. }
  rewrite Htriples. unfold dense_entries.
  rewrite sum_filter_flat_map.
  rewrite (sum_enumerate_single _ rows 0 i ri Hi).
  - simpl. rewrite sum_filter_flat_map.
    rewrite (sum_enumerate_single _ cols 0 j cj Hj).
    + simpl. destruct (Z.eqb_spec (values ri cj) 0) as [Hz|Hz].
      * simpl. symmetry. exact Hz.
      * rewrite filter_cons_True by (simpl; auto). simpl. lia.
    + intros j' c Hne. simpl.
      rewrite filter_none; [reflexivity|].
      intros t Ht. destruct (Z.eqb (values ri c) 0).
      * apply elem_of_nil in Ht. destruct Ht.
      * apply list_elem_of_singleton in Ht. subst t. simpl. lia.
  - intros i' r Hne. simpl.
    rewrite filter_none; [reflexivity|].
    intros t Ht. apply list_elem_of_In, in_flat_map in Ht as ([j' c] & _ & Ht).
    simpl in Ht. destruct (Z.eqb (values r c) 0); [destruct Ht|].
    destruct Ht as [<-|[]]. simpl. lia.
Qed.

Lemma filter_ext_elem {A} (P Q : A -> Prop) `{!forall x, Decision (P x)}
    `{!forall x, Decision (Q x)} (l : list A) :
  (forall x, x ∈ l -> P x <-> Q x) -> filter P l = filter Q l.
Proof.
  induction l as [|x l IH]; intros Hext; [reflexivity|].
  rewrite !filter_cons.
  assert (Hx : P x <-> Q x) by (apply Hext; left).
  rewrite IH by (intros y Hy; apply Hext; right; exact Hy).
  destruct (decide (P x)), (decide (Q x)); tauto.
Qed.

Lemma filter_map_comm {A B} (g : A -> B) (P : B -> Prop)
    `{!forall y, Decision (P y)} (l : list A) :
  filter P (map g l) = map g (filter (fun x => P (g x)) l).
Proof.
  induction l as [|x l IH]; [reflexivity|]. simpl.
  rewrite !filter_cons, IH. destruct (decide (P (g x))); reflexivity.
Qed.

(** Sending the rows through a dictionary that is one-to-one on the rows
    present moves the dense values along. *)
Lemma coo_at_remap feat_idx dat dat' i r j :
  coo_triples dat' = map (remap_triple feat_idx) (coo_triples dat) ->
  feat_idx !! i = Some r ->
  (forall t, t ∈ coo_triples dat ->
     default t.1.1 (feat_idx !! t.1.1) = r -> t.1.1 = i) ->
  coo_at dat' r j = coo_at dat i j.
Proof.
  intros Ht Hi Hinj. unfold coo_at. rewrite Ht, filter_map_comm, map_map.
  simpl. f_equal. f_equal. apply filter_ext_elem. intros t Hin. simpl.
  split.
  - intros [Hr Hc]. split; [apply Hinj; assumption|exact Hc].
  - intros [Hr Hc]. split; [|exact Hc]. rewrite Hr, Hi. reflexivity.
Qed.

Lemma zip_with_map_same {A B C D} (f : B -> C -> D) (F : A -> B) (G : A -> C)
    (l : list A) :
  zip_with f (map F l) (map G l) = map (fun x => f (F x) (G x)) l.
Proof. induction l as [|x l IH]; simpl; [reflexivity|]. f_equal. exact IH. Qed.

Lemma transpose_values_app n (A B : list (list cell)) :
  zip_with app (transpose_values n A) (transpose_values n B)
  = transpose_values n (A ++ B).
Proof.
  unfold transpose_values. rewrite zip_with_map_same.
  apply map_ext. intros j. rewrite map_app. reflexivity.
Qed.

(** A block whose dense values are given column by column. *)
Lemma todense_transpose dat (cols : list (list cell)) n :
  coo_shape dat = (n, length cols) ->
  (forall j col r, cols !! j = Some col -> r < n ->
     col !! r = Some (Val (coo_at dat r j))) ->
  map (map Val) (todense dat) = transpose_values n cols.
Proof.
  intros Hshape Hcols. unfold todense, transpose_values.
  rewrite Hshape. simpl. rewrite map_map. apply map_ext_in.
  intros r Hr. apply in_seq in Hr. apply list_eq. intros j.
  rewrite map_map, !list_lookup_fmap.
  destruct (cols !! j) as [col|] eqn:Hcol; simpl.
  - rewrite lookup_seq_lt by (eapply lookup_lt_Some; eauto). simpl.
    rewrite (Hcols j col r Hcol) by lia. reflexivity.
  - rewrite lookup_seq_ge by (apply lookup_ge_None; exact Hcol).
    reflexivity.
Qed.

Lemma sample_column_lookup values row_idx ids canon c r x i ri :
  canon !! r = Some x ->
  positions_of x ids = [i] ->
  row_idx !! i = Some ri ->
  sample_column values row_idx ids canon c !! r = Some (Val (values ri c)).
Proof.
  intros Hr Hpos Hi. unfold sample_column.
  rewrite list_lookup_fmap, Hr. simpl. rewrite Hpos, Hi. reflexivity.
Qed.

Lemma coo_triples_row dat t :
  t ∈ coo_triples dat -> t.1.1 ∈ coo_row dat.
Proof.
  unfold coo_triples. intros Hin. destruct t as [[r c] v].
  apply elem_of_zip_l in Hin. apply elem_of_zip_l in Hin. exact Hin.
Qed.

(** The block of a view of an appending call, once its rows are sent to
    their canonical positions, holds under every canonical feature the
    value the dataset has for it. *)
Lemma block_appended values row_idx ids canon cols feat_idx :
  NoDup ids -> ids ≡ₚ canon -> length row_idx = length ids ->
  feat_idx_of ids canon = Ok feat_idx ->
  exists dat,
    reorder feat_idx
      (sparse (view_values values cols) row_idx (seq 0 (length cols)))
    = Ok dat /\
    coo_shape dat = (length canon, length cols) /\
    map (map Val) (todense dat)
    = transpose_values (length canon)
        (map (sample_column values row_idx ids canon) cols).
Proof.
  intros Hnd Hperm Hlen Hidx.
  destruct (feat_idx_of_aligned ids canon Hnd Hperm) as (fi & Hfi & Hal).
  rewrite Hidx in Hfi. injection Hfi as <-.
  assert (Hndc : NoDup canon) by (rewrite <- Hperm; exact Hnd).
  assert (Hlenc : length canon = length ids)
    by (symmetry; apply Permutation_length; exact Hperm).
  set (dat0 := sparse (view_values values cols) row_idx
                 (seq 0 (length cols))).
  assert (Hwf : coo_wf dat0) by apply sparse_wf.
  assert (Hrows : Forall (fun r => r < length ids) (coo_row dat0)).
  { destruct Hwf as (_ & _ & Hr & _). eapply Forall_impl; [exact Hr|].
    intros r Hr'. simpl in Hr'. lia. }
  destruct (reorder_ok feat_idx dat0 Hwf) as [dat Hdat].
  { eapply Forall_impl; [exact Hrows|]. intros r Hr. simpl.
    destruct (lookup_lt_is_Some_2 ids r Hr) as [x Hx].
    destruct (Hal r x Hx) as (r' & -> & Hr'). simpl.
    apply lookup_lt_Some in Hr'. lia. }
  exists dat. split; [exact Hdat|].
  destruct (reorder_triples feat_idx dat0 dat Hdat) as [Htr Hsh].
  assert (Hshape : coo_shape dat = (length canon, length cols)).
  { rewrite Hsh. unfold dat0, sparse. simpl. rewrite length_seq.
    f_equal. lia. }
  split; [exact Hshape|].
  apply todense_transpose.
  { rewrite length_map. exact Hshape. }
  intros j col r Hcol Hr.
  rewrite list_lookup_fmap in Hcol.
  destruct (cols !! j) as [cj|] eqn:Hcj; [|discriminate].
  injection Hcol as <-.
  destruct (lookup_lt_is_Some_2 canon r Hr) as [x Hx].
  assert (Hin : x ∈ ids).
  { rewrite Hperm. apply list_elem_of_lookup. eauto. }
  apply list_elem_of_lookup in Hin as [i Hi].
  assert (Hi' : i < length row_idx)
    by (rewrite Hlen; eapply lookup_lt_Some; eauto).
  destruct (lookup_lt_is_Some_2 row_idx i Hi') as [ri Hri].
  rewrite (sample_column_lookup values row_idx ids canon cj r x i ri Hx
             (positions_of_NoDup x ids i Hnd Hi) Hri).
  f_equal. f_equal.
  rewrite (coo_at_remap feat_idx dat0 dat i r j Htr).
  - unfold dat0. rewrite (coo_at_sparse _ row_idx _ i j ri j Hri).
    + unfold view_values. rewrite Hcj. reflexivity.
    + apply lookup_seq_lt. eapply lookup_lt_Some; eauto.
  - destruct (Hal i x Hi) as (r' & Hr' & Hc').
    rewrite Hr'. f_equal. exact (NoDup_lookup canon r' r x Hndc Hc' Hx).
  - intros t Ht Hdef. apply coo_triples_row in Ht.
    rewrite Forall_forall in Hrows. specialize (Hrows _ Ht).
    destruct (lookup_lt_is_Some_2 ids _ Hrows) as [y Hy].
    destruct (Hal _ y Hy) as (r' & Hr' & Hc').
    rewrite Hr' in Hdef. simpl in Hdef. subst r'.
    assert (y = x) by congruence. subst y.
    exact (NoDup_lookup ids _ i x Hnd Hy Hi).
Qed.

(** The block that creates the file is written as read: its rows are the
    dataset's own features. *)
Lemma block_created values row_idx ids cols :
  NoDup ids -> length row_idx = length ids ->
  let dat := sparse (view_values values cols) row_idx (seq 0 (length cols)) in
  coo_shape dat = (length ids, length cols) /\
  map (map Val) (todense dat)
  = transpose_values (length ids)
      (map (sample_column values row_idx ids ids) cols).
Proof.
  intros Hnd Hlen dat.
  assert (Hshape : coo_shape dat = (length ids, length cols)).
  { unfold dat, sparse. simpl. rewrite length_seq. f_equal. exact Hlen. }
  split; [exact Hshape|].
  apply todense_transpose.
  { rewrite length_map. exact Hshape. }
  intros j col r Hcol Hr.
  rewrite list_lookup_fmap in Hcol.
  destruct (cols !! j) as [cj|] eqn:Hcj; [|discriminate].
  injection Hcol as <-.
  destruct (lookup_lt_is_Some_2 ids r Hr) as [x Hx].
  assert (Hr' : r < length row_idx) by lia.
  destruct (lookup_lt_is_Some_2 row_idx r Hr') as [ri Hri].
  rewrite (sample_column_lookup values row_idx ids ids cj r x r ri Hx
             (positions_of_NoDup x ids r Hnd Hx) Hri).
  f_equal. f_equal. unfold dat.
  rewrite (coo_at_sparse _ row_idx _ r j ri j Hri).
  - unfold view_values. rewrite Hcj. reflexivity.
  - apply lookup_seq_lt. eapply lookup_lt_Some; eauto.
Qed.

(** ** The writer keeps the file a table of samples *)

Lemma index_array_ok {A} (arr : list A) idx :
  Forall (fun i => i < length arr) idx ->
  exists l, index_array arr idx = Ok l.
Proof.
  unfold index_array. induction idx as [|i idx IH]; intros Hall.
  - exists []. reflexivity.
  - apply Forall_cons in Hall as [Hi Hall].
    destruct (IH Hall) as [l Hl].
    destruct (lookup_lt_is_Some_2 arr i Hi) as [x Hx].
    exists (x :: l). simpl. rewrite Hx. simpl. rewrite Hl. reflexivity.
Qed.

Lemma index_array_bounds {A} (arr : list A) idx l :
  index_array arr idx = Ok l ->
  Forall (fun i => i < length arr) idx /\ length l = length idx.
Proof.
  unfold index_array. revert l.
  induction idx as [|i idx IH]; intros l H; simpl in H.
  - injection H as <-. split; [constructor|reflexivity].
  - destruct (arr !! i) as [x|] eqn:Hx; [|discriminate]. simpl in H.
    destruct (rmapM _ idx) as [l'|] eqn:Hl; [|discriminate]. simpl in H.
    injection H as <-. destruct (IH l' eq_refl) as [Hall Hlen].
    split; [|simpl; congruence].
    constructor; [eapply lookup_lt_Some; eauto|exact Hall].
Qed.

Lemma batch_add_sparse_append_holds canon cols block dat row_attrs col_attrs
    w :
  store_holds canon cols w ->
  coo_shape dat = (length canon, length block) ->
  map (map Val) (todense dat) = transpose_values (length canon) block ->
  exists w',
    batch_add_sparse dat row_attrs col_attrs true w = (w', Ok tt) /\
    store_holds canon (cols ++ block) w'.
Proof.
  intros (st & Hst & Hshape & Hmat & Hra) Hdat Hdense.
  unfold batch_add_sparse. rewrite Hst, Hdat, Hshape. simpl.
  rewrite Nat.eqb_refl. eexists. split; [reflexivity|].
  eexists. split; [reflexivity|]. unfold append_columns. simpl.
  rewrite Hshape, Hdat. simpl. split; [|split].
  - rewrite length_app. reflexivity.
  - rewrite <- transpose_values_app, <- Hdense, Hmat.
    symmetry. apply (zip_with_fmap_r app (map Val)).
  - exact Hra.
Qed.

Lemma batch_add_sparse_create_holds canon block dat col_attrs w :
  coo_shape dat = (length canon, length block) ->
  map (map Val) (todense dat) = transpose_values (length canon) block ->
  exists w',
    batch_add_sparse dat {["Accession" := canon]} col_attrs false w
    = (w', Ok tt) /\
    store_holds canon block w'.
Proof.
  intros Hdat Hdense. unfold batch_add_sparse. simpl.
  eexists. split; [reflexivity|].
  eexists. split; [reflexivity|]. simpl.
  split; [exact Hdat|]. split; [exact Hdense|].
  apply lookup_singleton_eq.
Qed.

Lemma view_layer_values v layer values :
  layer_get (view_ds v) layer = Ok values ->
  view_layer v layer = Ok (view_values values (view_cols v)).
Proof. intros H. unfold view_layer. rewrite H. reflexivity. Qed.

(** The blocks of an appending pass add the samples of the views, in
    order, each under the canonical features. *)
Lemma add_batches_holds ds layer cell_attr label values cells row_idx ids
    canon feat_ids out_ids feat_idx :
  layer_get ds layer = Ok values ->
  attr_get (ca ds) cell_attr = Ok cells ->
  NoDup ids -> ids ≡ₚ canon -> length row_idx = length ids ->
  feat_idx_of ids canon = Ok feat_idx ->
  forall views cols w,
    Forall (fun v => view_ds v = ds /\
                     Forall (fun c => c < length cells) (view_cols v))
      views ->
    store_holds canon cols w ->
    exists w',
      add_batches ds layer cell_attr label row_idx feat_ids out_ids
        feat_idx true views w = (w', Ok tt) /\
      store_holds canon
        (cols ++ map (sample_column values row_idx ids canon)
                   (flat_map view_cols views)) w'.
Proof.
  intros Hvalues Hcells Hnd Hperm Hlen Hidx.
  induction views as [|v rest IH]; intros cols w Hviews Hw.
  - exists w. split; [reflexivity|]. simpl. rewrite app_nil_r. exact Hw.
  - apply Forall_cons in Hviews as [[Hds Hcols] Hviews].
    destruct (block_appended values row_idx ids canon (view_cols v)
                feat_idx Hnd Hperm Hlen Hidx)
      as (dat & Hdat & Hshape & Hdense).
    destruct (index_array_ok cells (view_cols v) Hcols) as [cs Hcs].
    assert (Hshape' : coo_shape dat
              = (length canon,
                 length (map (sample_column values row_idx ids canon)
                           (view_cols v))))
      by (rewrite length_map; exact Hshape).
    simpl.
    rewrite (bind_lift_ok _ (view_values values (view_cols v)))
      by (apply view_layer_values; rewrite Hds; exact Hvalues).
    unfold view_shape. simpl.
    rewrite (bind_lift_ok _ dat) by exact Hdat.
    rewrite (bind_lift_ok _ cs)
      by (unfold view_ca; rewrite Hds, Hcells; exact Hcs).
    rewrite M_bind_unfold.
    match goal with
    | |- context [batch_add_sparse dat ?ra ?ca true w] =>
        destruct (batch_add_sparse_append_holds canon cols _ dat ra ca w
                    Hw Hshape' Hdense) as (w1 & -> & Hw1)
    end.
    destruct (IH _ w1 Hviews Hw1) as (w' & Hrun & Hw').
    exists w'. split; [exact Hrun|].
    rewrite map_app, app_assoc. exact Hw'.
Qed.

(** ** The streaming engine, run forward *)

(** With a positive batch size the windows reach the end of the file. *)
Lemma scan_from_ok ncols items : forall fuel ix cpc,
  0 < cpc -> ncols - ix <= fuel ->
  exists sels, scan_from fuel ix cpc ncols items = Ok sels.
Proof.
  induction fuel as [|fuel IH]; intros ix cpc Hcpc Hfuel; simpl.
  - destruct (ix <? ncols) eqn:Hlt; [|eauto].
    apply Nat.ltb_lt in Hlt. lia.
  - destruct (ix <? ncols) eqn:Hlt; [|eauto].
    apply Nat.ltb_lt in Hlt.
    destruct (IH (ix + Nat.min (ncols - ix) cpc) (Nat.min (ncols - ix) cpc))
      as [sels Hsels]; [lia|lia|].
    rewrite Hsels. simpl. eauto.
Qed.

Lemma scan_ok ds items layer values bs :
  0 < bs -> layer_get ds layer = Ok values ->
  exists views, scan ds items (make_layer_list layer) bs = Ok views.
Proof.
  intros Hbs Hvalues. unfold scan, make_layer_list. simpl.
  rewrite Hvalues. simpl.
  destruct (scan_from_ok (shape ds).2 items (shape ds).2 0 bs Hbs)
    as [sels Hsels]; [lia|].
  rewrite Hsels. simpl. eauto.
Qed.

Lemma Forall_flat_map_parts {A B} (P : B -> Prop) (f : A -> list B) l :
  Forall P (flat_map f l) -> Forall (fun x => Forall P (f x)) l.
Proof.
  induction l as [|x l IH]; simpl; intros H; [constructor|].
  apply Forall_app in H as [Hx Hl]. constructor; [exact Hx|auto].
Qed.

Lemma read_dataset_inv (rv : bool) t rd :
  read_dataset rv t = Ok rd ->
  exists feats index cells,
    valid_index (t_loom t) (t_valid_ra t) false = Ok (r_row_idx rd) /\
    valid_index (t_loom t) (t_valid_ca t) true = Ok (r_col_idx rd) /\
    layer_get (t_loom t) (t_layer t) = Ok (r_values rd) /\
    attr_get (ra (t_loom t)) (t_feat t) = Ok feats /\
    index_array feats (r_row_idx rd) = Ok index /\
    r_ids rd = (if rv then remove_gene_version index else index) /\
    attr_get (ca (t_loom t)) (t_cell t) = Ok cells /\
    index_array cells (r_col_idx rd) = Ok (r_cells rd).
Proof.
  unfold read_dataset. intros H.
  destruct (valid_index (t_loom t) (t_valid_ra t) false)
    as [row_idx|] eqn:Hrow; [|discriminate]. simpl in H.
  destruct (valid_index (t_loom t) (t_valid_ca t) true)
    as [col_idx|] eqn:Hcol; [|discriminate]. simpl in H.
  destruct (layer_get (t_loom t) (t_layer t)) as [values|] eqn:Hvalues;
    [|discriminate]. simpl in H.
  destruct (attr_get (ra (t_loom t)) (t_feat t)) as [feats|] eqn:Hfeats;
    [|discriminate]. simpl in H.
  destruct (index_array feats row_idx) as [index|] eqn:Hindex;
    [|discriminate]. simpl in H.
  destruct (attr_get (ca (t_loom t)) (t_cell t)) as [cells|] eqn:Hcells;
    [|discriminate]. simpl in H.
  destruct (index_array cells col_idx) as [columns|] eqn:Hcolumns;
    [|discriminate]. simpl in H.
  injection H as <-. simpl. exists feats, index, cells.
  repeat split; assumption.
Qed.

Lemma read_dataset_feature_ids (rv : bool) t rd :
  read_dataset rv t = Ok rd -> feature_ids rv t = Ok (r_ids rd).
Proof.
  intros H.
  destruct (read_dataset_inv rv t rd H)
    as (feats & index & cells & Hrow & _ & _ & Hfeats & Hindex & Hids & _).
  unfold feature_ids. rewrite Hrow. simpl. rewrite Hfeats. simpl.
  rewrite Hindex. simpl. rewrite Hids. reflexivity.
Qed.

Lemma read_dataset_rows (rv : bool) t rd :
  read_dataset rv t = Ok rd -> length (r_row_idx rd) = length (r_ids rd).
Proof.
  intros H.
  destruct (read_dataset_inv rv t rd H)
    as (feats & index & cells & _ & _ & _ & _ & Hindex & Hids & _).
  apply index_array_bounds in Hindex as [_ Hlen].
  rewrite Hids. destruct rv; [unfold remove_gene_version;
                               rewrite length_map|]; congruence.
Qed.

(** The views a dataset is scanned in: together they are its selected
    columns, each within the sample identifiers. *)
Lemma read_dataset_views (rv : bool) t rd cells bs :
  read_dataset rv t = Ok rd ->
  loom_wf (t_loom t) -> 0 < bs ->
  attr_get (ca (t_loom t)) (t_cell t) = Ok cells ->
  exists views,
    scan (t_loom t) (r_col_idx rd) (make_layer_list (t_layer t)) bs
    = Ok views /\
    flat_map view_cols views = r_col_idx rd /\
    Forall (fun v => view_ds v = t_loom t /\
                     Forall (fun c => c < length cells) (view_cols v))
      views.
Proof.
  intros H Hwf Hbs Hcells.
  destruct (read_dataset_inv rv t rd H)
    as (feats & index & cells' & _ & Hcol & Hvalues & _ & _ & _ & Hcells'
        & Hcolumns).
  rewrite Hcells in Hcells'. injection Hcells' as <-.
  destruct (scan_ok (t_loom t) (r_col_idx rd) (t_layer t) (r_values rd) bs
              Hbs Hvalues) as [views Hviews].
  destruct (valid_index_columns _ _ _ Hwf Hcol) as [Hsorted Hbound].
  destruct (scan_covers _ _ _ _ _ Hsorted Hbound Hviews) as [Hflat Hds].
  exists views. split; [exact Hviews|]. split; [exact Hflat|].
  apply index_array_bounds in Hcolumns as [Hall _].
  rewrite <- Hflat in Hall. apply Forall_flat_map_parts in Hall.
  rewrite Forall_forall in Hds, Hall. apply Forall_forall.
  intros v Hv. split; [apply Hds|apply Hall]; exact Hv.
Qed.

(** A call for a target adds the target's samples, each under the
    canonical features, to a file that holds the canonical features. *)
Lemma low_mem_add_data_holds (rv : bool) bs t rd canon cols w :
  read_dataset rv t = Ok rd ->
  loom_wf (t_loom t) -> 0 < bs ->
  NoDup (r_ids rd) -> r_ids rd ≡ₚ canon ->
  (if rv then remove_gene_version canon else canon) = canon ->
  store_holds canon cols w ->
  exists w',
    low_mem_add_data (t_loom t) (t_layer t) (t_feat t) (t_cell t)
      (t_label t) (t_valid_ra t) (t_valid_ca t) rv bs false w
    = (w', Ok tt) /\
    store_holds canon (cols ++ dataset_columns canon rd) w'.
Proof.
  intros Hread Hwf Hbs Hnd Hperm Hstrip Hw.
  destruct (read_dataset_inv rv t rd Hread)
    as (feats & index & cells & Hrow & Hcol & Hvalues & Hfeats & Hindex
        & Hids & Hcells & Hcolumns).
  destruct (read_dataset_views rv t rd cells bs Hread Hwf Hbs Hcells)
    as (views & Hviews & Hflat & Hall).
  destruct (feat_idx_of_aligned (r_ids rd) canon Hnd Hperm)
    as (feat_idx & Hidx & _).
  pose proof Hw as (st & Hst & _ & _ & Hra).
  unfold low_mem_add_data.
  rewrite (bind_lift_ok _ _ _ _ Hrow), (bind_lift_ok _ _ _ _ Hcol).
  cbv beta iota zeta.
  rewrite M_bind_unfold, (bind_connect_out _ w st Hst).
  unfold lift at 1. unfold attr_get at 1. rewrite Hra.
  cbv beta iota zeta. rewrite Hstrip.
  rewrite (bind_lift_ok _ index)
    by (rewrite Hfeats; simpl; exact Hindex).
  rewrite <- Hids.
  rewrite (bind_lift_ok _ _ _ _ Hidx), (bind_lift_ok _ _ _ _ Hviews).
  destruct (add_batches_holds (t_loom t) (t_layer t) (t_cell t) (t_label t)
              (r_values rd) cells (r_row_idx rd) (r_ids rd) canon
              (r_ids rd) canon feat_idx Hvalues Hcells Hnd Hperm
              (read_dataset_rows rv t rd Hread) Hidx views cols w Hall Hw)
    as (w' & Hrun & Hw').
  exists w'. split; [exact Hrun|].
  rewrite Hflat in Hw'. exact Hw'.
Qed.

(** The call for the source creates the file with the source's features
    and samples. *)
Lemma low_mem_add_data_source (rv : bool) bs t rd w :
  read_dataset rv t = Ok rd ->
  t_feat t = Some "Accession" ->
  loom_wf (t_loom t) -> 0 < bs ->
  NoDup (r_ids rd) -> r_col_idx rd <> [] ->
  exists w',
    low_mem_add_data (t_loom t) (t_layer t) (t_feat t) (t_cell t)
      (t_label t) (t_valid_ra t) (t_valid_ca t) rv bs true w
    = (w', Ok tt) /\
    store_holds (r_ids rd) (dataset_columns (r_ids rd) rd) w'.
Proof.
  intros Hread Hfeat Hwf Hbs Hnd Hsome.
  destruct (read_dataset_inv rv t rd Hread)
    as (feats & index & cells & Hrow & Hcol & Hvalues & Hfeats & Hindex
        & Hids & Hcells & Hcolumns).
  destruct (read_dataset_views rv t rd cells bs Hread Hwf Hbs Hcells)
    as (views & Hviews & Hflat & Hall).
  destruct (feat_idx_of_aligned (r_ids rd) (r_ids rd) Hnd
              (Permutation_refl _)) as (feat_idx & Hidx & _).
  pose proof (read_dataset_rows rv t rd Hread) as Hlen.
  unfold low_mem_add_data.
  rewrite (bind_lift_ok _ _ _ _ Hrow), (bind_lift_ok _ _ _ _ Hcol).
  cbv beta iota zeta.
  rewrite (bind_lift_ok _ index)
    by (rewrite <- Hfeat, Hfeats; simpl; exact Hindex).
  rewrite (bind_lift_ok _ index)
    by (rewrite Hfeats; simpl; exact Hindex).
  rewrite <- Hids.
  rewrite (bind_lift_ok _ _ _ _ Hidx), (bind_lift_ok _ _ _ _ Hviews).
  destruct views as [|v rest].
  { simpl in Hflat. congruence. }
  apply Forall_cons in Hall as [[Hds Hcols] Hall].
  destruct (block_created (r_values rd) (r_row_idx rd) (r_ids rd)
              (view_cols v) Hnd Hlen) as [Hshape Hdense].
  destruct (index_array_ok cells (view_cols v) Hcols) as [cs Hcs].
  simpl.
  rewrite (bind_lift_ok _ (view_values (r_values rd) (view_cols v)))
    by (apply view_layer_values; rewrite Hds; exact Hvalues).
  unfold view_shape. simpl.
  rewrite (bind_lift_ok _ _ _ _ eq_refl).
  rewrite (bind_lift_ok _ cs)
    by (unfold view_ca; rewrite Hds, Hcells; exact Hcs).
  rewrite M_bind_unfold.
  match goal with
  | |- context [batch_add_sparse ?dat _ ?ca false w] =>
      assert (Hshape' : coo_shape dat
                = (length (r_ids rd),
                   length (map (sample_column (r_values rd) (r_row_idx rd)
                                  (r_ids rd) (r_ids rd)) (view_cols v))))
        by (rewrite length_map; exact Hshape);
      destruct (batch_add_sparse_create_holds (r_ids rd) _ dat ca w
                  Hshape' Hdense) as (w1 & -> & Hw1)
  end.
  destruct (add_batches_holds (t_loom t) (t_layer t) (t_cell t) (t_label t)
              (r_values rd) cells (r_row_idx rd) (r_ids rd) (r_ids rd)
              (r_ids rd) (r_ids rd) feat_idx Hvalues Hcells Hnd
              (Permutation_refl _) Hlen Hidx rest _ w1 Hall Hw1)
    as (w' & Hrun & Hw').
  exists w'. split; [exact Hrun|].
  unfold dataset_columns. rewrite <- Hflat. simpl.
  rewrite map_app. exact Hw'.
Qed.

Lemma low_mem_targets_holds (rv : bool) bs canon :
  0 < bs ->
  (if rv then remove_gene_version canon else canon) = canon ->
  forall cfgs rds cols w,
    Forall2 (fun t rd => read_dataset rv t = Ok rd /\ loom_wf (t_loom t) /\
                         NoDup (r_ids rd) /\ r_ids rd ≡ₚ canon) cfgs rds ->
    store_holds canon cols w ->
    exists w',
      low_mem_targets rv bs cfgs w = (w', Ok tt) /\
      store_holds canon (cols ++ flat_map (dataset_columns canon) rds) w'.
Proof.
  intros Hbs Hstrip cfgs rds cols w Hall. revert cols w.
  induction Hall as [|t rd cfgs rds (Hread & Hwf & Hnd & Hperm) _ IH];
    intros cols w Hw.
  - exists w. split; [reflexivity|]. simpl. rewrite app_nil_r. exact Hw.
  - destruct (low_mem_add_data_holds rv bs t rd canon cols w Hread Hwf Hbs
                Hnd Hperm Hstrip Hw) as (w1 & Hrun1 & Hw1).
    simpl. rewrite M_bind_unfold, Hrun1.
    destruct (IH _ _ Hw1) as (w' & Hrun & Hw').
    exists w'. split; [exact Hrun|]. rewrite app_assoc. exact Hw'.
Qed.

(** ** The full-memory engine, table by table *)

Lemma high_mem_get_data_reads (rv : bool) t :
  high_mem_get_data (t_loom t) (t_layer t) (t_feat t) (t_cell t)
    (t_valid_ra t) (t_valid_ca t) rv
  = (rd ← read_dataset rv t; Ok (frame_of_reads rd)).
Proof.
  unfold high_mem_get_data, read_dataset.
  destruct (valid_index (t_loom t) (t_valid_ra t) false) as [row_idx|];
    [|reflexivity]. simpl.
  destruct (valid_index (t_loom t) (t_valid_ca t) true) as [col_idx|];
    [|reflexivity]. simpl.
  destruct (layer_get (t_loom t) (t_layer t)) as [values|]; [|reflexivity].
  simpl.
  destruct (attr_get (ra (t_loom t)) (t_feat t)) as [feats|];
    [|reflexivity]. simpl.
  destruct (index_array feats row_idx) as [index|]; [|reflexivity]. simpl.
  destruct (attr_get (ca (t_loom t)) (t_cell t)) as [cells|];
    [|reflexivity]. simpl.
  destruct (index_array cells col_idx) as [columns|]; reflexivity.
Qed.

Lemma frames_of_reads (rv : bool) ts frs :
  Forall2 (fun t fr =>
    high_mem_get_data (t_loom t) (t_layer t) (t_feat t) (t_cell t)
      (t_valid_ra t) (t_valid_ca t) rv = Ok fr) ts frs ->
  exists rds,
    Forall2 (fun t rd => read_dataset rv t = Ok rd) ts rds /\
    frs = map frame_of_reads rds.
Proof.
  induction 1 as [|t fr ts frs Hfr _ (rds & Hrds & ->)].
  - exists []. split; [constructor|reflexivity].
  - rewrite high_mem_get_data_reads in Hfr.
    destruct (read_dataset rv t) as [rd|] eqn:Hrd; [|discriminate].
    simpl in Hfr. injection Hfr as <-.
    exists (rd :: rds). split; [constructor; assumption|reflexivity].
Qed.

Lemma reindex_row_id columns row :
  NoDup columns -> length row = length columns ->
  reindex_row columns columns row = row.
Proof.
  intros Hnd Hlen. unfold reindex_row. apply list_eq. intros i.
  rewrite list_lookup_fmap.
  destruct (columns !! i) as [x|] eqn:Hx; simpl.
  - rewrite (positions_of_NoDup x columns i Hnd Hx).
    assert (Hi : i < length row)
      by (rewrite Hlen; eapply lookup_lt_Some; eauto).
    destruct (lookup_lt_is_Some_2 row i Hi) as [v ->]. reflexivity.
  - symmetry. apply lookup_ge_None. rewrite Hlen.
    apply lookup_ge_None. exact Hx.
Qed.

Lemma flat_map_reindex_same c0 (l : list frame) :
  Forall (fun f => NoDup (f_columns f) /\
                   Forall (fun row => length row = length (f_columns f))
                     (f_values f)) l ->
  Forall (fun f => f_columns f = c0) l ->
  flat_map f_values l
  = flat_map (fun f => map (reindex_row (f_columns f) c0) (f_values f)) l.
Proof.
  induction l as [|f l IH]; intros Hall Hcols; [reflexivity|].
  apply Forall_cons in Hall as [[Hnd Hrows] Hall].
  apply Forall_cons in Hcols as [Hc Hcols].
  simpl. rewrite <- (IH Hall Hcols). f_equal.
  rewrite <- Hc. rewrite <- (map_id (f_values f)) at 1.
  apply map_ext_in. intros row Hrow. symmetry.
  apply reindex_row_id; [exact Hnd|].
  rewrite Forall_forall in Hrows. apply Hrows.
  apply list_elem_of_In. exact Hrow.
Qed.

(** The values of a concatenation: every row of every frame, reindexed
    to the columns of the result. *)
Lemma concat_values frames table :
  concat frames = Ok table ->
  Forall (fun f => NoDup (f_columns f) /\
                   Forall (fun row => length row = length (f_columns f))
                     (f_values f)) frames ->
  f_values table
  = flat_map (fun f =>
      map (reindex_row (f_columns f) (f_columns table)) (f_values f))
      frames.
Proof.
  unfold concat. destruct frames as [|f0 rest]; [discriminate|].
  intros H Hall.
  destruct (forallb _ rest) eqn:Hsame.
  - injection H as <-.
    apply (flat_map_reindex_same (f_columns f0) (f0 :: rest) Hall).
    constructor; [reflexivity|]. apply Forall_forall. intros f Hf.
    rewrite forallb_forall in Hsame.
    apply list_elem_of_In in Hf. specialize (Hsame f Hf).
    apply bool_decide_eq_true in Hsame. exact Hsame.
  - destruct (existsb _ (f0 :: rest)); [discriminate|].
    injection H as <-. reflexivity.
Qed.

Lemma todense_sparse_row values rows cols i ri :
  rows !! i = Some ri ->
  todense (sparse values rows cols) !! i
  = Some (map (fun j => coo_at (sparse values rows cols) i j)
            (seq 0 (length cols))).
Proof.
  intros Hi. unfold todense. cbn [coo_shape sparse fst snd].
  rewrite list_lookup_fmap, lookup_seq_lt
    by (eapply lookup_lt_Some; eauto). reflexivity.
Qed.

Lemma todense_sparse_length values rows cols :
  length (todense (sparse values rows cols)) = length rows.
Proof.
  unfold todense. cbn [coo_shape sparse fst snd].
  rewrite length_map, length_seq. reflexivity.
Qed.

(** The rows of a dataset's table, reindexed to the canonical features,
    are the dataset's samples under the canonical features. *)
Lemma frame_reindexed values row_idx col_idx ids canon :
  map (reindex_row ids canon)
    (transpose_values (length col_idx)
       (map (map Val) (todense (sparse values row_idx col_idx))))
  = map (sample_column values row_idx ids canon) col_idx.
Proof.
  unfold transpose_values. rewrite map_map. apply list_eq. intros j.
  rewrite !list_lookup_fmap.
  destruct (col_idx !! j) as [cj|] eqn:Hcj; simpl.
  - rewrite lookup_seq_lt by (eapply lookup_lt_Some; eauto). simpl.
    f_equal. unfold reindex_row, sample_column. apply map_ext. intros x.
    destruct (positions_of x ids) as [|i ?]; [reflexivity|].
    rewrite !list_lookup_fmap.
    destruct (row_idx !! i) as [ri|] eqn:Hri.
    + rewrite (todense_sparse_row values row_idx col_idx i ri Hri). simpl.
      rewrite !list_lookup_fmap, lookup_seq_lt
        by (eapply lookup_lt_Some; eauto). simpl.
      rewrite (coo_at_sparse values row_idx col_idx i j ri cj Hri Hcj).
      reflexivity.
    + assert (Hnone : todense (sparse values row_idx col_idx) !! i = None).
      { apply lookup_ge_None. rewrite todense_sparse_length.
        apply lookup_ge_None. exact Hri. }
      rewrite Hnone. reflexivity.
  - rewrite lookup_seq_ge by (apply lookup_ge_None; exact Hcj).
    reflexivity.
Qed.

Lemma read_dataset_cells (rv : bool) t rd :
  read_dataset rv t = Ok rd -> length (r_cells rd) = length (r_col_idx rd).
Proof.
  intros H.
  destruct (read_dataset_inv rv t rd H)
    as (feats & index & cells & _ & _ & _ & _ & _ & _ & _ & Hcolumns).
  apply index_array_bounds in Hcolumns as [_ Hlen]. exact Hlen.
Qed.

Lemma Forall2_elem_impl {A B} (P Q : A -> B -> Prop) l k :
  Forall2 P l k ->
  (forall x y, x ∈ l -> P x y -> Q x y) ->
  Forall2 Q l k.
Proof.
  induction 1 as [|x y l k Hxy _ IH]; intros Himpl; constructor.
  - apply Himpl; [left|exact Hxy].
  - apply IH. intros x' y' Hin. apply Himpl. right. exact Hin.
Qed.

Lemma frames_columns canon rds :
  Forall (fun rd => length (r_cells rd) = length (r_col_idx rd)) rds ->
  flat_map (fun f => map (reindex_row (f_columns f) canon) (f_values f))
    (map frame_of_reads rds)
  = flat_map (dataset_columns canon) rds.
Proof.
  induction 1 as [|rd rds Hlen _ IH]; [reflexivity|].
  simpl. rewrite IH. f_equal. rewrite Hlen. apply frame_reindexed.
Qed.

Lemma frames_index_length canon rds :
  Forall (fun rd => length (r_cells rd) = length (r_col_idx rd)) rds ->
  length (flat_map f_index (map frame_of_reads rds))
  = length (flat_map (dataset_columns canon) rds).
Proof.
  induction 1 as [|rd rds Hlen _ IH]; [reflexivity|].
  simpl. rewrite !length_app, IH. f_equal.
  unfold dataset_columns. rewrite length_map. exact Hlen.
Qed.

Lemma frame_of_reads_rows (rv : bool) t rd :
  read_dataset rv t = Ok rd ->
  Forall (fun row => length row = length (f_columns (frame_of_reads rd)))
    (f_values (frame_of_reads rd)).
Proof.
  intros H. unfold frame_of_reads, frame_T, transpose_values.
  cbn [f_values f_columns f_index]. apply Forall_forall. intros row Hrow.
  apply list_elem_of_In, in_map_iff in Hrow as (j & <- & _).
  rewrite !length_map, todense_sparse_length.
  exact (read_dataset_rows rv t rd H).
Qed.

(** What the full-memory engine returns when the features of every
    target are the canonical ones in some order: the samples of all the
    datasets, source first, each under the canonical features. *)
Lemma high_mem_integrate_holds a st cfgs canon :
  high_mem_integrate a = Ok st ->
  check_inputs a = Ok cfgs ->
  canonical_order a = Ok canon ->
  NoDup canon ->
  (forall t ids, t ∈ cfgs -> feature_ids (remove_version a) t = Ok ids ->
     ids ≡ₚ canon) ->
  exists rd0 rds,
    read_dataset (remove_version a) (source_cfg a) = Ok rd0 /\
    r_ids rd0 = canon /\
    Forall2 (fun t rd => read_dataset (remove_version a) t = Ok rd /\
                         r_ids rd ≡ₚ canon) cfgs rds /\
    st_shape st
    = (length canon,
       length (flat_map (dataset_columns canon) (rd0 :: rds))) /\
    st_matrix st
    = transpose_values (length canon)
        (flat_map (dataset_columns canon) (rd0 :: rds)) /\
    st_ra st !! "Accession" = Some canon.
Proof.
  intros Hst Hcfgs Hcanon Hnd Htargets.
  destruct (high_mem_integrate_inv a st Hst)
    as (acc & table & types & Hcollect & Hconcat & _ & _ & ->).
  pose proof (high_mem_collect_frames a acc cfgs Hcollect Hcfgs) as Hframes.
  apply frames_of_reads in Hframes as (rds' & Hreads & Hacc).
  rewrite Hacc in Hconcat.
  inversion Hreads as [|t0 rd0 ts rds Hrd0 Hrds]; subst.
  pose proof (read_dataset_feature_ids _ _ _ Hrd0) as Hids0.
  unfold canonical_order in Hcanon. rewrite Hcanon in Hids0.
  injection Hids0 as ->.
  assert (Hperm : Forall2 (fun t rd =>
            read_dataset (remove_version a) t = Ok rd /\
            r_ids rd ≡ₚ r_ids rd0) cfgs rds).
  { eapply Forall2_elem_impl; [exact Hrds|]. intros t rd Hin Hrd.
    split; [exact Hrd|].
    apply (Htargets t _ Hin). apply read_dataset_feature_ids. exact Hrd. }
  assert (Hall : Forall (fun rd =>
            exists t, read_dataset (remove_version a) t = Ok rd /\
                      r_ids rd ≡ₚ r_ids rd0) (rd0 :: rds)).
  { constructor; [exists (source_cfg a); split; [exact Hrd0|reflexivity]|].
    clear -Hperm. induction Hperm as [|t rd ? ? [? ?] _ IH];
      constructor; eauto. }
  assert (Hcells : Forall (fun rd =>
            length (r_cells rd) = length (r_col_idx rd)) (rd0 :: rds)).
  { eapply Forall_impl; [exact Hall|]. intros rd (t & Hrd & _).
    eapply read_dataset_cells; eauto. }
  assert (Hcolumns : f_columns table = r_ids rd0).
  { apply (concat_columns_first (frame_of_reads rd0)
             (map frame_of_reads rds) table Hconcat).
    intros f x Hf Hx.
    apply list_elem_of_In, in_map_iff in Hf as (rd & <- & Hrd).
    apply Forall_cons in Hall as [_ Hall].
    rewrite Forall_forall in Hall.
    destruct (Hall rd (proj2 (list_elem_of_In _ _) Hrd)) as (t & _ & Hp).
    cbn [f_columns frame_of_reads frame_T f_index] in *.
    rewrite <- Hp. exact Hx. }
  assert (Hvalues : f_values table
            = flat_map (dataset_columns (r_ids rd0)) (rd0 :: rds)).
  { rewrite (concat_values _ table Hconcat).
    - rewrite Hcolumns. apply frames_columns. exact Hcells.
    - apply Forall_forall. intros f Hf.
      apply list_elem_of_In in Hf.
      apply in_map_iff in Hf as (rd & <- & Hrd).
      rewrite Forall_forall in Hall.
      destruct (Hall rd (proj2 (list_elem_of_In _ _) Hrd))
        as (t & Hread & Hp).
      split; [|eapply frame_of_reads_rows; eauto].
      cbn [f_columns frame_of_reads frame_T f_index].
      rewrite Hp. exact Hnd. }
  exists rd0, rds. split; [exact Hrd0|]. split; [reflexivity|].
  split; [exact Hperm|].
  unfold loompy_create. cbn [st_shape st_matrix st_ra frame_T f_values].
  rewrite Hcolumns, Hvalues. split; [|split].
  - f_equal. rewrite (concat_index _ table Hconcat).
    apply (frames_index_length (r_ids rd0) (rd0 :: rds) Hcells).
  - reflexivity.
  - apply lookup_singleton_eq.
Qed.

(** X1. Agreement of the engines. Whenever the full-memory engine
    completes a merge in which the source's validity-selected,
    version-stripped feature identifiers are distinct and are read from
    the attribute named Accession, stripping them again changes nothing,
    every target's feature identifiers are the source's in some order,
    the batch size is positive, the source has at least one selected
    sample, and every file's attribute arrays have the lengths of its
    shape, the streaming engine, started without an output file,
    completes as well, and the file it leaves has the shape, the row
    identifiers and the matrix the full-memory engine returns: the same
    value at every (feature, sample) coordinate. *)
Theorem engines_agree a st cfgs canon :
  high_mem_integrate a = Ok st ->
  check_inputs a = Ok cfgs ->
  canonical_order a = Ok canon ->
  NoDup canon ->
  (if remove_version a then remove_gene_version canon else canon) = canon ->
  (forall t ids, t ∈ cfgs -> feature_ids (remove_version a) t = Ok ids ->
     ids ≡ₚ canon) ->
  feat_source a = Some "Accession" ->
  0 < batch_size a ->
  (forall t, t ∈ source_cfg a :: cfgs -> loom_wf (t_loom t)) ->
  column_index (source_cfg a) <> Ok [] ->
  exists w st',
    low_mem_integrate a fresh = (w, Ok tt) /\
    out_loom w = Some st' /\
    st_shape st' = st_shape st /\
    st_ra st' !! "Accession" = st_ra st !! "Accession" /\
    st_matrix st' = st_matrix st /\
    forall r c, matrix_at (st_matrix st') r c = matrix_at (st_matrix st) r c.
Proof.
  intros Hst Hcfgs Hcanon Hnd Hstrip Htargets Hfeat Hbs Hwf Hsome.
  destruct (high_mem_integrate_holds a st cfgs canon Hst Hcfgs Hcanon Hnd
              Htargets)
    as (rd0 & rds & Hrd0 & Hids0 & Hrds & Hshape & Hmatrix & Hra).
  destruct (low_mem_add_data_source (remove_version a) (batch_size a)
              (source_cfg a) rd0 fresh Hrd0 Hfeat)
    as (w1 & Hrun1 & Hw1).
  { apply Hwf. left. }
  { exact Hbs. }
  { rewrite Hids0. exact Hnd. }
  { intros Hnil. apply Hsome. unfold column_index.
    destruct (read_dataset_inv _ _ _ Hrd0)
      as (_ & _ & _ & _ & Hcol & _). rewrite Hcol, Hnil. reflexivity. }
  rewrite Hids0 in Hw1.
  destruct (low_mem_targets_holds (remove_version a) (batch_size a) canon
              Hbs Hstrip cfgs rds (dataset_columns canon rd0) w1)
    as (w & Hrun & Hw).
  { eapply Forall2_elem_impl; [exact Hrds|]. intros t rd Hin [Hrd Hperm].
    split; [exact Hrd|]. split; [apply Hwf; right; exact Hin|].
    split; [rewrite Hperm; exact Hnd|exact Hperm]. }
  { exact Hw1. }
  destruct Hw as (st' & Hout & Hshape' & Hmatrix' & Hra').
  exists w, st'. split.
  { unfold low_mem_integrate.
    rewrite (bind_lift_ok _ _ _ _ Hcfgs), M_bind_unfold.
    change (low_mem_add_data (loom_source a) (layer_source a)
              (feat_source a) (cell_source a) (PScalar (label_source a))
              (PScalar (valid_ra_source a)) (PScalar (valid_ca_source a))
              (remove_version a) (batch_size a) true fresh)
      with (low_mem_add_data (t_loom (source_cfg a))
              (t_layer (source_cfg a)) (t_feat (source_cfg a))
              (t_cell (source_cfg a)) (t_label (source_cfg a))
              (t_valid_ra (source_cfg a)) (t_valid_ca (source_cfg a))
              (remove_version a) (batch_size a) true fresh).
    rewrite Hrun1. exact Hrun. }
  split; [exact Hout|].
  assert (Hm : st_matrix st' = st_matrix st).
  { rewrite Hmatrix, Hmatrix'. reflexivity. }
  split; [rewrite Hshape, Hshape'; reflexivity|].
  split; [rewrite Hra, Hra'; reflexivity|].
  split; [exact Hm|]. intros r c. rewrite Hm. reflexivity.
Qed.

Lemma engines_agree_witness :
  exists w st',
    low_mem_integrate ex_args_CAB fresh = (w, Ok tt) /\
    out_loom w = Some st' /\
    st_shape st' = st_shape ex_store_CAB /\
    st_ra st' !! "Accession" = st_ra ex_store_CAB !! "Accession" /\
    st_matrix st' = st_matrix ex_store_CAB /\
    forall r c,
      matrix_at (st_matrix st') r c = matrix_at (st_matrix ex_store_CAB) r c.
Proof.
  apply (engines_agree ex_args_CAB ex_store_CAB [ex_cfg_CAB]
           [Str "A"; Str "B"; Str "C"]).
  - vm_compute. reflexivity.
  - vm_compute. reflexivity.
  - vm_compute. reflexivity.
  - apply (bool_decide_unpack _). vm_compute. exact I.
  - reflexivity.
  - intros t ids Ht Hids. apply list_elem_of_In in Ht.
    destruct Ht as [<-|[]]. vm_compute in Hids. injection Hids as <-.
    etrans; [apply perm_swap|]. apply perm_skip, perm_swap.
  - reflexivity.
  - simpl. lia.
  - intros t Ht. apply list_elem_of_In in Ht.
    destruct Ht as [<-|[<-|[]]]; apply example_loom_wf.
  - vm_compute. discriminate.
Defined.

(** ** The streaming engine on aligned inputs *)

Lemma table_entry canon rds k rd j cj r x i ri :
  rds !! k = Some rd ->
  r_col_idx rd !! j = Some cj ->
  canon !! r = Some x ->
  NoDup (r_ids rd) ->
  r_ids rd !! i = Some x ->
  r_row_idx rd !! i = Some ri ->
  matrix_at
    (transpose_values (length canon) (flat_map (dataset_columns canon) rds))
    r (column_offset rds k + j)
  = Some (Val (r_values rd ri cj)).
Proof.
  intros Hk Hj Hr Hnd Hi Hri.
  assert (Hrow : flat_map (dataset_columns canon) rds
                   !! (column_offset rds k + j)
                 = Some (sample_column (r_values rd) (r_row_idx rd)
                           (r_ids rd) canon cj)).
  { unfold column_offset.
    rewrite (flat_map_lookup_offset r_col_idx (dataset_columns canon) rds
               k rd j).
    - unfold dataset_columns. rewrite list_lookup_fmap, Hj. reflexivity.
    - apply Forall_forall. intros rd' _. unfold dataset_columns.
      apply length_map.
    - exact Hk.
    - unfold dataset_columns. rewrite length_map.
      eapply lookup_lt_Some; eauto. }
  rewrite (transpose_values_at _ _ r _ _ (lookup_lt_Some _ _ _ Hr) Hrow).
  rewrite (sample_column_lookup _ _ _ _ cj r x i ri Hr
             (positions_of_NoDup x _ i Hnd Hi) Hri).
  reflexivity.
Qed.

Lemma low_mem_integrate_holds a cfgs rd0 rds :
  check_inputs a = Ok cfgs ->
  read_dataset (remove_version a) (source_cfg a) = Ok rd0 ->
  Forall2 (fun t rd => read_dataset (remove_version a) t = Ok rd /\
                       r_ids rd ≡ₚ r_ids rd0) cfgs rds ->
  NoDup (r_ids rd0) ->
  (if remove_version a then remove_gene_version (r_ids rd0) else r_ids rd0)
  = r_ids rd0 ->
  feat_source a = Some "Accession" ->
  0 < batch_size a ->
  (forall t, t ∈ source_cfg a :: cfgs -> loom_wf (t_loom t)) ->
  r_col_idx rd0 <> [] ->
  exists w,
    low_mem_integrate a fresh = (w, Ok tt) /\
    store_holds (r_ids rd0)
      (flat_map (dataset_columns (r_ids rd0)) (rd0 :: rds)) w.
Proof.
  intros Hcfgs Hrd0 Hrds Hnd Hstrip Hfeat Hbs Hwf Hsome.
  destruct (low_mem_add_data_source (remove_version a) (batch_size a)
              (source_cfg a) rd0 fresh Hrd0 Hfeat)
    as (w1 & Hrun1 & Hw1);
    [apply Hwf; left|exact Hbs|exact Hnd|exact Hsome|].
  destruct (low_mem_targets_holds (remove_version a) (batch_size a)
              (r_ids rd0) Hbs Hstrip cfgs rds
              (dataset_columns (r_ids rd0) rd0) w1)
    as (w & Hrun & Hw).
  { eapply Forall2_elem_impl; [exact Hrds|]. intros t rd Hin [Hrd Hperm].
    split; [exact Hrd|]. split; [apply Hwf; right; exact Hin|].
    split; [rewrite Hperm; exact Hnd|exact Hperm]. }
  { exact Hw1. }
  exists w. split; [|exact Hw].
  unfold low_mem_integrate.
  rewrite (bind_lift_ok _ _ _ _ Hcfgs), M_bind_unfold.
  change (low_mem_add_data (loom_source a) (layer_source a)
            (feat_source a) (cell_source a) (PScalar (label_source a))
            (PScalar (valid_ra_source a)) (PScalar (valid_ca_source a))
            (remove_version a) (batch_size a) true fresh)
    with (low_mem_add_data (t_loom (source_cfg a))
            (t_layer (source_cfg a)) (t_feat (source_cfg a))
            (t_cell (source_cfg a)) (t_label (source_cfg a))
            (t_valid_ra (source_cfg a)) (t_valid_ca (source_cfg a))
            (remove_version a) (batch_size a) true fresh).
  rewrite Hrun1. exact Hrun.
Qed.

(** X2. What the streaming engine writes. When the source's selected,
    version-stripped feature identifiers are distinct, are read from the
    attribute named Accession and are unchanged by stripping again, every
    target's identifiers are the source's in some order, the batch size
    is positive, the source has a selected sample and the files' attribute
    arrays have the lengths of their shapes, the streaming engine, started
    without an output file, completes; the file has one row per source
    feature, named in the source's order, and one column per selected
    sample, datasets in order; and the entry at a feature and a sample is
    the value the sample's dataset stores in its own row of the feature
    with that identifier. *)
Theorem low_mem_integrate_table a cfgs rd0 rds :
  check_inputs a = Ok cfgs ->
  read_dataset (remove_version a) (source_cfg a) = Ok rd0 ->
  Forall2 (fun t rd => read_dataset (remove_version a) t = Ok rd /\
                       r_ids rd ≡ₚ r_ids rd0) cfgs rds ->
  NoDup (r_ids rd0) ->
  (if remove_version a then remove_gene_version (r_ids rd0) else r_ids rd0)
  = r_ids rd0 ->
  feat_source a = Some "Accession" ->
  0 < batch_size a ->
  (forall t, t ∈ source_cfg a :: cfgs -> loom_wf (t_loom t)) ->
  r_col_idx rd0 <> [] ->
  exists w st,
    low_mem_integrate a fresh = (w, Ok tt) /\
    out_loom w = Some st /\
    st_ra st !! "Accession" = Some (r_ids rd0) /\
    st_shape st
    = (length (r_ids rd0), length (flat_map r_col_idx (rd0 :: rds))) /\
    forall k rd j cj r x i ri,
      (rd0 :: rds) !! k = Some rd ->
      r_col_idx rd !! j = Some cj ->
      r_ids rd0 !! r = Some x ->
      r_ids rd !! i = Some x ->
      r_row_idx rd !! i = Some ri ->
      matrix_at (st_matrix st) r (column_offset (rd0 :: rds) k + j)
      = Some (Val (r_values rd ri cj)).
Proof.
  intros Hcfgs Hrd0 Hrds Hnd Hstrip Hfeat Hbs Hwf Hsome.
  destruct (low_mem_integrate_holds a cfgs rd0 rds Hcfgs Hrd0 Hrds Hnd
              Hstrip Hfeat Hbs Hwf Hsome)
    as (w & Hrun & st & Hout & Hshape & Hmatrix & Hra).
  exists w, st. split; [exact Hrun|]. split; [exact Hout|].
  split; [exact Hra|]. split.
  - rewrite Hshape. f_equal. clear.
    induction (rd0 :: rds) as [|rd l IH]; [reflexivity|].
    simpl. rewrite !length_app, IH. unfold dataset_columns.
    rewrite length_map. reflexivity.
  - intros k rd j cj r x i ri Hk Hj Hr Hi Hri. rewrite Hmatrix.
    apply (table_entry _ _ k rd j cj r x i ri Hk Hj Hr); [|exact Hi|exact Hri].
    destruct k as [|k]; simpl in Hk.
    + injection Hk as <-. exact Hnd.
    + destruct (Forall2_lookup_r _ _ _ _ _ Hrds Hk) as (t & _ & _ & Hperm).
      rewrite Hperm. exact Hnd.
Qed.

Lemma low_mem_integrate_table_witness :
  exists w st,
    low_mem_integrate ex_args_CAB fresh = (w, Ok tt) /\
    out_loom w = Some st /\
    st_ra st !! "Accession" = Some (r_ids ex_reads_source) /\
    st_shape st
    = (length (r_ids ex_reads_source),
       length (flat_map r_col_idx [ex_reads_source; ex_reads_CAB])) /\
    forall k rd j cj r x i ri,
      [ex_reads_source; ex_reads_CAB] !! k = Some rd ->
      r_col_idx rd !! j = Some cj ->
      r_ids ex_reads_source !! r = Some x ->
      r_ids rd !! i = Some x ->
      r_row_idx rd !! i = Some ri ->
      matrix_at (st_matrix st) r
        (column_offset [ex_reads_source; ex_reads_CAB] k + j)
      = Some (Val (r_values rd ri cj)).
Proof.
  apply (low_mem_integrate_table ex_args_CAB [ex_cfg_CAB] ex_reads_source
           [ex_reads_CAB]).
  - vm_compute. reflexivity.
  - vm_compute. reflexivity.
  - constructor; [|constructor]. split; [vm_compute; reflexivity|].
    vm_compute. etrans; [apply perm_swap|]. apply perm_skip, perm_swap.
  - apply (bool_decide_unpack _). vm_compute. exact I.
  - reflexivity.
  - reflexivity.
  - simpl. lia.
  - intros t Ht. apply list_elem_of_In in Ht.
    destruct Ht as [<-|[<-|[]]]; apply example_loom_wf.
  - vm_compute. discriminate.
Defined.

(** X3. The batch size does not show in the output. Under the
    conditions under which the streaming engine is known to complete
    (distinct source identifiers read from Accession and stable under
    stripping, every target's identifiers a reordering of them, a selected
    source sample, attribute arrays of the lengths of the shapes), two
    runs that differ only in their positive batch size leave files with
    the same shape, the same row identifiers and the same matrix; when no
    target label is a list, every column attribute is the same too. *)
Theorem low_mem_batch_size_irrelevant a cfgs rd0 rds bs1 bs2 :
  check_inputs a = Ok cfgs ->
  read_dataset (remove_version a) (source_cfg a) = Ok rd0 ->
  Forall2 (fun t rd => read_dataset (remove_version a) t = Ok rd /\
                       r_ids rd ≡ₚ r_ids rd0) cfgs rds ->
  NoDup (r_ids rd0) ->
  (if remove_version a then remove_gene_version (r_ids rd0) else r_ids rd0)
  = r_ids rd0 ->
  feat_source a = Some "Accession" ->
  (forall t, t ∈ source_cfg a :: cfgs -> loom_wf (t_loom t)) ->
  r_col_idx rd0 <> [] ->
  0 < bs1 -> 0 < bs2 ->
  exists w1 w2 st1 st2,
    low_mem_integrate (set_batch_size a bs1) fresh = (w1, Ok tt) /\
    low_mem_integrate (set_batch_size a bs2) fresh = (w2, Ok tt) /\
    out_loom w1 = Some st1 /\ out_loom w2 = Some st2 /\
    st_shape st1 = st_shape st2 /\
    st_ra st1 !! "Accession" = st_ra st2 !! "Accession" /\
    st_matrix st1 = st_matrix st2 /\
    (Forall (fun t => is_list (t_label t) = false) cfgs ->
     forall name, column_attr st1 name = column_attr st2 name).
Proof.
  intros Hcfgs Hrd0 Hrds Hnd Hstrip Hfeat Hwf Hsome Hbs1 Hbs2.
  destruct (low_mem_integrate_holds (set_batch_size a bs1) cfgs rd0 rds
              Hcfgs Hrd0 Hrds Hnd Hstrip Hfeat Hbs1 Hwf Hsome)
    as (w1 & Hrun1 & st1 & Hout1 & Hshape1 & Hmatrix1 & Hra1).
  destruct (low_mem_integrate_holds (set_batch_size a bs2) cfgs rd0 rds
              Hcfgs Hrd0 Hrds Hnd Hstrip Hfeat Hbs2 Hwf Hsome)
    as (w2 & Hrun2 & st2 & Hout2 & Hshape2 & Hmatrix2 & Hra2).
  exists w1, w2, st1, st2.
  split; [exact Hrun1|]. split; [exact Hrun2|].
  split; [exact Hout1|]. split; [exact Hout2|].
  split; [congruence|]. split; [congruence|]. split; [congruence|].
  intros Hlabels name.
  assert (Hall : Forall (fun t => loom_wf (t_loom t)) (source_cfg a :: cfgs))
    by (apply Forall_forall; exact Hwf).
  pose proof (low_mem_integrate_ca (set_batch_size a bs1) w1 cfgs Hrun1
                Hcfgs Hall Hlabels name) as H1.
  pose proof (low_mem_integrate_ca (set_batch_size a bs2) w2 cfgs Hrun2
                Hcfgs Hall Hlabels name) as H2.
  unfold world_ca in H1, H2. rewrite Hout1 in H1. rewrite Hout2 in H2.
  rewrite H1, H2. reflexivity.
Qed.

Lemma low_mem_batch_size_irrelevant_witness :
  exists w1 w2 st1 st2,
    low_mem_integrate (set_batch_size ex_args_CAB 1) fresh = (w1, Ok tt) /\
    low_mem_integrate (set_batch_size ex_args_CAB 2) fresh = (w2, Ok tt) /\
    out_loom w1 = Some st1 /\ out_loom w2 = Some st2 /\
    st_shape st1 = st_shape st2 /\
    st_ra st1 !! "Accession" = st_ra st2 !! "Accession" /\
    st_matrix st1 = st_matrix st2 /\
    (Forall (fun t => is_list (t_label t) = false) [ex_cfg_CAB] ->
     forall name, column_attr st1 name = column_attr st2 name).
Proof.
  apply (low_mem_batch_size_irrelevant ex_args_CAB [ex_cfg_CAB]
           ex_reads_source [ex_reads_CAB] 1 2).
  - vm_compute. reflexivity.
  - vm_compute. reflexivity.
  - constructor; [|constructor]. split; [vm_compute; reflexivity|].
    vm_compute. etrans; [apply perm_swap|]. apply perm_skip, perm_swap.
  - apply (bool_decide_unpack _). vm_compute. exact I.
  - reflexivity.
  - reflexivity.
  - intros t Ht. apply list_elem_of_In in Ht.
    destruct Ht as [<-|[<-|[]]]; apply example_loom_wf.
  - vm_compute. discriminate.
  - lia.
  - lia.
Defined.

(** ** The table of one dataset *)

Lemma valid_index_bounds d attr columns idx :
  loom_wf d ->
  valid_index d attr columns = Ok idx ->
  Forall (fun x => x < (if columns then (shape d).2 else (shape d).1)) idx.
Proof.
  intros [Hra Hca]. unfold valid_index, get_attr_index.
  destruct attr as [[a|]|l]; simpl; [| |discriminate].
  - destruct ((if columns then ca d else ra d) !! a) as [arr|] eqn:Harr;
      [|discriminate].
    intros [= <-].
    eapply Forall_impl; [apply truthy_positions_bounds|].
    intros x Hx. simpl in Hx.
    destruct columns; [rewrite <- (Hca a arr Harr)
                      |rewrite <- (Hra a arr Harr)]; lia.
  - intros [= <-]. apply Forall_forall. intros x Hx.
    apply list_elem_of_In, in_seq in Hx. lia.
Qed.

(** X4. The table of a dataset. Whenever [high_mem_get_data] returns, its
    table has one row per selected sample, labelled with the sample's
    identifier, and one column per selected feature, labelled with the
    feature's identifier (version stripped when asked), and the entry of
    the j-th selected sample under the i-th selected feature is the
    layer's value at that feature's row and that sample's column: the
    matrix is read at the selected positions and transposed. *)
Theorem high_mem_get_data_table d layer feat_attr cell_attr valid_ra
    valid_ca (rv : bool) fr :
  high_mem_get_data d layer feat_attr cell_attr valid_ra valid_ca rv
  = Ok fr ->
  exists row_idx col_idx values feats cells ids,
    valid_index d valid_ra false = Ok row_idx /\
    valid_index d valid_ca true = Ok col_idx /\
    layer_get d layer = Ok values /\
    attr_get (ra d) feat_attr = Ok feats /\
    attr_get (ca d) cell_attr = Ok cells /\
    index_array cells col_idx = Ok (f_index fr) /\
    index_array feats row_idx = Ok ids /\
    f_columns fr = (if rv then remove_gene_version ids else ids) /\
    length (f_values fr) = length col_idx /\
    Forall (fun row => length row = length row_idx) (f_values fr) /\
    forall i j ri cj,
      row_idx !! i = Some ri -> col_idx !! j = Some cj ->
      matrix_at (f_values fr) j i = Some (Val (values ri cj)).
Proof.
  intros H.
  pose proof (high_mem_get_data_reads rv
                (cfg_of d layer feat_attr cell_attr valid_ra valid_ca))
    as Heq.
  cbn [cfg_of t_loom t_layer t_feat t_cell t_valid_ra t_valid_ca] in Heq.
  rewrite Heq in H. clear Heq.
  destruct (read_dataset rv _) as [rd|] eqn:Hrd; [|discriminate].
  simpl in H. injection H as <-.
  pose proof (read_dataset_cells _ _ _ Hrd) as Hlen.
  destruct (read_dataset_inv _ _ _ Hrd)
    as (feats & index & cells & Hrow & Hcol & Hvalues & Hfeats & Hindex
        & Hids & Hcells & Hcolumns).
  cbn [cfg_of t_loom t_layer t_feat t_cell t_valid_ra t_valid_ca] in *.
  exists (r_row_idx rd), (r_col_idx rd), (r_values rd), feats, cells, index.
  repeat (split; [assumption|]).
  unfold frame_of_reads, frame_T. cbn [f_index f_columns f_values].
  rewrite Hlen.
  split; [unfold transpose_values; rewrite length_map, length_seq;
          reflexivity|].
  split.
  - unfold transpose_values. apply Forall_forall. intros row Hrow'.
    apply list_elem_of_In, in_map_iff in Hrow' as (j & <- & _).
    rewrite !length_map. apply todense_sparse_length.
  - intros i j ri cj Hi Hj.
    assert (Hdense : map (map Val)
                       (todense (sparse (r_values rd) (r_row_idx rd)
                                   (r_col_idx rd))) !! i
                     = Some (map Val
                               (map (fun j => coo_at
                                      (sparse (r_values rd) (r_row_idx rd)
                                         (r_col_idx rd)) i j)
                                  (seq 0 (length (r_col_idx rd)))))).
    { rewrite list_lookup_fmap,
        (todense_sparse_row _ _ _ i ri Hi). reflexivity. }
    rewrite (transpose_values_at _ _ j i _ (lookup_lt_Some _ _ _ Hj) Hdense).
    rewrite !list_lookup_fmap,
      (lookup_seq_lt _ _ _ (lookup_lt_Some _ _ _ Hj)). simpl.
    rewrite (coo_at_sparse _ _ _ i j ri cj Hi Hj). reflexivity.
Qed.

Lemma high_mem_get_data_table_witness :
  exists row_idx col_idx values feats cells ids,
    valid_index ex_target_CAB (PScalar None) false = Ok row_idx /\
    valid_index ex_target_CAB (PScalar None) true = Ok col_idx /\
    layer_get ex_target_CAB (Some "") = Ok values /\
    attr_get (ra ex_target_CAB) (Some "Accession") = Ok feats /\
    attr_get (ca ex_target_CAB) (Some "CellID") = Ok cells /\
    index_array cells col_idx = Ok (f_index ex_frame_CAB) /\
    index_array feats row_idx = Ok ids /\
    f_columns ex_frame_CAB = ids /\
    length (f_values ex_frame_CAB) = length col_idx /\
    Forall (fun row => length row = length row_idx)
      (f_values ex_frame_CAB) /\
    forall i j ri cj,
      row_idx !! i = Some ri -> col_idx !! j = Some cj ->
      matrix_at (f_values ex_frame_CAB) j i = Some (Val (values ri cj)).
Proof.
  apply (high_mem_get_data_table ex_target_CAB (Some "") (Some "Accession")
           (Some "CellID") (PScalar None) (PScalar None) false ex_frame_CAB).
  vm_compute. reflexivity.
Defined.

(** X5. Reading a well-formed file cannot go out of bounds. When the
    attribute arrays of a file have the lengths of its shape, and the
    validity attributes, the layer, the feature attribute and the sample
    attribute it is asked for exist, [high_mem_get_data] returns a table:
    no index it computes falls outside an array. *)
Theorem high_mem_get_data_total d layer feat_attr cell_attr valid_ra
    valid_ca (rv : bool) row_idx col_idx values feats cells :
  loom_wf d ->
  valid_index d valid_ra false = Ok row_idx ->
  valid_index d valid_ca true = Ok col_idx ->
  layer_get d layer = Ok values ->
  attr_get (ra d) feat_attr = Ok feats ->
  attr_get (ca d) cell_attr = Ok cells ->
  exists fr,
    high_mem_get_data d layer feat_attr cell_attr valid_ra valid_ca rv
    = Ok fr /\
    length (f_index fr) = length col_idx /\
    length (f_columns fr) = length row_idx.
Proof.
  intros Hwf Hrow Hcol Hvalues Hfeats Hcells.
  pose proof (valid_index_bounds d valid_ra false row_idx Hwf Hrow) as Hr.
  pose proof (valid_index_bounds d valid_ca true col_idx Hwf Hcol) as Hc.
  assert (Hlf : length feats = (shape d).1).
  { destruct Hwf as [Hra _]. unfold attr_get in Hfeats.
    destruct feat_attr as [s|]; [|discriminate].
    destruct (ra d !! s) as [arr|] eqn:Harr; [|discriminate].
    injection Hfeats as <-. exact (Hra s arr Harr). }
  assert (Hlc : length cells = (shape d).2).
  { destruct Hwf as [_ Hca]. unfold attr_get in Hcells.
    destruct cell_attr as [s|]; [|discriminate].
    destruct (ca d !! s) as [arr|] eqn:Harr; [|discriminate].
    injection Hcells as <-. exact (Hca s arr Harr). }
  destruct (index_array_ok feats row_idx) as [ids Hids];
    [rewrite Hlf; exact Hr|].
  destruct (index_array_ok cells col_idx) as [cs Hcs];
    [rewrite Hlc; exact Hc|].
  unfold high_mem_get_data.
  rewrite Hrow. simpl. rewrite Hcol. simpl. rewrite Hvalues. simpl.
  rewrite Hfeats. simpl. rewrite Hids. simpl. rewrite Hcells. simpl.
  rewrite Hcs. simpl. eexists. split; [reflexivity|].
  unfold frame_T. cbn [f_index f_columns].
  apply index_array_bounds in Hids as [_ Hli].
  apply index_array_bounds in Hcs as [_ Hlcs].
  split; [exact Hlcs|].
  destruct rv; [unfold remove_gene_version; rewrite length_map|]; exact Hli.
Qed.

Lemma high_mem_get_data_total_witness :
  exists fr,
    high_mem_get_data ex_target_CAB (Some "") (Some "Accession")
      (Some "CellID") (PScalar None) (PScalar None) false = Ok fr /\
    length (f_index fr) = length [0; 1] /\
    length (f_columns fr) = length [0; 1; 2].
Proof.
  apply (high_mem_get_data_total ex_target_CAB (Some "") (Some "Accession")
           (Some "CellID") (PScalar None) (PScalar None) false
           [0; 1; 2] [0; 1] (matrix_of [[5; 0]; [0; 7]; [0; 6]]%Z)
           [Str "C"; Str "A"; Str "B"] [Str "t1"; Str "t2"]).
  - apply example_loom_wf.
  - reflexivity.
  - reflexivity.
  - reflexivity.
  - reflexivity.
  - reflexivity.
Defined.

(** ** The full-memory engine on any inputs *)

Lemma concat_columns_union frames table :
  concat frames = Ok table ->
  Forall (fun f => NoDup (f_columns f)) frames ->
  f_columns table = unique_from [] (flat_map f_columns frames).
Proof.
  unfold concat. destruct frames as [|f0 rest]; [discriminate|].
  intros H Hnd. destruct (forallb _ rest) eqn:Hsame.
  - injection H as <-. cbn [f_columns]. simpl. symmetry.
    apply unique_from_prefix.
    + apply Forall_cons in Hnd as [Hnd _]. exact Hnd.
    + intros x _ Hin. apply elem_of_nil in Hin. destruct Hin.
    + intros x Hx. left.
      apply elem_of_flat_map_columns in Hx as (f & Hf & Hx).
      rewrite forallb_forall in Hsame. apply list_elem_of_In in Hf.
      specialize (Hsame f Hf). apply bool_decide_eq_true in Hsame.
      rewrite <- Hsame. exact Hx.
  - destruct (existsb _ (f0 :: rest)); [discriminate|].
    injection H as <-. reflexivity.
Qed.

Lemma frames_columns_ids rds :
  flat_map f_columns (map frame_of_reads rds) = flat_map r_ids rds.
Proof.
  induction rds as [|rd rds IH]; [reflexivity|]. simpl. rewrite IH.
  reflexivity.
Qed.

Lemma dataset_columns_length canon rds :
  length (flat_map (dataset_columns canon) rds)
  = length (flat_map r_col_idx rds).
Proof.
  induction rds as [|rd rds IH]; [reflexivity|].
  simpl. rewrite !length_app, IH. unfold dataset_columns.
  rewrite length_map. reflexivity.
Qed.

Lemma table_entry_absent canon rds k rd j cj r x :
  rds !! k = Some rd ->
  r_col_idx rd !! j = Some cj ->
  canon !! r = Some x ->
  x ∉ r_ids rd ->
  matrix_at
    (transpose_values (length canon) (flat_map (dataset_columns canon) rds))
    r (column_offset rds k + j)
  = Some NaN.
Proof.
  intros Hk Hj Hr Hx.
  assert (Hrow : flat_map (dataset_columns canon) rds
                   !! (column_offset rds k + j)
                 = Some (sample_column (r_values rd) (r_row_idx rd)
                           (r_ids rd) canon cj)).
  { unfold column_offset.
    rewrite (flat_map_lookup_offset r_col_idx (dataset_columns canon) rds
               k rd j).
    - unfold dataset_columns. rewrite list_lookup_fmap, Hj. reflexivity.
    - apply Forall_forall. intros rd' _. unfold dataset_columns.
      apply length_map.
    - exact Hk.
    - unfold dataset_columns. rewrite length_map.
      eapply lookup_lt_Some; eauto. }
  rewrite (transpose_values_at _ _ r _ _ (lookup_lt_Some _ _ _ Hr) Hrow).
  unfold sample_column. rewrite list_lookup_fmap, Hr. simpl.
  rewrite (positions_of_nil x (r_ids rd) Hx). reflexivity.
Qed.

Lemma high_mem_integrate_reads a st cfgs :
  high_mem_integrate a = Ok st ->
  check_inputs a = Ok cfgs ->
  (forall t ids, t ∈ source_cfg a :: cfgs ->
     feature_ids (remove_version a) t = Ok ids -> NoDup ids) ->
  exists rds,
    Forall2 (fun t rd => read_dataset (remove_version a) t = Ok rd)
      (source_cfg a :: cfgs) rds /\
    Forall (fun rd => NoDup (r_ids rd)) rds /\
    st_ra st !! "Accession" = Some (unique_from [] (flat_map r_ids rds)) /\
    st_shape st
    = (length (unique_from [] (flat_map r_ids rds)),
       length (flat_map r_col_idx rds)) /\
    st_matrix st
    = transpose_values (length (unique_from [] (flat_map r_ids rds)))
        (flat_map (dataset_columns (unique_from [] (flat_map r_ids rds)))
           rds).
Proof.
  intros Hst Hcfgs Hdistinct.
  destruct (high_mem_integrate_inv a st Hst)
    as (acc & table & types & Hcollect & Hconcat & _ & _ & ->).
  pose proof (high_mem_collect_frames a acc cfgs Hcollect Hcfgs) as Hframes.
  apply frames_of_reads in Hframes as (rds & Hreads & Hacc).
  rewrite Hacc in Hconcat.
  assert (Hall : Forall (fun rd =>
            exists t, read_dataset (remove_version a) t = Ok rd /\
                      NoDup (r_ids rd)) rds).
  { pose proof (Forall2_elem_impl _
        (fun t rd => read_dataset (remove_version a) t = Ok rd /\
                     NoDup (r_ids rd)) _ _ Hreads) as H.
    assert (H' : Forall2 (fun t rd =>
              read_dataset (remove_version a) t = Ok rd /\
              NoDup (r_ids rd)) (source_cfg a :: cfgs) rds).
    { apply H. intros t rd Hin Hrd. split; [exact Hrd|].
      apply (Hdistinct t _ Hin). apply read_dataset_feature_ids.
      exact Hrd. }
    clear -H'. induction H' as [|t rd ? ? ? _ IH]; constructor; eauto. }
  assert (Hnd : Forall (fun rd => NoDup (r_ids rd)) rds).
  { eapply Forall_impl; [exact Hall|]. intros rd (t & _ & H). exact H. }
  assert (Hcells : Forall (fun rd =>
            length (r_cells rd) = length (r_col_idx rd)) rds).
  { eapply Forall_impl; [exact Hall|]. intros rd (t & Hrd & _).
    eapply read_dataset_cells; eauto. }
  assert (Hframes : Forall (fun f =>
            NoDup (f_columns f) /\
            Forall (fun row => length row = length (f_columns f))
              (f_values f)) (map frame_of_reads rds)).
  { apply Forall_forall. intros f Hf.
    apply list_elem_of_In in Hf.
    apply in_map_iff in Hf as (rd & <- & Hrd).
    rewrite Forall_forall in Hall.
    destruct (Hall rd (proj2 (list_elem_of_In _ _) Hrd))
      as (t & Hread & Hnd').
    split; [exact Hnd'|eapply frame_of_reads_rows; eauto]. }
  assert (Hcolumns : f_columns table = unique_from [] (flat_map r_ids rds)).
  { rewrite <- frames_columns_ids.
    apply (concat_columns_union _ table Hconcat).
    eapply Forall_impl; [exact Hframes|]. intros f [H _]. exact H. }
  exists rds. split; [exact Hreads|]. split; [exact Hnd|].
  unfold loompy_create. cbn [st_shape st_matrix st_ra frame_T f_values].
  rewrite (concat_values _ table Hconcat Hframes).
  rewrite Hcolumns, (frames_columns _ rds Hcells).
  split; [apply lookup_singleton_eq|]. split; [|reflexivity].
  f_equal. rewrite (concat_index _ table Hconcat).
  rewrite (frames_index_length [] rds Hcells).
  apply dataset_columns_length.
Qed.

(** X6. What the full-memory engine returns. Whenever it completes a
    merge in which the selected, version-stripped feature identifiers of
    each dataset are distinct, the rows of the output are the identifiers
    of all the datasets, each once, in order of first appearance, source
    first; there is one column per selected sample, datasets in order;
    and the entry at a feature and a sample is the value the sample's
    dataset stores in its row of that identifier, and is missing (NaN)
    when the dataset has no such identifier. *)
Theorem high_mem_integrate_table a st cfgs :
  high_mem_integrate a = Ok st ->
  check_inputs a = Ok cfgs ->
  (forall t ids, t ∈ source_cfg a :: cfgs ->
     feature_ids (remove_version a) t = Ok ids -> NoDup ids) ->
  exists rds canon,
    Forall2 (fun t rd => read_dataset (remove_version a) t = Ok rd)
      (source_cfg a :: cfgs) rds /\
    canon = unique_from [] (flat_map r_ids rds) /\
    st_ra st !! "Accession" = Some canon /\
    st_shape st = (length canon, length (flat_map r_col_idx rds)) /\
    forall k rd j cj r x,
      rds !! k = Some rd ->
      r_col_idx rd !! j = Some cj ->
      canon !! r = Some x ->
      (x ∉ r_ids rd ->
       matrix_at (st_matrix st) r (column_offset rds k + j) = Some NaN) /\
      (forall i ri,
         r_ids rd !! i = Some x -> r_row_idx rd !! i = Some ri ->
         matrix_at (st_matrix st) r (column_offset rds k + j)
         = Some (Val (r_values rd ri cj))).
Proof.
  intros Hst Hcfgs Hdistinct.
  destruct (high_mem_integrate_reads a st cfgs Hst Hcfgs Hdistinct)
    as (rds & Hreads & Hnd & Hra & Hshape & Hmatrix).
  exists rds, (unique_from [] (flat_map r_ids rds)).
  split; [exact Hreads|]. split; [reflexivity|].
  split; [exact Hra|]. split; [exact Hshape|].
  intros k rd j cj r x Hk Hj Hr. rewrite Hmatrix. split.
  - intros Hx. exact (table_entry_absent _ _ k rd j cj r x Hk Hj Hr Hx).
  - intros i ri Hi Hri.
    apply (table_entry _ _ k rd j cj r x i ri Hk Hj Hr); [|exact Hi|exact Hri].
    rewrite Forall_forall in Hnd. apply Hnd.
    eapply list_elem_of_lookup_2; eauto.
Qed.

Lemma high_mem_integrate_table_witness :
  exists rds canon,
    Forall2 (fun t rd => read_dataset (remove_version ex_args_CA) t = Ok rd)
      (source_cfg ex_args_CA :: [ex_cfg_CA]) rds /\
    canon = unique_from [] (flat_map r_ids rds) /\
    st_ra ex_store_CA !! "Accession" = Some canon /\
    st_shape ex_store_CA = (length canon, length (flat_map r_col_idx rds)) /\
    forall k rd j cj r x,
      rds !! k = Some rd ->
      r_col_idx rd !! j = Some cj ->
      canon !! r = Some x ->
      (x ∉ r_ids rd ->
       matrix_at (st_matrix ex_store_CA) r (column_offset rds k + j)
       = Some NaN) /\
      (forall i ri,
         r_ids rd !! i = Some x -> r_row_idx rd !! i = Some ri ->
         matrix_at (st_matrix ex_store_CA) r (column_offset rds k + j)
         = Some (Val (r_values rd ri cj))).
Proof.
  apply (high_mem_integrate_table ex_args_CA ex_store_CA [ex_cfg_CA]).
  - vm_compute. reflexivity.
  - vm_compute. reflexivity.
  - intros t ids Ht Hids. apply list_elem_of_In in Ht.
    destruct Ht as [<-|[<-|[]]]; vm_compute in Hids;
      injection Hids as <-; apply (bool_decide_unpack _); vm_compute;
      exact I.
Defined.

(** ** What every call of the writer is given *)

Ltac lift_case x Hx :=
  rewrite M_bind_unfold; unfold lift at 1;
  lazymatch goal with
  | |- context [match ?c with Ok _ => _ | Err _ => _ end] =>
      destruct c as [x|?] eqn:Hx; cbv beta iota zeta
  end.

Lemma view_ca_length v cell_attr cells :
  view_ca v cell_attr = Ok cells -> length cells = length (view_cols v).
Proof.
  unfold view_ca. destruct (attr_get _ _) as [arr|]; [|discriminate].
  simpl. intros H. apply index_array_bounds in H as [_ H]. exact H.
Qed.

Lemma block_ok_view p (label : param) v cell_attr cells dat :
  view_ca v cell_attr = Ok cells ->
  (coo_shape dat).2 = length (view_cols v) ->
  block_ok dat
    (if is_none label
     then <["OriginalFile" :=
              np_repeat (PScalar (Some p)) (view_shape v).2]>
            ({["CellID" := cells]} : gmap string (list scalar))
     else <["Modality" := np_repeat label (view_shape v).2]>
            (<["OriginalFile" :=
                 np_repeat (PScalar (Some p)) (view_shape v).2]>
               ({["CellID" := cells]} : gmap string (list scalar)))).
Proof.
  intros Hcells Hshape. unfold block_ok.
  rewrite !col_attrs_lookup, Hshape. unfold batch_attr. simpl.
  split; [exact (view_ca_length _ _ _ Hcells)|].
  apply length_replicate.
Qed.

Lemma valid_index_sorted d attr columns idx :
  valid_index d attr columns = Ok idx -> StronglySorted lt idx.
Proof.
  unfold valid_index, get_attr_index.
  destruct attr as [[a|]|l]; simpl; [| |discriminate].
  - destruct ((if columns then ca d else ra d) !! a); [|discriminate].
    intros [= <-]. apply truthy_positions_sorted.
  - intros [= <-]. apply seq_sorted.
Qed.

(** An invariant of the file and the log is kept by a run as soon as
    every call of the writer keeps it, for the blocks the views of a scan
    can give. *)
Section writer_invariant_views.
Variable I : world -> Prop.
Variable first : bool.
Variable V : view -> Prop.
Variable bs : nat.
Hypothesis V_scan : forall ds items layers views,
  StronglySorted lt items ->
  scan ds items layers bs = Ok views -> Forall V views.
Hypothesis I_write : forall dat row_attrs col_attrs append w v,
  append = true \/ append = first ->
  V v -> (coo_shape dat).2 = length (view_cols v) ->
  block_ok dat col_attrs -> I w ->
  I (batch_add_sparse dat row_attrs col_attrs append w).1.

Lemma add_batches_invariant_views in_loom layer cell_attr label row_idx
    feat_ids out_ids feat_idx views : forall append w,
  Forall V views ->
  append = true \/ append = first -> I w ->
  I (add_batches in_loom layer cell_attr label row_idx feat_ids out_ids
       feat_idx append views w).1.
Proof.
  induction views as [|v rest IH]; intros append w Hviews Happ Hw; simpl;
    [exact Hw|].
  apply Forall_cons in Hviews as [Hv Hviews].
  lift_case values Hvalues; [|exact Hw].
  lift_case dat Hdat; [|exact Hw].
  lift_case cells Hcells; [|exact Hw].
  rewrite M_bind_unfold.
  assert (Hshape : (coo_shape dat).2 = length (view_cols v)).
  { destruct append.
    - apply reorder_triples in Hdat as [_ ->]. simpl.
      apply length_seq.
    - injection Hdat as <-. simpl. apply length_seq. }
  match goal with
  | |- context [batch_add_sparse dat ?ra ?ca append w] =>
      pose proof (I_write dat ra ca append w v Happ Hv Hshape
                    (block_ok_view _ label v cell_attr cells dat
                       Hcells Hshape) Hw) as Hw1;
      destruct (batch_add_sparse dat ra ca append w) as [w1 [[]|e]]
  end; simpl in Hw1; [|exact Hw1].
  apply IH; [exact Hviews|left; reflexivity|exact Hw1].
Qed.

Lemma low_mem_add_data_invariant_views in_loom layer feat_attr cell_attr
    label valid_ra valid_ca rv gen_out w :
  negb gen_out = true \/ negb gen_out = first -> I w ->
  I (low_mem_add_data in_loom layer feat_attr cell_attr label valid_ra
       valid_ca rv bs gen_out w).1.
Proof.
  intros Happ Hw. unfold low_mem_add_data.
  lift_case row_idx Hrow; [|exact Hw].
  lift_case col_idx Hcol; [|exact Hw].
  rewrite M_bind_unfold.
  assert (Hout : exists r,
            (if gen_out
             then lift (acc ← attr_get (ra in_loom) (Some "Accession");
                        index_array acc row_idx)
             else ds ← connect_out;
                  lift (attr_get (st_ra ds) (Some "Accession"))) w
            = (w, r)).
  { destruct gen_out; [eexists; reflexivity|].
    rewrite M_bind_unfold. unfold connect_out.
    destruct (out_loom w); eexists; reflexivity. }
  destruct Hout as [r ->]. destruct r as [out_ids|e]; [|exact Hw].
  lift_case ids Hids; [|exact Hw].
  lift_case feat_idx Hidx; [|exact Hw].
  lift_case views Hviews; [|exact Hw].
  apply add_batches_invariant_views; [|assumption|assumption].
  exact (V_scan _ _ _ _ (valid_index_sorted _ _ _ _ Hcol) Hviews).
Qed.

Lemma low_mem_targets_invariant_views rv cfgs : forall w,
  I w -> I (low_mem_targets rv bs cfgs w).1.
Proof.
  induction cfgs as [|t rest IH]; intros w Hw; simpl; [exact Hw|].
  rewrite M_bind_unfold.
  pose proof (low_mem_add_data_invariant_views (t_loom t) (t_layer t)
                (t_feat t) (t_cell t) (t_label t) (t_valid_ra t)
                (t_valid_ca t) rv false w (or_introl eq_refl) Hw)
    as Hw1.
  destruct (low_mem_add_data _ _ _ _ _ _ _ _ _ _ w) as [w1 [[]|e]];
    simpl in Hw1; [apply IH; exact Hw1|exact Hw1].
Qed.

Lemma low_mem_integrate_invariant_views a w :
  batch_size a = bs ->
  first = false -> I w -> I (low_mem_integrate a w).1.
Proof.
  intros Hbs Hfirst Hw. unfold low_mem_integrate. rewrite Hbs.
  lift_case cfgs Hcfgs; [|exact Hw].
  rewrite M_bind_unfold.
  pose proof (low_mem_add_data_invariant_views (loom_source a)
                (layer_source a) (feat_source a) (cell_source a)
                (PScalar (label_source a)) (PScalar (valid_ra_source a))
                (PScalar (valid_ca_source a)) (remove_version a) true w
                (or_intror (eq_sym Hfirst)) Hw) as Hw1.
  destruct (low_mem_add_data _ _ _ _ _ _ _ _ _ _ w) as [w1 [[]|e]];
    simpl in Hw1; [|exact Hw1].
  apply low_mem_targets_invariant_views. exact Hw1.
Qed.
End writer_invariant_views.

(** The same, for invariants that do not look at the views. *)
Section writer_invariant.
Variable I : world -> Prop.
Variable first : bool.
Hypothesis I_write : forall dat row_attrs col_attrs append w,
  append = true \/ append = first ->
  block_ok dat col_attrs -> I w ->
  I (batch_add_sparse dat row_attrs col_attrs append w).1.

Lemma any_view bs ds items layers (views : list view) :
  StronglySorted lt items ->
  scan ds items layers bs = Ok views -> Forall (fun _ => True) views.
Proof. intros _ _. apply Forall_forall. intros v _. exact Logic.I. Qed.

Lemma low_mem_add_data_invariant in_loom layer feat_attr cell_attr label
    valid_ra valid_ca rv bs gen_out w :
  negb gen_out = true \/ negb gen_out = first -> I w ->
  I (low_mem_add_data in_loom layer feat_attr cell_attr label valid_ra
       valid_ca rv bs gen_out w).1.
Proof.
  apply (low_mem_add_data_invariant_views I first (fun _ => True) bs
           (any_view bs)).
  intros dat row_attrs col_attrs append w' v Happ _ _. apply I_write.
  exact Happ.
Qed.

Lemma low_mem_targets_invariant rv bs cfgs : forall w,
  I w -> I (low_mem_targets rv bs cfgs w).1.
Proof.
  apply (low_mem_targets_invariant_views I first (fun _ => True) bs
           (any_view bs)).
  intros dat row_attrs col_attrs append w' v Happ _ _. apply I_write.
  exact Happ.
Qed.

Lemma low_mem_integrate_invariant a w :
  first = false -> I w -> I (low_mem_integrate a w).1.
Proof.
  apply (low_mem_integrate_invariant_views I first (fun _ => True)
           (batch_size a) (any_view (batch_size a))); [|reflexivity].
  intros dat row_attrs col_attrs append w' v Happ _ _. apply I_write.
  exact Happ.
Qed.
End writer_invariant.

(** X7. Every block fits its labels. In every call of the writer that a
    run of the streaming engine makes, whatever the inputs and however
    the run ends, the block comes with exactly one sample identifier
    (CellID) and one file name (OriginalFile) per column of the block. *)
Theorem low_mem_blocks_fit a :
  Forall call_ok (calls (low_mem_integrate a fresh).1).
Proof.
  apply (low_mem_integrate_invariant
           (fun w => Forall call_ok (calls w)) false);
    [|reflexivity|constructor].
  intros dat row_attrs col_attrs append w _ Hblock Hw.
  rewrite batch_add_sparse_calls. apply Forall_app. split; [exact Hw|].
  constructor; [exact Hblock|constructor].
Qed.

(** ** The file stays rectangular *)

Lemma todense_length m : length (todense m) = (coo_shape m).1.
Proof. unfold todense. rewrite length_map, length_seq. reflexivity. Qed.

Lemma todense_rows m :
  Forall (fun row => length row = (coo_shape m).2) (todense m).
Proof.
  unfold todense. apply Forall_forall. intros row Hrow.
  apply list_elem_of_In, in_map_iff in Hrow as (r & <- & _).
  rewrite length_map, length_seq. reflexivity.
Qed.

Lemma Forall_zip_with {A B C} (P : A -> Prop) (Q : B -> Prop)
    (R : C -> Prop) (f : A -> B -> C) l k :
  (forall a b, P a -> Q b -> R (f a b)) ->
  Forall P l -> Forall Q k -> Forall R (zip_with f l k).
Proof.
  intros Hf Hl. revert k.
  induction Hl as [|a l Ha _ IH]; intros k Hk; [constructor|].
  destruct Hk as [|b k Hb Hk]; simpl; [constructor|].
  constructor; [apply Hf; assumption|apply IH; exact Hk].
Qed.

Lemma create_consistent dat row_attrs col_attrs :
  block_ok dat col_attrs ->
  store_consistent
    (loompy_create (coo_shape dat) (map (map Val) (todense dat)) row_attrs
       col_attrs).
Proof.
  intros [Hcell Hfile]. unfold store_consistent, loompy_create, column_attr.
  simpl. split; [rewrite length_map; apply todense_length|].
  split; [|split; assumption].
  apply Forall_forall. intros row Hrow.
  apply list_elem_of_In, in_map_iff in Hrow as (r & <- & Hr).
  rewrite length_map.
  pose proof (todense_rows dat) as Hall. rewrite Forall_forall in Hall.
  apply Hall. apply list_elem_of_In. exact Hr.
Qed.

Lemma append_columns_attr st dat col_attrs name :
  column_attr (append_columns st dat col_attrs) name
  = column_attr st name ++ default [] (col_attrs !! name).
Proof. unfold column_attr, append_columns. simpl. apply default_union_app. Qed.

Lemma append_columns_consistent st dat col_attrs :
  store_consistent st ->
  (coo_shape dat).1 = (st_shape st).1 ->
  block_ok dat col_attrs ->
  store_consistent (append_columns st dat col_attrs).
Proof.
  intros (Hrows & Hcols & Hcell & Hfile) Hshape [Hbc Hbf].
  unfold store_consistent. rewrite !append_columns_attr, !length_app.
  unfold append_columns. simpl.
  split; [|split; [|split; congruence]].
  - rewrite length_zip_with, todense_length, Hrows, Hshape. lia.
  - apply (Forall_zip_with
             (fun row => length row = (st_shape st).2)
             (fun row => length row = (coo_shape dat).2));
      [|exact Hcols|apply todense_rows].
    intros old new Hold Hnew. rewrite length_app, length_map. congruence.
Qed.

Lemma batch_add_sparse_consistent dat row_attrs col_attrs append w :
  block_ok dat col_attrs ->
  world_consistent w ->
  world_consistent (batch_add_sparse dat row_attrs col_attrs append w).1.
Proof.
  intros Hblock Hw st. unfold batch_add_sparse. destruct append.
  - destruct (out_loom w) as [st0|] eqn:Hst0; simpl; [|discriminate].
    destruct (_ =? _) eqn:Hcheck; simpl; intros [= <-].
    + apply append_columns_consistent;
        [apply Hw; exact Hst0|apply Nat.eqb_eq; exact Hcheck|exact Hblock].
    + apply Hw. exact Hst0.
  - simpl. intros [= <-]. apply create_consistent. exact Hblock.
Qed.

(** X8. The output file stays rectangular. Whatever the inputs, and
    whether the run completes or stops with an error, the file a run of
    the streaming engine leaves (if it leaves one) has as many matrix
    rows as its shape says, every row as long as its column count, and
    one CellID and one OriginalFile entry per column. *)
Theorem low_mem_output_consistent a st :
  out_loom (low_mem_integrate a fresh).1 = Some st ->
  store_consistent st.
Proof.
  revert st. fold (world_consistent (low_mem_integrate a fresh).1).
  apply (low_mem_integrate_invariant world_consistent false);
    [|reflexivity|intros st H; discriminate H].
  intros dat row_attrs col_attrs append w _ Hblock Hw.
  apply batch_add_sparse_consistent; assumption.
Qed.

Lemma low_mem_output_consistent_witness :
  (low_mem_integrate ex_args_ABCD fresh).2 = Err SchemaMismatchError /\
  store_consistent ex_store_ABCD.
Proof.
  split; [vm_compute; reflexivity|].
  apply (low_mem_output_consistent ex_args_ABCD ex_store_ABCD).
  vm_compute. reflexivity.
Defined.

(** ** Calls for targets only append *)

Lemma extends_refl st : extends st st.
Proof.
  unfold extends. split; [reflexivity|]. split; [reflexivity|].
  split; [lia|]. split; [|reflexivity].
  induction (st_matrix st); constructor; [reflexivity|assumption].
Qed.

Lemma Forall2_prefix_trans {A} (l1 l2 l3 : list (list A)) :
  Forall2 (fun old new => old `prefix_of` new) l1 l2 ->
  Forall2 (fun old new => old `prefix_of` new) l2 l3 ->
  Forall2 (fun old new => old `prefix_of` new) l1 l3.
Proof.
  intros H12. revert l3.
  induction H12 as [|a b l1 l2 Hab _ IH]; intros l3 H23;
    inversion H23; subst; constructor.
  - etrans; eassumption.
  - apply IH. assumption.
Qed.

Lemma extends_trans st0 st1 st2 :
  extends st0 st1 -> extends st1 st2 -> extends st0 st2.
Proof.
  intros (Hra1 & Hr1 & Hc1 & Hm1 & Ha1) (Hra2 & Hr2 & Hc2 & Hm2 & Ha2).
  unfold extends. split; [congruence|]. split; [congruence|].
  split; [lia|]. split; [eapply Forall2_prefix_trans; eassumption|].
  intros name. etrans; [apply Ha1|apply Ha2].
Qed.

Lemma zip_with_prefix {A B} (g : B -> list A) (l : list (list A)) :
  forall k, length k = length l ->
  Forall2 (fun old new => old `prefix_of` new) l
    (zip_with (fun old new => old ++ g new) l k).
Proof.
  induction l as [|a l IH]; intros [|b k] Hlen; simpl in *;
    try discriminate; constructor.
  - exists (g b). reflexivity.
  - apply IH. lia.
Qed.

Lemma extends_append st dat col_attrs :
  store_consistent st ->
  (coo_shape dat).1 = (st_shape st).1 ->
  extends st (append_columns st dat col_attrs).
Proof.
  intros (Hrows & _) Hshape. unfold extends.
  split; [reflexivity|]. split; [reflexivity|].
  split; [simpl; lia|]. split.
  - apply (zip_with_prefix (map Val)).
    rewrite todense_length, Hrows. exact Hshape.
  - intros name. rewrite append_columns_attr. eexists. reflexivity.
Qed.

(** X9. Calls for targets only append. Once the call for the source has
    written the file, nothing the calls for the targets do, completed or
    failed, removes the file or changes what it holds: the final file has
    the same row attributes and row count, every matrix row and every
    column attribute array of the source's file continues into it
    unchanged.  A merge that fails on a target leaves the partial file
    behind. *)
Theorem low_mem_keeps_what_is_written a cfgs w1 st0 :
  check_inputs a = Ok cfgs ->
  low_mem_add_data (loom_source a) (layer_source a) (feat_source a)
    (cell_source a) (PScalar (label_source a))
    (PScalar (valid_ra_source a)) (PScalar (valid_ca_source a))
    (remove_version a) (batch_size a) true fresh = (w1, Ok tt) ->
  out_loom w1 = Some st0 ->
  exists st,
    out_loom (low_mem_integrate a fresh).1 = Some st /\ extends st0 st.
Proof.
  intros Hcfgs Hrun Hst0.
  assert (Hcons : store_consistent st0).
  { assert (Hw1 : world_consistent w1).
    { change w1 with (w1, @Ok unit tt).1. rewrite <- Hrun.
      apply (low_mem_add_data_invariant world_consistent false).
      - intros dat row_attrs col_attrs append w _ Hblock Hw.
        apply batch_add_sparse_consistent; assumption.
      - right. reflexivity.
      - intros st H. discriminate H. }
    apply Hw1. exact Hst0. }
  unfold low_mem_integrate.
  rewrite (bind_lift_ok _ _ _ _ Hcfgs), M_bind_unfold, Hrun.
  assert (H : exists st,
            out_loom (low_mem_targets (remove_version a) (batch_size a)
                        cfgs w1).1 = Some st /\
            store_consistent st /\ extends st0 st).
  { apply (low_mem_targets_invariant
             (fun w => exists st, out_loom w = Some st /\
                                  store_consistent st /\ extends st0 st)
             true).
    - intros dat row_attrs col_attrs append w Happ Hblock
        (st & Hst & Hc & He).
      assert (append = true) as -> by (destruct Happ; assumption).
      unfold batch_add_sparse. rewrite Hst.
      destruct (_ =? _) eqn:Hcheck; simpl.
      + apply Nat.eqb_eq in Hcheck. eexists. split; [reflexivity|].
        split; [apply append_columns_consistent; assumption|].
        eapply extends_trans; [exact He|].
        apply extends_append; assumption.
      + exists st. auto.
    - exists st0. split; [exact Hst0|]. split; [exact Hcons|].
      apply extends_refl. }
  destruct H as (st & Hst & _ & He). exists st. split; assumption.
Qed.

Lemma low_mem_keeps_what_is_written_witness :
  (low_mem_integrate ex_args_ABCD fresh).2 = Err SchemaMismatchError /\
  exists st,
    out_loom (low_mem_integrate ex_args_ABCD fresh).1 = Some st /\
    extends (default no_store (out_loom ex_world_source)) st.
Proof.
  split; [vm_compute; reflexivity|].
  apply (low_mem_keeps_what_is_written ex_args_ABCD
           (result_get [] (check_inputs ex_args_ABCD)) ex_world_source
           (default no_store (out_loom ex_world_source))).
  - vm_compute. reflexivity.
  - vm_compute. reflexivity.
  - vm_compute. reflexivity.
Defined.

(** ** Labels of the full-memory output *)

Lemma dataset_attr_length (rv : bool) t rd name :
  read_dataset rv t = Ok rd ->
  is_list (t_label t) = false ->
  name ∈ ["CellID"; "OriginalFile"; "Modality"] ->
  length (dataset_attr false t name) = length (r_col_idx rd).
Proof.
  intros Hrd Hlabel Hname.
  pose proof (read_dataset_cells rv t rd Hrd) as Hlen.
  destruct (read_dataset_inv rv t rd Hrd)
    as (feats & index & cells & _ & Hcol & _ & _ & _ & _ & Hcells
        & Hcolumns).
  unfold dataset_attr, dataset_cells, column_index. rewrite Hcol. simpl.
  rewrite Hcells. simpl. rewrite Hcolumns. simpl.
  apply list_elem_of_In in Hname.
  destruct Hname as [<-|[<-|[<-|[]]]]; unfold batch_attr; simpl.
  - exact Hlen.
  - apply length_replicate.
  - destruct (t_label t) as [v|l]; [|discriminate]. simpl.
    apply length_replicate.
Qed.

Lemma concat_rows_ok frames table :
  concat frames = Ok table ->
  Forall frame_rows_ok frames ->
  frame_rows_ok table.
Proof.
  unfold concat, frame_rows_ok. destruct frames as [|f0 rest];
    [discriminate|].
  intros H Hall.
  assert (Hlen : forall (g : frame -> list (list cell)) l,
            Forall (fun f => length (g f) = length (f_index f)) l ->
            length (flat_map g l) = length (flat_map f_index l)).
  { intros g l. induction 1 as [|f l Hf _ IH]; [reflexivity|].
    simpl. rewrite !length_app, Hf, IH. reflexivity. }
  destruct (forallb _ rest).
  - injection H as <-. exact (Hlen f_values (f0 :: rest) Hall).
  - destruct (existsb _ (f0 :: rest)); [discriminate|].
    injection H as <-.
    refine (Hlen (fun f => map _ (f_values f)) (f0 :: rest) _).
    eapply Forall_impl; [exact Hall|]. intros f Hf. simpl.
    rewrite length_map. exact Hf.
Qed.

(** X10. One label per sample. Whenever the full-memory engine
    completes, its matrix is rectangular (as many rows as features, every
    row as long as there are samples) and the CellID and OriginalFile
    arrays have one entry per sample; when no target label is a list,
    so has the Modality array: each label is repeated once for every
    selected sample of its dataset. *)
Theorem high_mem_labels_cover_samples a st cfgs :
  high_mem_integrate a = Ok st ->
  check_inputs a = Ok cfgs ->
  store_consistent st /\
  (Forall (fun t => is_list (t_label t) = false) cfgs ->
   length (column_attr st "Modality") = (st_shape st).2).
Proof.
  intros Hst Hcfgs.
  pose proof (high_mem_integrate_ca a st cfgs Hst Hcfgs) as Hca.
  destruct (high_mem_integrate_inv a st Hst)
    as (acc & table & types & Hcollect & Hconcat & _ & _ & Heq).
  pose proof (high_mem_collect_frames a acc cfgs Hcollect Hcfgs) as Hframes.
  apply frames_of_reads in Hframes as (rds & Hreads & Hacc).
  pose proof (concat_rows_ok _ table Hconcat
                (high_mem_collect_rows_ok a acc Hcollect)) as Hrows.
  assert (Hcell : column_attr st "CellID" = f_index table).
  { rewrite Heq. reflexivity. }
  assert (Hshape : (st_shape st).2 = length (f_index table)).
  { rewrite Heq. reflexivity. }
  assert (Hsame : forall name,
            name ∈ ["CellID"; "OriginalFile"; "Modality"] ->
            Forall (fun t => is_list (t_label t) = false)
              (source_cfg a :: cfgs) ->
            length (column_attr st name) = length (flat_map r_col_idx rds)).
  { intros name Hname Hlabels. rewrite Hca. clear -Hreads Hname Hlabels.
    induction Hreads as [|t rd ts rds Hrd _ IH]; [reflexivity|].
    apply Forall_cons in Hlabels as [Hl Hlabels].
    simpl. rewrite !length_app, (IH Hlabels).
    rewrite (dataset_attr_length _ t rd name Hrd Hl Hname). reflexivity. }
  assert (Hfile : length (column_attr st "OriginalFile")
                  = length (column_attr st "CellID")).
  { rewrite !Hca. clear -Hreads.
    induction Hreads as [|t rd ts rds Hrd _ IH]; [reflexivity|].
    simpl. rewrite !length_app, IH. f_equal.
    pose proof (read_dataset_cells _ t rd Hrd) as Hlen.
    destruct (read_dataset_inv _ t rd Hrd)
      as (feats & index & cells & _ & Hcol & _ & _ & _ & _ & Hcells
          & Hcolumns).
    unfold dataset_attr, dataset_cells, column_index. rewrite Hcol. simpl.
    rewrite Hcells. simpl. rewrite Hcolumns. simpl.
    unfold batch_attr. simpl. rewrite length_replicate. congruence. }
  split.
  - unfold store_consistent. rewrite Hfile, Hcell, Hshape.
    split; [|split; [|split; reflexivity]].
    + rewrite Heq. simpl. unfold transpose_values.
      rewrite length_map, length_seq. reflexivity.
    + rewrite Heq. simpl. unfold transpose_values.
      apply Forall_forall. intros row Hrow.
      apply list_elem_of_In, in_map_iff in Hrow as (j & <- & _).
      rewrite length_map. exact Hrows.
  - intros Hlabels.
    assert (Hall : Forall (fun t => is_list (t_label t) = false)
                     (source_cfg a :: cfgs))
      by (constructor; [reflexivity|exact Hlabels]).
    rewrite (Hsame "Modality"), <- (Hsame "CellID"), Hcell, Hshape;
      [reflexivity| |exact Hall| |exact Hall];
      apply list_elem_of_In; simpl; auto.
Qed.

Lemma high_mem_labels_cover_samples_witness :
  store_consistent ex_store_CAB /\
  (Forall (fun t => is_list (t_label t) = false) [ex_cfg_CAB] ->
   length (column_attr ex_store_CAB "Modality") = (st_shape ex_store_CAB).2).
Proof.
  apply (high_mem_labels_cover_samples ex_args_CAB ex_store_CAB [ex_cfg_CAB]).
  - vm_compute. reflexivity.
  - vm_compute. reflexivity.
Defined.

(** X11. The full-memory engine needs both labels. When the source's
    label or the target's label is not given (as by default), the
    full-memory engine never produces an output: once every dataset has
    been read and the tables stacked, it stops with UnboundLocalError on
    [type_dat]; and a merge dispatched to it writes nothing. *)
Theorem high_mem_needs_both_labels a :
  label_source a = None \/ is_none (label_target a) = true ->
  (forall st, high_mem_integrate a <> Ok st) /\
  (forall acc table,
     high_mem_collect a = Ok acc ->
     concat (imputed_dat acc) = Ok table ->
     high_mem_integrate a = Err (UnboundLocalError "type_dat")) /\
  (low_mem a = false ->
   forall w, (integrate_data a w).1 = w /\ (integrate_data a w).2 <> Ok tt).
Proof.
  intros Hlabels.
  assert (Hty : is_type_of a = false).
  { unfold is_type_of. destruct Hlabels as [->| ->].
    - rewrite bool_decide_eq_true_2 by reflexivity. reflexivity.
    - apply andb_false_r. }
  split; [exact (high_mem_unlabelled_fails a Hty)|]. split.
  - intros acc table Hacc Htable. unfold high_mem_integrate.
    rewrite Hacc. simpl. rewrite Htable. simpl.
    rewrite (high_mem_collect_untyped a acc Hty Hacc). reflexivity.
  - intros Hlow w. unfold integrate_data. rewrite Hlow.
    pose proof (high_mem_unlabelled_fails a Hty) as Hfail.
    destruct (high_mem_integrate a) as [st|e]; [|split; [reflexivity|]].
    + exfalso. exact (Hfail st eq_refl).
    + simpl. discriminate.
Qed.

Lemma high_mem_needs_both_labels_witness :
  (forall st,
     high_mem_integrate (source_label_args ex_source ex_target_CA) <> Ok st) /\
  (forall acc table,
     high_mem_collect (source_label_args ex_source ex_target_CA) = Ok acc ->
     concat (imputed_dat acc) = Ok table ->
     high_mem_integrate (source_label_args ex_source ex_target_CA)
     = Err (UnboundLocalError "type_dat")) /\
  (low_mem (source_label_args ex_source ex_target_CA) = false ->
   forall w,
     (integrate_data (source_label_args ex_source ex_target_CA) w).1 = w /\
     (integrate_data (source_label_args ex_source ex_target_CA) w).2
     <> Ok tt).
Proof.
  apply (high_mem_needs_both_labels
           (source_label_args ex_source ex_target_CA)).
  right. reflexivity.
Defined.

(** ** A source without selected samples *)

Lemma scan_from_nil ncols : forall fuel ix cpc sels,
  scan_from fuel ix cpc ncols [] = Ok sels -> sels = [].
Proof.
  induction fuel as [|fuel IH]; intros ix cpc sels; simpl.
  - destruct (ix <? ncols); [discriminate|]. intros [= <-]. reflexivity.
  - destruct (ix <? ncols); [|intros [= <-]; reflexivity].
    destruct (scan_from fuel _ _ ncols []) as [rest|] eqn:Hrest;
      [|discriminate].
    simpl. intros [= <-]. eapply IH. exact Hrest.
Qed.

Lemma scan_nil ds layers bs views :
  scan ds [] layers bs = Ok views -> views = [].
Proof.
  unfold scan. destruct (rmapM _ layers); [|discriminate]. simpl.
  destruct (scan_from _ _ _ _ _) as [sels|] eqn:Hsels; [|discriminate].
  simpl. intros [= <-]. apply scan_from_nil in Hsels. subst. reflexivity.
Qed.

(** A call that finds no selected sample writes nothing. *)
Lemma low_mem_add_data_no_columns in_loom layer feat_attr cell_attr label
    valid_ra valid_ca rv bs gen_out w :
  valid_index in_loom valid_ca true = Ok [] ->
  exists r,
    low_mem_add_data in_loom layer feat_attr cell_attr label valid_ra
      valid_ca rv bs gen_out w = (w, r).
Proof.
  intros Hnone. unfold low_mem_add_data.
  lift_case row_idx Hrow; [|eexists; reflexivity].
  lift_case col_idx Hcol; [|eexists; reflexivity].
  injection Hnone as ->.
  rewrite M_bind_unfold.
  assert (Hout : exists r,
            (if gen_out
             then lift (acc ← attr_get (ra in_loom) (Some "Accession");
                        index_array acc row_idx)
             else ds ← connect_out;
                  lift (attr_get (st_ra ds) (Some "Accession"))) w
            = (w, r)).
  { destruct gen_out; [eexists; reflexivity|].
    rewrite M_bind_unfold. unfold connect_out.
    destruct (out_loom w); eexists; reflexivity. }
  destruct Hout as [r ->]. destruct r as [out_ids|e];
    [|eexists; reflexivity].
  lift_case ids Hids; [|eexists; reflexivity].
  lift_case feat_idx Hidx; [|eexists; reflexivity].
  lift_case views Hviews; [|eexists; reflexivity].
  apply scan_nil in Hviews. subst views. eexists. reflexivity.
Qed.

(** A call for a target finds no file to append to. *)
Lemma low_mem_add_data_no_output in_loom layer feat_attr cell_attr label
    valid_ra valid_ca rv bs w :
  out_loom w = None ->
  exists e,
    low_mem_add_data in_loom layer feat_attr cell_attr label valid_ra
      valid_ca rv bs false w = (w, Err e) /\
    (forall rows cols,
       valid_index in_loom valid_ra false = Ok rows ->
       valid_index in_loom valid_ca true = Ok cols ->
       e = OSError).
Proof.
  intros Hnone. unfold low_mem_add_data.
  lift_case row_idx Hrow;
    [|eexists; split; [reflexivity|intros ? ? [=]]].
  lift_case col_idx Hcol;
    [|eexists; split; [reflexivity|intros ? ? _ [=]]].
  rewrite !M_bind_unfold. unfold connect_out. rewrite Hnone.
  exists OSError. split; reflexivity.
Qed.

(** X12. A source without selected samples. When no sample of the source
    is selected, a streaming merge with at least one target, started
    without an output file, cannot complete and writes nothing: the call
    for the source creates no file, and the first call for a target, once
    it has found its own rows and columns, fails with OSError for want of
    a file to append to. *)
Theorem low_mem_empty_source a :
  column_index (source_cfg a) = Ok [] ->
  has_target a ->
  (exists e, low_mem_integrate a fresh = (fresh, Err e)) /\
  (forall t rest rows cols,
     check_inputs a = Ok (t :: rest) ->
     (low_mem_add_data (loom_source a) (layer_source a) (feat_source a)
        (cell_source a) (PScalar (label_source a))
        (PScalar (valid_ra_source a)) (PScalar (valid_ca_source a))
        (remove_version a) (batch_size a) true fresh).2 = Ok tt ->
     valid_index (t_loom t) (t_valid_ra t) false = Ok rows ->
     valid_index (t_loom t) (t_valid_ca t) true = Ok cols ->
     low_mem_integrate a fresh = (fresh, Err OSError)).
Proof.
  intros Hcol Htarget.
  destruct (low_mem_add_data_no_columns (loom_source a) (layer_source a)
              (feat_source a) (cell_source a) (PScalar (label_source a))
              (PScalar (valid_ra_source a)) (PScalar (valid_ca_source a))
              (remove_version a) (batch_size a) true fresh Hcol)
    as [r Hsource].
  split.
  - unfold low_mem_integrate.
    lift_case cfgs Hcfgs; [|eexists; reflexivity].
    rewrite M_bind_unfold, Hsource.
    destruct r as [[]|e]; [|eexists; reflexivity].
    destruct cfgs as [|t rest].
    { exfalso. exact (check_inputs_has_target a [] Htarget Hcfgs eq_refl). }
    simpl. rewrite M_bind_unfold.
    destruct (low_mem_add_data_no_output (t_loom t) (t_layer t) (t_feat t)
                (t_cell t) (t_label t) (t_valid_ra t) (t_valid_ca t)
                (remove_version a) (batch_size a) fresh eq_refl)
      as (e & -> & _).
    eexists. reflexivity.
  - intros t rest rows cols Hcfgs Hok Hrows Hcols.
    unfold low_mem_integrate.
    rewrite (bind_lift_ok _ _ _ _ Hcfgs), M_bind_unfold, Hsource.
    rewrite Hsource in Hok. simpl in Hok. subst r.
    simpl. rewrite M_bind_unfold.
    destruct (low_mem_add_data_no_output (t_loom t) (t_layer t) (t_feat t)
                (t_cell t) (t_label t) (t_valid_ra t) (t_valid_ca t)
                (remove_version a) (batch_size a) fresh eq_refl)
      as (e & -> & He).
    rewrite (He rows cols Hrows Hcols). reflexivity.
Qed.

Lemma low_mem_empty_source_witness :
  (exists e, low_mem_integrate ex_args_no_samples fresh = (fresh, Err e)) /\
  (forall t rest rows cols,
     check_inputs ex_args_no_samples = Ok (t :: rest) ->
     (low_mem_add_data (loom_source ex_args_no_samples)
        (layer_source ex_args_no_samples) (feat_source ex_args_no_samples)
        (cell_source ex_args_no_samples)
        (PScalar (label_source ex_args_no_samples))
        (PScalar (valid_ra_source ex_args_no_samples))
        (PScalar (valid_ca_source ex_args_no_samples))
        (remove_version ex_args_no_samples)
        (batch_size ex_args_no_samples) true fresh).2 = Ok tt ->
     valid_index (t_loom t) (t_valid_ra t) false = Ok rows ->
     valid_index (t_loom t) (t_valid_ca t) true = Ok cols ->
     low_mem_integrate ex_args_no_samples fresh = (fresh, Err OSError)).
Proof.
  apply (low_mem_empty_source ex_args_no_samples).
  - vm_compute. reflexivity.
  - exact I.
Defined.

(** ** A batch size of zero *)

Lemma scan_from_zero ncols items : forall fuel ix,
  ix < ncols -> scan_from fuel ix 0 ncols items = Err Nontermination.
Proof.
  induction fuel as [|fuel IH]; intros ix Hlt; simpl;
    rewrite (proj2 (Nat.ltb_lt ix ncols) Hlt); [reflexivity|].
  rewrite Nat.min_0_r, Nat.add_0_r, (IH ix Hlt). reflexivity.
Qed.

(** X13. A batch size of zero. With a batch size of zero the scan of a
    file that has a column never advances: however many windows it is
    allowed, it does not reach the end of the file; so a streaming merge
    whose checks and source reads succeed does not return, and nothing
    is written. *)
Theorem low_mem_batch_size_zero a cfgs rd w :
  check_inputs a = Ok cfgs ->
  read_dataset (remove_version a) (source_cfg a) = Ok rd ->
  feat_source a = Some "Accession" ->
  batch_size a = 0 ->
  0 < (shape (loom_source a)).2 ->
  (forall fuel,
     scan_from fuel 0 (batch_size a) (shape (loom_source a)).2
       (r_col_idx rd) = Err Nontermination) /\
  low_mem_integrate a w = (w, Err Nontermination).
Proof.
  intros Hcfgs Hrd Hfeat Hbs Hcols. rewrite Hbs. split.
  { intros fuel. apply scan_from_zero. exact Hcols. }
  destruct (read_dataset_inv _ _ _ Hrd)
    as (feats & index & cells & Hrow & Hcol & Hvalues & Hfeats & Hindex
        & Hids & Hcells & Hcolumns).
  cbn [source_cfg t_loom t_layer t_feat t_cell t_valid_ra t_valid_ca] in *.
  unfold low_mem_integrate.
  rewrite (bind_lift_ok _ _ _ _ Hcfgs), M_bind_unfold.
  unfold low_mem_add_data.
  rewrite (bind_lift_ok _ _ _ _ Hrow), (bind_lift_ok _ _ _ _ Hcol).
  cbv beta iota zeta.
  rewrite (bind_lift_ok _ index)
    by (rewrite <- Hfeat, Hfeats; simpl; exact Hindex).
  rewrite (bind_lift_ok _ index)
    by (rewrite Hfeats; simpl; exact Hindex).
  assert (Hidx : exists feat_idx,
            feat_idx_of
              (if remove_version a then remove_gene_version index
               else index)
              (if remove_version a then remove_gene_version index
               else index) = Ok feat_idx).
  { unfold feat_idx_of. rewrite loc_present; [simpl; eauto|].
    apply Forall_forall. intros x Hx. exact Hx. }
  destruct Hidx as [feat_idx Hidx].
  rewrite (bind_lift_ok _ _ _ _ Hidx).
  rewrite (bind_lift_err _ Nontermination); [reflexivity|].
  unfold scan, make_layer_list. simpl. rewrite Hvalues. simpl.
  rewrite Hbs, (scan_from_zero _ _ _ 0 Hcols). reflexivity.
Qed.

Lemma low_mem_batch_size_zero_witness :
  (forall fuel,
     scan_from fuel 0 (batch_size (set_batch_size ex_args_CAB 0))
       (shape (loom_source (set_batch_size ex_args_CAB 0))).2
       (r_col_idx ex_reads_source) = Err Nontermination) /\
  low_mem_integrate (set_batch_size ex_args_CAB 0) fresh
  = (fresh, Err Nontermination).
Proof.
  apply (low_mem_batch_size_zero (set_batch_size ex_args_CAB 0)
           [ex_cfg_CAB] ex_reads_source fresh).
  - vm_compute. reflexivity.
  - vm_compute. reflexivity.
  - reflexivity.
  - reflexivity.
  - simpl. lia.
Defined.

(** ** No block is wider than the batch size *)

Lemma sorted_filter (P : nat -> Prop) `{!forall x, Decision (P x)} l :
  StronglySorted lt l -> StronglySorted lt (filter P l).
Proof.
  induction 1 as [|x l Hs IH Hall]; [constructor|].
  rewrite filter_cons. destruct (decide (P x)); [|exact IH].
  constructor; [exact IH|].
  apply Forall_forall. intros y Hy.
  apply list_elem_of_filter in Hy as [_ Hy].
  rewrite Forall_forall in Hall. apply Hall. exact Hy.
Qed.

Lemma sorted_window l : forall a n,
  StronglySorted lt l ->
  Forall (fun x => a <= x < a + n) l ->
  length l <= n.
Proof.
  induction l as [|x l IH]; intros a n Hs Hwin; simpl; [lia|].
  apply StronglySorted_inv in Hs as [Hs Hall].
  apply Forall_cons in Hwin as [Hx Hwin].
  assert (Hrest : length l <= a + n - S x).
  { apply (IH (S x)); [exact Hs|].
    rewrite Forall_forall in Hall, Hwin. apply Forall_forall.
    intros y Hy. specialize (Hall y Hy). specialize (Hwin y Hy).
    simpl in Hall. lia. }
  lia.
Qed.

Lemma scan_from_width ncols items :
  StronglySorted lt items ->
  forall fuel ix cpc sels,
    scan_from fuel ix cpc ncols items = Ok sels ->
    Forall (fun sel => length sel <= cpc) sels.
Proof.
  intros Hs. induction fuel as [|fuel IH]; intros ix cpc sels; simpl.
  - destruct (ix <? ncols); [discriminate|]. intros [= <-]. constructor.
  - destruct (ix <? ncols); [|intros [= <-]; constructor].
    destruct (scan_from fuel _ _ ncols items) as [rest|] eqn:Hrest;
      [|discriminate].
    simpl. intros [= <-].
    assert (Hrest' : Forall (fun sel => length sel <= cpc) rest).
    { eapply Forall_impl; [exact (IH _ _ _ Hrest)|].
      intros sel Hsel. simpl in Hsel. lia. }
    match goal with
    | |- Forall _ (match ?f with [] => _ | _ :: _ => _ end) =>
        assert (Hsel : length f <= cpc);
        [|destruct f; [exact Hrest'|constructor; assumption]]
    end.
    etrans; [|apply (Nat.le_min_r (ncols - ix) cpc)].
    apply (sorted_window _ ix); [apply sorted_filter; exact Hs|].
    apply Forall_forall. intros x Hx.
    apply list_elem_of_filter in Hx as [Hx _]. exact Hx.
Qed.

Lemma scan_width ds items layers bs views :
  StronglySorted lt items ->
  scan ds items layers bs = Ok views ->
  Forall (fun v => length (view_cols v) <= bs) views.
Proof.
  intros Hs. unfold scan. destruct (rmapM _ layers); [|discriminate].
  simpl. destruct (scan_from _ _ _ _ _) as [sels|] eqn:Hsels;
    [|discriminate].
  simpl. intros [= <-]. apply Forall_fmap.
  exact (scan_from_width _ _ Hs _ _ _ _ Hsels).
Qed.

(** X14. No block is wider than the batch size. In every call of the
    writer that a run of the streaming engine makes, whatever the inputs
    and however the run ends, the block has at most [batch_size]
    columns. *)
Theorem low_mem_blocks_bounded a :
  Forall (fun c => (coo_shape (w_layer c)).2 <= batch_size a)
    (calls (low_mem_integrate a fresh).1).
Proof.
  apply (low_mem_integrate_invariant_views
           (fun w => Forall (fun c => (coo_shape (w_layer c)).2
                                      <= batch_size a) (calls w))
           false (fun v => length (view_cols v) <= batch_size a)
           (batch_size a));
    [| |reflexivity|reflexivity|constructor].
  - intros ds items layers views. apply scan_width.
  - intros dat row_attrs col_attrs append w v _ Hv Hshape _ Hw.
    rewrite batch_add_sparse_calls. apply Forall_app. split; [exact Hw|].
    constructor; [|constructor]. simpl. rewrite Hshape. exact Hv.
Qed.

(** ** Repeated identifiers in the full-memory engine *)

Lemma frame_of_dataset (rv : bool) ts frs t ids :
  Forall2 (fun t fr =>
    high_mem_get_data (t_loom t) (t_layer t) (t_feat t) (t_cell t)
      (t_valid_ra t) (t_valid_ca t) rv = Ok fr) ts frs ->
  t ∈ ts ->
  feature_ids rv t = Ok ids ->
  exists fr, fr ∈ frs /\ f_columns fr = ids.
Proof.
  intros Hall Ht Hids. apply list_elem_of_lookup in Ht as [i Hi].
  destruct (Forall2_lookup_l _ _ _ _ _ Hall Hi) as (fr & Hfr & Hget).
  exists fr. split; [eapply list_elem_of_lookup_2; eauto|].
  apply high_mem_get_data_columns in Hget. congruence.
Qed.

(** X15. Repeated identifiers. When the selected, version-stripped
    feature identifiers of some dataset hold one identifier twice, and
    some target's identifier list is not exactly the source's, the
    full-memory engine, having read every dataset, fails with
    InvalidIndexError: the tables cannot be joined on their labels. *)
Theorem high_mem_repeated_ids a cfgs acc canon t1 ids1 t2 ids2 :
  check_inputs a = Ok cfgs ->
  high_mem_collect a = Ok acc ->
  canonical_order a = Ok canon ->
  t1 ∈ source_cfg a :: cfgs ->
  feature_ids (remove_version a) t1 = Ok ids1 ->
  ~ NoDup ids1 ->
  t2 ∈ cfgs ->
  feature_ids (remove_version a) t2 = Ok ids2 ->
  ids2 <> canon ->
  high_mem_integrate a = Err InvalidIndexError.
Proof.
  intros Hcfgs Hacc Hcanon Ht1 Hids1 Hdup Ht2 Hids2 Hne.
  pose proof (high_mem_collect_frames a acc cfgs Hacc Hcfgs) as Hframes.
  destruct (frame_of_dataset _ _ _ t1 ids1 Hframes Ht1 Hids1)
    as (f1 & Hf1 & Hc1).
  inversion Hframes as [|t0 f0 ts rest Hget0 Hrest Hts Hfrs]; subst ts.
  destruct (frame_of_dataset _ _ _ t2 ids2 Hrest Ht2 Hids2)
    as (f2 & Hf2 & Hc2).
  apply high_mem_get_data_columns in Hget0.
  unfold canonical_order in Hcanon. rewrite Hcanon in Hget0.
  injection Hget0 as Hc0.
  unfold high_mem_integrate. rewrite Hacc. simpl. rewrite <- Hfrs.
  unfold concat.
  assert (Hsame : forallb (fun f => bool_decide (f_columns f = f_columns f0))
                    rest = false).
  { apply not_true_is_false. intros Hall. rewrite forallb_forall in Hall.
    apply list_elem_of_In in Hf2. specialize (Hall f2 Hf2).
    apply bool_decide_eq_true in Hall. congruence. }
  assert (Hdups : existsb (fun f => has_dup (f_columns f)) (f0 :: rest)
                  = true).
  { apply existsb_exists. exists f1. rewrite <- Hfrs in Hf1.
    split; [apply list_elem_of_In; exact Hf1|].
    unfold has_dup. apply negb_true_iff, bool_decide_eq_false.
    rewrite Hc1. exact Hdup. }
  rewrite Hsame, Hdups. reflexivity.
Qed.

Lemma high_mem_repeated_ids_witness :
  high_mem_integrate ex_args_AAB = Err InvalidIndexError.
Proof.
  apply (high_mem_repeated_ids ex_args_AAB [ex_cfg_AAB]
           (result_get no_tables (high_mem_collect ex_args_AAB))
           [Str "A"; Str "B"; Str "C"]
           ex_cfg_AAB [Str "A"; Str "A"; Str "B"]
           ex_cfg_AAB [Str "A"; Str "A"; Str "B"]).
  - vm_compute. reflexivity.
  - vm_compute. reflexivity.
  - vm_compute. reflexivity.
  - right. left.
  - vm_compute. reflexivity.
  - intros Hnd. apply NoDup_cons in Hnd as [Hin _]. apply Hin. left.
  - left.
  - vm_compute. reflexivity.
  - discriminate.
Defined.
